(** * nutri: the AI gateway, its mock history store, mock authentication,
      session restore and the coach form validation

    A shallow embedding of [src/services/apiService.ts],
    [src/components/Auth.tsx], [src/App.tsx] and
    [src/components/PersonalCoach.tsx].

    - A JavaScript string is the list of its UTF-16 code units.
    - [JSON.parse] and [JSON.stringify] are embedded as a parser and a
      printer of JSON text over a tree type; the values [JSON.parse]
      creates live in an object heap, so that sharing between the history
      store and the values handed to callers is visible.
    - [Date.now()] and the generative service are an environment: the
      i-th clock reading and the outcome of the i-th request. *)

From Stdlib Require Import ZArith NArith String Ascii List Lia Sorted.
From Stdlib Require Import Decimal DecimalFacts DecimalN DecimalZ.
From stdpp Require Import base option list gmap.

#[local] Set Warnings "-register-all".
#[local] Open Scope N_scope.

(* ===================================================================== *)
(** ** JavaScript strings *)
(* ===================================================================== *)

Module JsString.

(** A string value: a finite sequence of 16-bit code units. *)
Definition jsstring := list N.

(** An ASCII literal of the source, as code units. *)
Definition lit (s : string) : jsstring :=
  map N_of_ascii (list_ascii_of_string s).

(** ECMAScript [WhiteSpace] and [LineTerminator] code units: what
    [String.prototype.trim], [parseInt] and [parseFloat] strip. *)
Definition is_white_space (c : N) : bool :=
  (c =? 9) || (c =? 10) || (c =? 11) || (c =? 12) || (c =? 13) ||
  (c =? 32) || (c =? 160) || (c =? 5760) ||
  ((8192 <=? c) && (c <=? 8202)) ||
  (c =? 8232) || (c =? 8233) || (c =? 8239) || (c =? 8287) ||
  (c =? 12288) || (c =? 65279).

Fixpoint trim_start (s : jsstring) : jsstring :=
  match s with
  | c :: r => if is_white_space c then trim_start r else s
  | [] => []
  end.

Definition trim_end (s : jsstring) : jsstring :=
  rev (trim_start (rev s)).

(** [s.trim()] *)
Definition trim (s : jsstring) : jsstring := trim_end (trim_start s).

(** [!s] for a string [s]: only the empty string is falsy. *)
Definition falsy (s : jsstring) : bool :=
  match s with [] => true | _ => false end.

(** Decimal digits. *)
Fixpoint uint_chars (d : uint) : jsstring :=
  match d with
  | Nil => []
  | D0 d => 48 :: uint_chars d
  | D1 d => 49 :: uint_chars d
  | D2 d => 50 :: uint_chars d
  | D3 d => 51 :: uint_chars d
  | D4 d => 52 :: uint_chars d
  | D5 d => 53 :: uint_chars d
  | D6 d => 54 :: uint_chars d
  | D7 d => 55 :: uint_chars d
  | D8 d => 56 :: uint_chars d
  | D9 d => 57 :: uint_chars d
  end.

(** The template-literal rendering [`${n}`] of an integral number [n]
    (below 10^21 in magnitude, where no exponent notation is used). *)
Definition decimal (z : Z) : jsstring :=
  match Z.to_int z with
  | Pos d => uint_chars d
  | Neg d => 45 :: uint_chars d
  end.

Definition is_digit (c : N) : bool := (48 <=? c) && (c <=? 57).

Definition digit_cons (c : N) (d : uint) : uint :=
  match c - 48 with
  | 0 => D0 d | 1 => D1 d | 2 => D2 d | 3 => D3 d | 4 => D4 d
  | 5 => D5 d | 6 => D6 d | 7 => D7 d | 8 => D8 d | _ => D9 d
  end.

(** The longest prefix of decimal digits, and what follows it. *)
Fixpoint read_digits (s : jsstring) : uint * jsstring :=
  match s with
  | c :: r =>
      if is_digit c
      then let '(d, rest) := read_digits r in (digit_cons c d, rest)
      else (Nil, s)
  | [] => (Nil, [])
  end.

(** [s.replace(/_/g, ' ')] *)
Definition replace_underscores (s : jsstring) : jsstring :=
  map (fun c => if c =? 95 then 32 else c) s.

End JsString.
Import JsString.

(* ===================================================================== *)
(** ** JSON values, [JSON.stringify] and [JSON.parse] *)
(* ===================================================================== *)

Module Json.

(** A number, kept as the decimal [mantissa * 10 ^ exponent] of the
    literal it was read from.  The decimal stands for the binary64
    number nearest to it (ties to even), which is what the language
    holds: [Infinity] or [-Infinity] when the decimal [overflows], zero
    when it [is_zero].  The sign of a zero is not kept: [===] does not
    tell the two zeros apart, [JSON.stringify] writes both as [0], and
    both are falsy.  The code never computes with the numbers it
    stores; what it can observe of one is whether [JSON.stringify]
    writes it as a number, and whether it is truthy. *)
Record number := Number { mantissa : Z; exponent : Z }.

Definition number_of_Z (z : Z) : number := Number z 0.

(** [bound <= |mantissa| * 10 ^ exponent] *)
Definition at_least (bound : Z) (n : number) : bool :=
  if (0 <=? exponent n)%Z
  then (bound <=? Z.abs (mantissa n) * 10 ^ exponent n)%Z
  else (bound * 10 ^ (- exponent n) <=? Z.abs (mantissa n))%Z.

(** The largest binary64 number is [2^1024 - 2^971]; a decimal half
    way to [2^1024] or beyond rounds to an infinity. *)
Definition overflows (n : number) : bool :=
  at_least (2 ^ 1024 - 2 ^ 970) n.

(** The smallest positive binary64 number is [2^-1074]; a decimal half
    way to it or below rounds to zero. *)
Definition is_zero (n : number) : bool :=
  if (0 <=? exponent n)%Z
  then (mantissa n =? 0)%Z
  else (Z.abs (mantissa n) * 2 ^ 1075 <=? 10 ^ (- exponent n))%Z.

(** The values of JSON text.  An object lists its properties in
    creation order (the language moves integer-like names to the front;
    nothing below depends on the order). *)
Inductive json :=
| JNull
| JBool (b : bool)
| JNum (n : number)
| JStr (s : jsstring)
| JArr (elems : list json)
| JObj (fields : list (jsstring * json)).

(** Property read [o[k]]; [None] is [undefined]. *)
Fixpoint assoc {A} (k : jsstring) (fields : list (jsstring * A)) : option A :=
  match fields with
  | [] => None
  | (k', v) :: r => if decide (k' = k) then Some v else assoc k r
  end.

(** Property write [o[k] = v]: an existing property keeps its place. *)
Fixpoint obj_set {A} (k : jsstring) (v : A) (fields : list (jsstring * A))
  : list (jsstring * A) :=
  match fields with
  | [] => [(k, v)]
  | (k', v') :: r =>
      if decide (k' = k) then (k, v) :: r else (k', v') :: obj_set k v r
  end.

Definition keys {A} (fields : list (jsstring * A)) : list jsstring :=
  map fst fields.

(** *** Printing *)

Definition hex_digit (n : N) : N :=
  if n <? 10 then 48 + n else 87 + n.

(** [QuoteJSONString] on a code unit that is no surrogate. *)
Definition escape_char (c : N) : jsstring :=
  if c =? 34 then [92; 34]
  else if c =? 92 then [92; 92]
  else if c =? 8 then [92; 98]
  else if c =? 9 then [92; 116]
  else if c =? 10 then [92; 110]
  else if c =? 12 then [92; 102]
  else if c =? 13 then [92; 114]
  else if c <? 32 then [92; 117; 48; 48; hex_digit (c / 16); hex_digit (c mod 16)]
  else [c].

(** The two halves of a surrogate pair. *)
Definition is_leading_surrogate (c : N) : bool := (55296 <=? c) && (c <=? 56319).

Definition is_trailing_surrogate (c : N) : bool := (56320 <=? c) && (c <=? 57343).

(** [UnicodeEscape]: a backslash, [u] and four hexadecimal digits. *)
Definition unicode_escape (c : N) : jsstring :=
  [92; 117; hex_digit (c / 4096); hex_digit (c / 256 mod 16);
   hex_digit (c / 16 mod 16); hex_digit (c mod 16)].

(** [QuoteJSONString] without its quotes: a surrogate pair is written
    as it is, a surrogate on its own as an escape, every other code
    unit by [escape_char]. *)
Fixpoint quote_chars (s : jsstring) : jsstring :=
  match s with
  | [] => []
  | c :: r =>
      if is_leading_surrogate c then
        match r with
        | d :: r' =>
            if is_trailing_surrogate d then c :: d :: quote_chars r'
            else unicode_escape c ++ quote_chars r
        | [] => unicode_escape c
        end
      else if is_trailing_surrogate c then unicode_escape c ++ quote_chars r
      else escape_char c ++ quote_chars r
  end.

Definition print_string (s : jsstring) : jsstring :=
  34 :: quote_chars s ++ [34].

(** A finite number is printed as its mantissa, followed by its
    exponent when that is not zero; the language prints the shortest
    decimal that reads back as the same number.  Both are JSON numbers
    that [JSON.parse] reads back as that number, and nothing below looks
    at the text of a finite number. *)
Definition print_decimal (n : number) : jsstring :=
  decimal (mantissa n) ++
  (if (exponent n =? 0)%Z then [] else 101 :: decimal (exponent n)).

(** [JSON.stringify] writes an infinity as [null]. *)
Definition print_number (n : number) : jsstring :=
  if overflows n then lit "null" else print_decimal n.

(** The items of an array or object, separated by commas. *)
Fixpoint commas (items : list jsstring) : jsstring :=
  match items with
  | [] => []
  | [x] => x
  | x :: r => x ++ 44 :: commas r
  end.

(** [JSON.stringify(v)] for a value without cycles and without
    [undefined] or functions. *)
Fixpoint stringify (v : json) : jsstring :=
  match v with
  | JNull => lit "null"
  | JBool true => lit "true"
  | JBool false => lit "false"
  | JNum n => print_number n
  | JStr s => print_string s
  | JArr elems => 91 :: commas (map stringify elems) ++ [93]
  | JObj fields =>
      123 :: commas (map (fun kv => print_string (fst kv) ++ 58 :: stringify (snd kv)) fields)
          ++ [125]
  end.

(** *** Parsing *)

(** JSON white space: space, tab, line feed, carriage return. *)
Definition is_json_ws (c : N) : bool :=
  (c =? 32) || (c =? 9) || (c =? 10) || (c =? 13).

Fixpoint skip_ws (s : jsstring) : jsstring :=
  match s with
  | c :: r => if is_json_ws c then skip_ws r else s
  | [] => []
  end.

(** [s] starts with the code unit [c]; what follows it. *)
Definition starts (c : N) (s : jsstring) : option jsstring :=
  match s with
  | c' :: r => if c' =? c then Some r else None
  | [] => None
  end.

(** [s] starts with the literal [w]; what follows it. *)
Fixpoint expect (w s : jsstring) : option jsstring :=
  match w, s with
  | [], _ => Some s
  | a :: w', b :: s' => if a =? b then expect w' s' else None
  | _ :: _, [] => None
  end.

Definition hex_val (c : N) : option N :=
  if (48 <=? c) && (c <=? 57) then Some (c - 48)
  else if (97 <=? c) && (c <=? 102) then Some (c - 87)
  else if (65 <=? c) && (c <=? 70) then Some (c - 55)
  else None.

Definition hex4 (h1 h2 h3 h4 : N) : option N :=
  a ← hex_val h1; b ← hex_val h2; c ← hex_val h3; d ← hex_val h4;
  Some (((a * 16 + b) * 16 + c) * 16 + d).

(** The character a one-letter escape stands for. *)
Definition unescape (e : N) : option N :=
  if e =? 34 then Some 34
  else if e =? 92 then Some 92
  else if e =? 47 then Some 47
  else if e =? 98 then Some 8
  else if e =? 102 then Some 12
  else if e =? 110 then Some 10
  else if e =? 114 then Some 13
  else if e =? 116 then Some 9
  else None.

Definition cons_fst {A B} (a : A) (r : option (list A * B)) : option (list A * B) :=
  match r with Some (l, b) => Some (a :: l, b) | None => None end.

(** The characters of a string literal after its opening quote, up to
    and including the closing quote. *)
Fixpoint parse_chars (s : jsstring) : option (jsstring * jsstring) :=
  match s with
  | [] => None
  | c :: r =>
      if c =? 34 then Some ([], r)
      else if c =? 92 then
        match r with
        | [] => None
        | e :: r1 =>
            if e =? 117 then
              match r1 with
              | h1 :: h2 :: h3 :: h4 :: r2 =>
                  match hex4 h1 h2 h3 h4 with
                  | Some u => cons_fst u (parse_chars r2)
                  | None => None
                  end
              | _ => None
              end
            else
              match unescape e with
              | Some u => cons_fst u (parse_chars r1)
              | None => None
              end
        end
      else if c <? 32 then None
      else cons_fst c (parse_chars r)
  end.

Definition uint_length (d : uint) : Z := Z.of_nat (Decimal.nb_digits d).

Definition is_nil (d : uint) : bool :=
  match d with Nil => true | _ => false end.

(** A zero followed by further digits. *)
Definition leading_zero (d : uint) : bool :=
  match d with
  | D0 Nil => false
  | D0 _ => true
  | _ => false
  end.

Definition signed (neg : bool) (z : Z) : Z := if neg then (- z)%Z else z.

(** An optional minus sign. *)
Definition strip_minus (s : jsstring) : bool * jsstring :=
  match s with
  | c :: r => if c =? 45 then (true, r) else (false, s)
  | [] => (false, s)
  end.

(** An optional minus or plus sign. *)
Definition strip_sign (s : jsstring) : bool * jsstring :=
  match s with
  | c :: r =>
      if c =? 45 then (true, r)
      else if c =? 43 then (false, r)
      else (false, s)
  | [] => (false, s)
  end.

(** [frac?]: a point must be followed by a digit. *)
Definition parse_fraction (s : jsstring) : option (option uint * jsstring) :=
  match starts 46 s with
  | Some r =>
      let '(f, s') := read_digits r in
      if is_nil f then None else Some (Some f, s')
  | None => Some (None, s)
  end.

(** [exp?]: an [e] or [E] must be followed by a signed integer. *)
Definition parse_exponent (s : jsstring) : option (Z * jsstring) :=
  match s with
  | c :: r =>
      if (c =? 101) || (c =? 69) then
        let '(eneg, r1) := strip_sign r in
        let '(ds, s') := read_digits r1 in
        if is_nil ds then None else Some (signed eneg (Z.of_uint ds), s')
      else Some (0%Z, s)
  | [] => Some (0%Z, s)
  end.

(** [-? int frac? exp?] with [int] free of leading zeros.  The number
    read is the binary64 number nearest to the decimal of the literal,
    which the decimal stands for: an infinity for a literal that
    [overflows], such as [1e400]. *)
Definition parse_number (s : jsstring) : option (number * jsstring) :=
  let '(neg, s1) := strip_minus s in
  let '(int, s2) := read_digits s1 in
  if is_nil int || leading_zero int then None
  else
    match parse_fraction s2 with
    | None => None
    | Some (f, s3) =>
        match parse_exponent s3 with
        | None => None
        | Some (e, s4) =>
            let digits := match f with Some f => Decimal.app int f | None => int end in
            let shift := match f with Some f => uint_length f | None => 0%Z end in
            Some (Number (signed neg (Z.of_uint digits)) (e - shift), s4)
        end
    end.

(** The elements of an array after the first, up to the closing
    bracket.  [n] bounds their number. *)
Fixpoint parse_elements (pv : jsstring -> option (json * jsstring))
    (n : nat) (s : jsstring) : option (list json * jsstring) :=
  match starts 93 (skip_ws s) with
  | Some r => Some ([], r)
  | None =>
      match starts 44 (skip_ws s), n with
      | Some r, S n =>
          match pv r with
          | Some (v, r') => cons_fst v (parse_elements pv n r')
          | None => None
          end
      | _, _ => None
      end
  end.

(** One [string : value] member. *)
Definition parse_member (pv : jsstring -> option (json * jsstring))
    (s : jsstring) : option (jsstring * json * jsstring) :=
  r ← starts 34 (skip_ws s);
  '(k, r1) ← parse_chars r;
  r2 ← starts 58 (skip_ws r1);
  '(v, r3) ← pv r2;
  Some (k, v, r3).

(** The members of an object after the first, up to the closing brace;
    [acc] is the object built so far, where a repeated name overwrites
    the earlier value. *)
Fixpoint parse_members (pv : jsstring -> option (json * jsstring))
    (n : nat) (acc : list (jsstring * json)) (s : jsstring)
  : option (list (jsstring * json) * jsstring) :=
  match starts 125 (skip_ws s) with
  | Some r => Some (acc, r)
  | None =>
      match starts 44 (skip_ws s), n with
      | Some r, S n =>
          match parse_member pv r with
          | Some (k, v, r') => parse_members pv n (obj_set k v acc) r'
          | None => None
          end
      | _, _ => None
      end
  end.

(** One JSON value, possibly preceded by white space.  [fuel] bounds
    the nesting depth. *)
Fixpoint parse_value (fuel : nat) (s : jsstring) : option (json * jsstring) :=
  match fuel with
  | O => None
  | S fuel =>
      match skip_ws s with
      | [] => None
      | c :: r =>
          if c =? 110 then r' ← expect (lit "ull") r; Some (JNull, r')
          else if c =? 116 then r' ← expect (lit "rue") r; Some (JBool true, r')
          else if c =? 102 then r' ← expect (lit "alse") r; Some (JBool false, r')
          else if c =? 34 then
            '(str, r') ← parse_chars r; Some (JStr str, r')
          else if c =? 91 then
            match starts 93 (skip_ws r) with
            | Some r' => Some (JArr [], r')
            | None =>
                '(v, r') ← parse_value fuel r;
                '(vs, r'') ← parse_elements (parse_value fuel) (length r') r';
                Some (JArr (v :: vs), r'')
            end
          else if c =? 123 then
            match starts 125 (skip_ws r) with
            | Some r' => Some (JObj [], r')
            | None =>
                '(k, v, r') ← parse_member (parse_value fuel) r;
                '(fs, r'') ← parse_members (parse_value fuel) (length r') [(k, v)] r';
                Some (JObj fs, r'')
            end
          else
            '(n, r') ← parse_number (c :: r); Some (JNum n, r')
      end
  end.

(** [JSON.parse(text)]; [None] is a thrown [SyntaxError].  Every level
    of nesting consumes a character, so the length of the text bounds
    the depth. *)
Definition parse (text : jsstring) : option json :=
  match parse_value (S (length text)) text with
  | Some (v, rest) =>
      match skip_ws rest with
      | [] => Some v
      | _ => None
      end
  | None => None
  end.

(** *** Response schemas *)

(** The schema objects of the request configuration ([Type.OBJECT],
    [Type.ARRAY], [Type.STRING], [Type.NUMBER]); descriptions are
    omitted. *)
Inductive Schema :=
| SString
| SNumber
| SArray (items : Schema)
| SObject (properties : list (jsstring * Schema)) (required : list jsstring).

Definition has_key {A} (k : jsstring) (fields : list (jsstring * A)) : bool :=
  match assoc k fields with Some _ => true | None => false end.

(** A value the service may emit under a schema: an object carries
    declared properties only, each matching its own schema, and every
    required one. *)
Fixpoint conforms (s : Schema) (v : json) {struct s} : bool :=
  match s, v with
  | SString, JStr _ => true
  | SNumber, JNum _ => true
  | SArray items, JArr elems => forallb (conforms items) elems
  | SObject properties required, JObj fields =>
      forallb (fun k => has_key k fields) required &&
      forallb (fun kv : jsstring * json =>
                 (fix prop (ps : list (jsstring * Schema)) : bool :=
                    match ps with
                    | [] => false
                    | (k, sk) :: ps' =>
                        if decide (k = fst kv) then conforms sk (snd kv) else prop ps'
                    end) properties) fields
  | _, _ => false
  end.

End Json.
Import Json.

(* ===================================================================== *)
(** ** Exceptions *)
(* ===================================================================== *)

Module Exceptions.

(** What the modelled code can throw: the rejection of the service
    call, the [SyntaxError] of [JSON.parse], and the [TypeError] of a
    property access on [undefined] or [null], of a call of something
    that is no function, or of [JSON.stringify] on a cycle. *)
Inductive Error :=
| ServiceError (message : jsstring)
| SyntaxError
| TypeError.

Inductive Result (A : Type) :=
| Ok (a : A)
| Throw (e : Error).
#[global] Arguments Ok {A} a.
#[global] Arguments Throw {A} e.

End Exceptions.
Import Exceptions.

(* ===================================================================== *)
(** ** Domain types *)
(* ===================================================================== *)

Module Types.

(** Modelled from the spec: [src/types.ts] is imported by every source
    file but is not among them.  [User] and [UserMetrics] follow the
    data model of the spec; the empty selection [''] the coach form
    starts from is a further member of the two enumerations. *)
Record User := { name : jsstring; email : jsstring }.

Inductive Gender := GenderUnset | Male | Female | Other.

Inductive ActivityLevel :=
| ActivityUnset | Sedentary | Light | Moderate | Active | VeryActive.

Record UserMetrics := {
  height : jsstring;
  weight : jsstring;
  age : jsstring;
  gender : Gender;
  activityLevel : ActivityLevel
}.

(** The string each member is at run time. *)
Definition gender_string (g : Gender) : jsstring :=
  match g with
  | GenderUnset => []
  | Male => lit "male"
  | Female => lit "female"
  | Other => lit "other"
  end.

Definition activity_string (a : ActivityLevel) : jsstring :=
  match a with
  | ActivityUnset => []
  | Sedentary => lit "sedentary"
  | Light => lit "light"
  | Moderate => lit "moderate"
  | Active => lit "active"
  | VeryActive => lit "very_active"
  end.

Definition user_json (u : User) : json :=
  JObj [(lit "name", JStr (name u)); (lit "email", JStr (email u))].

Definition metrics_json (m : UserMetrics) : json :=
  JObj [(lit "height", JStr (height m));
        (lit "weight", JStr (weight m));
        (lit "age", JStr (age m));
        (lit "gender", JStr (gender_string (gender m)));
        (lit "activityLevel", JStr (activity_string (activityLevel m)))].

End Types.
Import Types.

(* ===================================================================== *)
(** ** [src/services/apiService.ts] *)
(* ===================================================================== *)

Module ApiService.

(** *** The object heap *)

Definition loc := nat.

(** A run-time value: a primitive, or a reference to an array or an
    object. *)
Inductive val :=
| VNull
| VBool (b : bool)
| VNum (n : number)
| VStr (s : jsstring)
| VRef (l : loc).

Inductive obj :=
| OArr (elems : list val)
| OObj (fields : list (jsstring * val)).

(** [JSON.parse] builds its result out of fresh objects. *)
Fixpoint alloc_json (t : json) (h : list obj) : val * list obj :=
  match t with
  | JNull => (VNull, h)
  | JBool b => (VBool b, h)
  | JNum n => (VNum n, h)
  | JStr s => (VStr s, h)
  | JArr elems =>
      let '(vs, h') :=
        (fix go (es : list json) (h : list obj) : list val * list obj :=
           match es with
           | [] => ([], h)
           | e :: es' =>
               let '(v, h1) := alloc_json e h in
               let '(vs, h2) := go es' h1 in
               (v :: vs, h2)
           end) elems h in
      (VRef (length h'), h' ++ [OArr vs])
  | JObj fields =>
      let '(fs, h') :=
        (fix go (es : list (jsstring * json)) (h : list obj)
           : list (jsstring * val) * list obj :=
           match es with
           | [] => ([], h)
           | (k, e) :: es' =>
               let '(v, h1) := alloc_json e h in
               let '(fs, h2) := go es' h1 in
               ((k, v) :: fs, h2)
           end) fields h in
      (VRef (length h'), h' ++ [OObj fs])
  end.

(** The JSON tree [JSON.stringify] walks from a value.  [fuel] bounds
    the number of references followed along one path; a path longer
    than the heap revisits an object. *)
Fixpoint read_val (fuel : nat) (h : list obj) (v : val) : option json :=
  match v with
  | VNull => Some JNull
  | VBool b => Some (JBool b)
  | VNum n => Some (JNum n)
  | VStr s => Some (JStr s)
  | VRef l =>
      match fuel with
      | O => None
      | S fuel =>
          match h !! l with
          | Some (OArr vs) => JArr <$> mapM (read_val fuel h) vs
          | Some (OObj fs) =>
              JObj <$> mapM (fun kv => pair (fst kv) <$> read_val fuel h (snd kv)) fs
          | None => None
          end
      end
  end.

Definition read (h : list obj) (v : val) : option json :=
  read_val (S (length h)) h v.

(** *** History records and the mock database *)

Record MealHistoryItem := {
  meal_id : jsstring;
  meal_timestamp : Z;
  nutritionalInfo : val;
  imageDataUrl : jsstring
}.

Record PlanHistoryItem := {
  plan_id : jsstring;
  plan_timestamp : Z;
  plan : val;
  metrics : UserMetrics;
  goal : jsstring
}.

(** [mockDb], its two arrays and the item objects are created in this
    module and never handed out, so they are held by value; what an
    item refers to ([analysis], [plan]) is shared with the caller and
    lives in the heap.  [metrics] is the state object of the coach
    form, which the form replaces and never updates in place; it is
    held by value too. *)
Record HistoryData := {
  meals : list MealHistoryItem;
  plans : list PlanHistoryItem
}.

(** *** Requests to the service *)

Inductive Contents :=
| Parts (inlineData_data inlineData_mimeType text : jsstring)
| Prompt (prompt : jsstring).

Record Request := {
  model : jsstring;
  contents : Contents;
  responseMimeType : jsstring;
  responseSchema : Schema
}.

(** The outcome of [await ai.models.generateContent(..)]: the promise
    rejects, or fulfils with a response whose [text] may be
    [undefined]. *)
Inductive Response :=
| Rejected (message : jsstring)
| Fulfilled (text : option jsstring).

Definition named_amount : Schema :=
  SObject [(lit "name", SString); (lit "amount", SString)]
          [lit "name"; lit "amount"].

Definition nutritionalInfoSchema : Schema :=
  SObject
    [(lit "foodItems", SArray SString);
     (lit "macros",
       SObject [(lit "calories", SNumber); (lit "protein", SNumber);
                (lit "carbohydrates", SNumber); (lit "fat", SNumber)]
               [lit "calories"; lit "protein"; lit "carbohydrates"; lit "fat"]);
     (lit "vitamins", SArray named_amount);
     (lit "minerals", SArray named_amount);
     (lit "summary", SString)]
    [lit "foodItems"; lit "macros"; lit "vitamins"; lit "minerals"; lit "summary"].

Definition mealObjectSchema : Schema :=
  SObject
    [(lit "breakfast", SString); (lit "lunch", SString);
     (lit "dinner", SString); (lit "snacks", SString)]
    [lit "breakfast"; lit "lunch"; lit "dinner"].

Definition weekdays : list jsstring :=
  [lit "Monday"; lit "Tuesday"; lit "Wednesday"; lit "Thursday";
   lit "Friday"; lit "Saturday"; lit "Sunday"].

Definition personalizedPlanSchema : Schema :=
  SObject
    [(lit "summary", SString);
     (lit "mealPlan",
       SObject (map (fun d => (d, mealObjectSchema)) weekdays) weekdays);
     (lit "workoutPlan",
       SObject (map (fun d => (d, SString)) weekdays) weekdays)]
    [lit "summary"; lit "mealPlan"; lit "workoutPlan"].

(** *** State, environment and the monad of the operations *)

Record State := {
  heap : list obj;
  mockDb : HistoryData;
  clock_reads : nat;          (* calls of [Date.now()] so far *)
  requests : list Request     (* requests sent so far, latest first *)
}.

Record Env := {
  clock : nat -> Z;           (* what the i-th [Date.now()] returns *)
  service : nat -> Response   (* how the i-th request is answered *)
}.

Definition M (A : Type) : Type := State -> Result A * State.

Definition ret {A} (a : A) : M A := fun σ => (Ok a, σ).

Definition throw {A} (e : Error) : M A := fun σ => (Throw e, σ).

Definition bind {A B} (m : M A) (k : A -> M B) : M B :=
  fun σ =>
    match m σ with
    | (Ok a, σ') => k a σ'
    | (Throw e, σ') => (Throw e, σ')
    end.

Notation "x <- m ;; k" := (bind m (fun x => k))
  (at level 100, m at next level, right associativity).
Notation "m ;;; k" := (bind m (fun _ => k))
  (at level 100, right associativity).

Definition with_heap (h : list obj) (σ : State) : State :=
  {| heap := h; mockDb := mockDb σ;
     clock_reads := clock_reads σ; requests := requests σ |}.

Definition with_mockDb (db : HistoryData) (σ : State) : State :=
  {| heap := heap σ; mockDb := db;
     clock_reads := clock_reads σ; requests := requests σ |}.

(** [const sleep = (ms) => new Promise(..)]: a delay; time itself is
    not part of the state. *)
Definition sleep (ms : N) : M unit := ret tt.

Definition initial : State :=
  {| heap := []; mockDb := {| meals := []; plans := [] |};
     clock_reads := O; requests := [] |}.

Section Operations.

Variable env : Env.

(** [Date.now()] *)
Definition Date_now : M Z := fun σ =>
  (Ok (clock env (clock_reads σ)),
   {| heap := heap σ; mockDb := mockDb σ;
      clock_reads := S (clock_reads σ); requests := requests σ |}).

(** [await ai.models.generateContent(req)], then [response.text]. *)
Definition generateContent (req : Request) : M (option jsstring) := fun σ =>
  let σ' := {| heap := heap σ; mockDb := mockDb σ;
               clock_reads := clock_reads σ;
               requests := req :: requests σ |} in
  match service env (length (requests σ)) with
  | Rejected message => (Throw (ServiceError message), σ')
  | Fulfilled text => (Ok text, σ')
  end.

(** [text.trim()] on a possibly undefined [text]. *)
Definition text_trim (text : option jsstring) : M jsstring :=
  match text with
  | Some s => ret (trim s)
  | None => throw TypeError
  end.

(** [JSON.parse(text)] *)
Definition JSON_parse (text : jsstring) : M val := fun σ =>
  match parse text with
  | Some t =>
      let '(v, h) := alloc_json t (heap σ) in (Ok v, with_heap h σ)
  | None => (Throw SyntaxError, σ)
  end.

(** [mockDb.meals.unshift(item)] *)
Definition unshift_meal (item : MealHistoryItem) : M unit := fun σ =>
  (Ok tt, with_mockDb {| meals := item :: meals (mockDb σ);
                         plans := plans (mockDb σ) |} σ).

(** [mockDb.plans.unshift(item)] *)
Definition unshift_plan (item : PlanHistoryItem) : M unit := fun σ =>
  (Ok tt, with_mockDb {| meals := meals (mockDb σ);
                         plans := item :: plans (mockDb σ) |} σ).

Definition analysis_instruction : jsstring :=
  lit "Analyze the provided image of a meal. Identify all food items, and provide a detailed nutritional breakdown including macronutrients (calories, protein, carbohydrates, fat), and a list of key vitamins and minerals with their amounts. Provide a brief, encouraging summary. Return the analysis in JSON format.".

Definition analyzeMealImage (base64Image mimeType : jsstring) : M val :=
  text <- generateContent
            {| model := lit "gemini-2.5-flash";
               contents := Parts base64Image mimeType analysis_instruction;
               responseMimeType := lit "application/json";
               responseSchema := nutritionalInfoSchema |} ;;
  trimmed <- text_trim text ;;
  analysis <- JSON_parse trimmed ;;
  id_now <- Date_now ;;
  timestamp_now <- Date_now ;;
  unshift_meal
    {| meal_id := lit "meal-" ++ decimal id_now;
       meal_timestamp := timestamp_now;
       nutritionalInfo := analysis;
       imageDataUrl := lit "data:" ++ mimeType ++ lit ";base64," ++ base64Image |} ;;;
  ret analysis.

Definition nl : jsstring := [10].
Definition quote : jsstring := [34].

Definition plan_prompt (metrics : UserMetrics) (goal : jsstring) : jsstring :=
  nl ++ lit "You are an expert AI Nutritionist and Personal Trainer." ++ nl ++
  lit "Based on the following user details, create a personalized 7-day meal and workout plan." ++ nl ++
  nl ++
  lit "User Metrics:" ++ nl ++
  lit "- Age: " ++ age metrics ++ nl ++
  lit "- Height: " ++ height metrics ++ nl ++
  lit "- Weight: " ++ weight metrics ++ nl ++
  lit "- Gender: " ++ gender_string (gender metrics) ++ nl ++
  lit "- Activity Level: "
    ++ replace_underscores (activity_string (activityLevel metrics)) ++ nl ++
  nl ++
  lit "User's Goal: " ++ quote ++ goal ++ quote ++ nl ++
  nl ++
  lit "Generate a detailed 7-day meal plan (breakfast, lunch, dinner, and optional snacks) and a 7-day workout plan tailored to their goal. The plan should be encouraging, realistic, and sustainable. For example, if the goal is to 'lose weight', suggest lower-calorie meals and workouts with more cardio. If the goal is to 'gain muscle', suggest higher-protein meals and a strength-focused workout routine." ++ nl ++
  nl ++
  lit "Provide the response as a JSON object that adheres to the provided schema." ++ nl.

Definition generatePersonalizedPlan (metrics : UserMetrics) (goal : jsstring)
  : M val :=
  text <- generateContent
            {| model := lit "gemini-2.5-flash";
               contents := Prompt (plan_prompt metrics goal);
               responseMimeType := lit "application/json";
               responseSchema := personalizedPlanSchema |} ;;
  trimmed <- text_trim text ;;
  plan <- JSON_parse trimmed ;;
  id_now <- Date_now ;;
  timestamp_now <- Date_now ;;
  unshift_plan
    {| plan_id := lit "plan-" ++ decimal id_now;
       plan_timestamp := timestamp_now;
       plan := plan;
       metrics := metrics;
       goal := goal |} ;;;
  ret plan.

(** The tree [JSON.stringify(mockDb)] walks. *)
Definition meal_json (h : list obj) (m : MealHistoryItem) : option json :=
  info ← read h (nutritionalInfo m);
  Some (JObj [(lit "id", JStr (meal_id m));
              (lit "timestamp", JNum (number_of_Z (meal_timestamp m)));
              (lit "nutritionalInfo", info);
              (lit "imageDataUrl", JStr (imageDataUrl m))]).

Definition plan_json (h : list obj) (p : PlanHistoryItem) : option json :=
  pl ← read h (plan p);
  Some (JObj [(lit "id", JStr (plan_id p));
              (lit "timestamp", JNum (number_of_Z (plan_timestamp p)));
              (lit "plan", pl);
              (lit "metrics", metrics_json (metrics p));
              (lit "goal", JStr (goal p))]).

Definition history_json (h : list obj) (db : HistoryData) : option json :=
  ms ← mapM (meal_json h) (meals db);
  ps ← mapM (plan_json h) (plans db);
  Some (JObj [(lit "meals", JArr ms); (lit "plans", JArr ps)]).

(** [JSON.stringify(mockDb)]; a cyclic structure is a [TypeError]. *)
Definition JSON_stringify_mockDb : M jsstring := fun σ =>
  match history_json (heap σ) (mockDb σ) with
  | Some t => (Ok (stringify t), σ)
  | None => (Throw TypeError, σ)
  end.

Definition getHistory : M val :=
  sleep 500 ;;;
  text <- JSON_stringify_mockDb ;;
  JSON_parse text.

Definition clearHistory : M unit :=
  sleep 500 ;;;
  (fun σ => (Ok tt, with_mockDb {| meals := []; plans := [] |} σ)).

End Operations.

End ApiService.
Import ApiService.

(* ===================================================================== *)
(** ** Browser storage *)
(* ===================================================================== *)

(** [localStorage]: string keys to string values. *)
Abbreviation Storage := (gmap (list N) (list N)).

(* ===================================================================== *)
(** ** [src/components/Auth.tsx] *)
(* ===================================================================== *)

Module Auth.

(** The fields of the form when the timer of [handleSubmit] fires. *)
Record Form := {
  isRegister : bool;
  name : jsstring;
  email : jsstring;
  password : jsstring
}.

(** How the timer callback of [handleSubmit] ends. *)
Inductive Outcome :=
| ShowError (message : jsstring)   (* setError(message); setIsLoading(false) *)
| OnLogin (user : json)            (* onLogin(user) *)
| Uncaught (e : Error).            (* an exception leaves the callback *)

Definition getUserDb (ls : Storage) : Result json :=
  match ls !! lit "user_db" with
  | Some db =>
      if falsy db then Ok (JArr [])
      else match parse db with
           | Some v => Ok v
           | None => Throw SyntaxError
           end
  | None => Ok (JArr [])
  end.

Definition setUserDb (db : json) (ls : Storage) : Storage :=
  <[lit "user_db" := stringify db]> ls.

(** [user.email === email] for a non-empty string [email]; reading a
    property of [null] throws, of any other primitive gives
    [undefined]. *)
Definition email_is (email : jsstring) (user : json) : Result bool :=
  match user with
  | JNull => Throw TypeError
  | JObj fields =>
      match assoc (lit "email") fields with
      | Some (JStr e) => Ok (bool_decide (e = email))
      | _ => Ok false
      end
  | _ => Ok false
  end.

(** [users.some(user => user.email === email)] *)
Fixpoint some_email (email : jsstring) (users : list json) : Result bool :=
  match users with
  | [] => Ok false
  | u :: rest =>
      match email_is email u with
      | Ok true => Ok true
      | Ok false => some_email email rest
      | Throw e => Throw e
      end
  end.

(** [users.find(user => user.email === email)]; [None] is
    [undefined]. *)
Fixpoint find_email (email : jsstring) (users : list json) : Result (option json) :=
  match users with
  | [] => Ok None
  | u :: rest =>
      match email_is email u with
      | Ok true => Ok (Some u)
      | Ok false => find_email email rest
      | Throw e => Throw e
      end
  end.

(** The array methods exist on arrays only. *)
Definition as_array (db : json) : Result (list json) :=
  match db with
  | JArr users => Ok users
  | _ => Throw TypeError
  end.

Definition register (f : Form) (ls : Storage) : Outcome * Storage :=
  if falsy (name f) || falsy (email f) || falsy (password f)
  then (ShowError (lit "Please fill all fields."), ls)
  else
    match getUserDb ls with
    | Throw e => (Uncaught e, ls)
    | Ok db =>
        match as_array db with
        | Throw e => (Uncaught e, ls)
        | Ok users =>
            match some_email (email f) users with
            | Throw e => (Uncaught e, ls)
            | Ok true =>
                (ShowError (lit "An account with this email already exists."), ls)
            | Ok false =>
                let newUser :=
                  user_json {| Types.name := name f; Types.email := email f |} in
                (OnLogin newUser, setUserDb (JArr (users ++ [newUser])) ls)
            end
        end
    end.

Definition login (f : Form) (ls : Storage) : Outcome * Storage :=
  if falsy (email f) || falsy (password f)
  then (ShowError (lit "Please enter email and password."), ls)
  else
    match getUserDb ls with
    | Throw e => (Uncaught e, ls)
    | Ok db =>
        match as_array db with
        | Throw e => (Uncaught e, ls)
        | Ok users =>
            match find_email (email f) users with
            | Throw e => (Uncaught e, ls)
            | Ok (Some user) => (OnLogin user, ls)
            | Ok None =>
                (ShowError (lit "No account found with that email. Please register."), ls)
            end
        end
    end.

(** The timer callback of [handleSubmit]. *)
Definition handleSubmit (f : Form) (ls : Storage) : Outcome * Storage :=
  if isRegister f then register f ls else login f ls.

(** The timer callback of [handleGoogleLogin]: a fixed demo user. *)
Definition handleGoogleLogin : Outcome :=
  OnLogin (user_json {| Types.name := lit "Demo User";
                        Types.email := lit "demo@google.com" |}).

End Auth.

(* ===================================================================== *)
(** ** [src/App.tsx] *)
(* ===================================================================== *)

Module App.

Inductive Page := Analyzer | Coach | History.

(** The component state; [user] is [null] while nobody is logged in. *)
Record AppState := {
  user : json;
  currentPage : Page
}.

Definition initialApp : AppState :=
  {| user := JNull; currentPage := Analyzer |}.

Definition setUser (u : json) (app : AppState) : AppState :=
  {| user := u; currentPage := currentPage app |}.

(** The effect run once at start: read, parse and adopt the stored
    user; on an exception drop the stored record. *)
Definition restoreSession (app : AppState) (ls : Storage) : AppState * Storage :=
  match ls !! lit "user" with
  | Some storedUser =>
      if falsy storedUser then (app, ls)
      else match parse storedUser with
           | Some u => (setUser u app, ls)
           | None => (app, delete (lit "user") ls)
           end
  | None => (app, ls)
  end.

Definition handleLogin (newUser : json) (app : AppState) (ls : Storage)
  : AppState * Storage :=
  (setUser newUser app, <[lit "user" := stringify newUser]> ls).

Definition handleLogout (app : AppState) (ls : Storage) (σ : State)
  : AppState * Storage * State :=
  ({| user := JNull; currentPage := Analyzer |},
   delete (lit "user") ls,
   snd (clearHistory σ)).

(** [!user], which decides that the login screen is rendered. *)
Definition loggedOut (app : AppState) : bool :=
  match user app with
  | JNull => true
  | JBool b => negb b
  | JNum n => is_zero n
  | JStr s => falsy s
  | JArr _ | JObj _ => false
  end.

(** The login screen with [onLogin = handleLogin]: one submission. *)
Definition submit (f : Auth.Form) (app : AppState) (ls : Storage)
  : Auth.Outcome * AppState * Storage :=
  match Auth.handleSubmit f ls with
  | (Auth.OnLogin u, ls') =>
      let '(app', ls'') := handleLogin u app ls' in (Auth.OnLogin u, app', ls'')
  | (o, ls') => (o, app, ls')
  end.

End App.

(* ===================================================================== *)
(** ** [src/components/PersonalCoach.tsx] *)
(* ===================================================================== *)

Module PersonalCoach.

(** [parseInt(s, 10)]; [None] is [NaN].  The exact integer stands for
    its nearest number: rounding keeps its order with 1 and 120. *)
Definition parseInt (s : jsstring) : option Z :=
  let '(neg, s1) := strip_sign (trim_start s) in
  let '(ds, _) := read_digits s1 in
  if is_nil ds then None else Some (signed neg (Z.of_uint ds)).

(** The result of [parseFloat]: the sign and the decimal
    [digits * 10 ^ exp] of the longest literal prefix. *)
Inductive parsed :=
| NaN
| Infinity (neg : bool)
| Dec (neg : bool) (digits : N) (exp : Z).

(** An exponent part, when one follows; otherwise the literal ends
    before it. *)
Definition float_exponent (s : jsstring) : Z :=
  match s with
  | c :: r =>
      if (c =? 101) || (c =? 69) then
        let '(eneg, r1) := strip_sign r in
        let '(ds, _) := read_digits r1 in
        if is_nil ds then 0%Z else signed eneg (Z.of_uint ds)
      else 0%Z
  | [] => 0%Z
  end.

Definition parseFloat (s : jsstring) : parsed :=
  let '(neg, s1) := strip_sign (trim_start s) in
  match expect (lit "Infinity") s1 with
  | Some _ => Infinity neg
  | None =>
      let '(int, s2) := read_digits s1 in
      let '(frac, s3) :=
        match starts 46 s2 with
        | Some r => read_digits r
        | None => (Nil, s2)
        end in
      if is_nil int && is_nil frac then NaN
      else Dec neg (N.of_uint (Decimal.app int frac))
               (float_exponent s3 - uint_length frac)
  end.

(** [!(isNaN(x) || x <= 0)].  A decimal at or below 2^-1075 is the
    number 0. *)
Definition positive_number (x : parsed) : bool :=
  match x with
  | NaN => false
  | Infinity neg => negb neg
  | Dec neg digits exp =>
      negb neg &&
      (if (0 <=? exp)%Z then 0 <? digits
       else 10 ^ Z.to_N (- exp) <? digits * 2 ^ 1075)
  end.

(** [newErrors]: the message under each key, if any. *)
Record Errors := {
  age_error : option jsstring;
  height_error : option jsstring;
  weight_error : option jsstring;
  gender_error : option jsstring;
  activityLevel_error : option jsstring;
  goal_error : option jsstring
}.

Definition no_errors : Errors :=
  {| age_error := None; height_error := None; weight_error := None;
     gender_error := None; activityLevel_error := None; goal_error := None |}.

Definition check_age (a : jsstring) : option jsstring :=
  if falsy a then Some (lit "Age is required.")
  else match parseInt a with
       | None => Some (lit "Please enter a realistic age (1-120).")
       | Some ageNum =>
           if (ageNum <? 1)%Z || (120 <? ageNum)%Z
           then Some (lit "Please enter a realistic age (1-120).")
           else None
       end.

Definition check_height (h : jsstring) : option jsstring :=
  if falsy (trim h) then Some (lit "Height is required.")
  else if negb (positive_number (parseFloat h))
       then Some (lit "Please enter a valid positive number for height.")
       else None.

Definition check_weight (w : jsstring) : option jsstring :=
  if falsy (trim w) then Some (lit "Weight is required.")
  else if negb (positive_number (parseFloat w))
       then Some (lit "Please enter a valid positive number for weight.")
       else None.

Definition check_gender (g : Gender) : option jsstring :=
  if falsy (gender_string g) then Some (lit "Please select your gender.") else None.

Definition check_activityLevel (a : ActivityLevel) : option jsstring :=
  if falsy (activity_string a)
  then Some (lit "Please select your activity level.") else None.

Definition check_goal (g : jsstring) : option jsstring :=
  if falsy (trim g) then Some (lit "Please describe your goal.") else None.

Definition form_errors (metrics : UserMetrics) (goal : jsstring) : Errors :=
  {| age_error := check_age (age metrics);
     height_error := check_height (height metrics);
     weight_error := check_weight (weight metrics);
     gender_error := check_gender (gender metrics);
     activityLevel_error := check_activityLevel (activityLevel metrics);
     goal_error := check_goal (goal) |}.

(** [Object.keys(newErrors).length === 0] *)
Definition is_empty (e : Errors) : bool :=
  match age_error e, height_error e, weight_error e,
        gender_error e, activityLevel_error e, goal_error e with
  | None, None, None, None, None, None => true
  | _, _, _, _, _, _ => false
  end.

(** The component state. *)
Record CoachState := {
  metrics : UserMetrics;
  goal : jsstring;
  plan : option val;
  isLoading : bool;
  apiError : option Error;   (* the error whose message is shown *)
  validationErrors : Errors
}.

(** [validateForm()]: stores the errors, returns whether there are
    none. *)
Definition validateForm (c : CoachState) : bool * CoachState :=
  let newErrors := form_errors (metrics c) (goal c) in
  (is_empty newErrors,
   {| metrics := metrics c; goal := goal c; plan := plan c;
      isLoading := isLoading c; apiError := apiError c;
      validationErrors := newErrors |}).

(** [Object.values(metrics).every(val => val !== '') && goal.trim() !== ''],
    which enables the button. *)
Definition isFormPopulated (c : CoachState) : bool :=
  negb (falsy (height (metrics c))) && negb (falsy (weight (metrics c))) &&
  negb (falsy (age (metrics c))) &&
  negb (falsy (gender_string (gender (metrics c)))) &&
  negb (falsy (activity_string (activityLevel (metrics c)))) &&
  negb (falsy (trim (goal c))).


(** [handleGeneratePlan] up to its [await]: [setApiError(null)], the
    validation and, when it passes, [setIsLoading(true)] and
    [setPlan(null)].  The second component is the call that is then
    awaited, with the metrics and the goal the handler closed over;
    [None] when the handler has returned. *)
Definition startGeneratePlan (c : CoachState)
  : CoachState * option (UserMetrics * jsstring) :=
  let c0 := {| metrics := metrics c; goal := goal c; plan := plan c;
               isLoading := isLoading c; apiError := None;
               validationErrors := validationErrors c |} in
  let '(valid, c1) := validateForm c0 in
  if negb valid then (c1, None)
  else ({| metrics := metrics c1; goal := goal c1; plan := None;
           isLoading := true; apiError := apiError c1;
           validationErrors := validationErrors c1 |},
        Some (metrics c1, goal c1)).

(** The rest of [handleGeneratePlan], run when the awaited call has
    settled: [setPlan(result)] or [setApiError(..)], then
    [setIsLoading(false)].  The setters act on the state of that
    moment, which may have been edited since the click. *)
Definition settleGeneratePlan (res : Result val) (c : CoachState) : CoachState :=
  match res with
  | Ok result =>
      {| metrics := metrics c; goal := goal c; plan := Some result;
         isLoading := false; apiError := apiError c;
         validationErrors := validationErrors c |}
  | Throw err =>
      {| metrics := metrics c; goal := goal c; plan := plan c;
         isLoading := false; apiError := Some err;
         validationErrors := validationErrors c |}
  end.

(** [handleGeneratePlan], from the click to the end of [finally], when
    the awaited call settles and nothing else happens meanwhile.  A
    call that never settles leaves the state [startGeneratePlan]
    gives. *)
Definition handleGeneratePlan (env : Env) (c : CoachState) (σ : State)
  : CoachState * State :=
  match startGeneratePlan c with
  | (c1, None) => (c1, σ)
  | (c1, Some (m, g)) =>
      let '(res, σ') := generatePersonalizedPlan env m g σ in
      (settleGeneratePlan res c1, σ')
  end.

End PersonalCoach.

(* ===================================================================== *)
(** ** Vocabulary of the properties *)
(* ===================================================================== *)

(** Nesting depth of arrays and objects. *)
Fixpoint depth (t : json) : nat :=
  match t with
  | JArr elems => S (foldr (fun e d => Nat.max (depth e) d) O elems)
  | JObj fields => S (foldr (fun kv d => Nat.max (depth (snd kv)) d) O fields)
  | _ => O
  end.

(** Every object names each of its properties once, as the objects of
    the language do. *)
Inductive wf_json : json -> Prop :=
| wf_null : wf_json JNull
| wf_bool b : wf_json (JBool b)
| wf_num n : wf_json (JNum n)
| wf_str s : wf_json (JStr s)
| wf_arr elems : Forall wf_json elems -> wf_json (JArr elems)
| wf_obj fields :
    NoDup (keys fields) -> Forall (fun kv => wf_json (snd kv)) fields ->
    wf_json (JObj fields).

Definition obj_wf (o : obj) : Prop :=
  match o with
  | OArr _ => True
  | OObj fields => NoDup (keys fields)
  end.

Definition heap_wf (h : list obj) : Prop := Forall obj_wf h.

(** [reach h v l]: the object at [l] is [v] itself or is referenced,
    directly or not, from [v]. *)
Inductive reach (h : list obj) : val -> loc -> Prop :=
| reach_here l : reach h (VRef l) l
| reach_arr l vs v l' :
    h !! l = Some (OArr vs) -> v ∈ vs -> reach h v l' -> reach h (VRef l) l'
| reach_obj l fs k v l' :
    h !! l = Some (OObj fs) -> (k, v) ∈ fs -> reach h v l' -> reach h (VRef l) l'.

(** The store can be serialised: its objects are well formed and the
    values its items refer to are finite trees. *)
Definition serialisable (σ : State) (t : json) : Prop :=
  heap_wf (heap σ) /\ history_json (heap σ) (mockDb σ) = Some t.

(** One gateway operation, whatever its arguments and outcome. *)
Inductive step (env : Env) : State -> State -> Prop :=
| step_analyzeMealImage b m σ :
    step env σ (snd (analyzeMealImage env b m σ))
| step_generatePersonalizedPlan me g σ :
    step env σ (snd (generatePersonalizedPlan env me g σ))
| step_getHistory σ :
    step env σ (snd (getHistory σ))
| step_clearHistory σ :
    step env σ (snd (clearHistory σ)).

(** The states the module can be in: those the operations lead to from
    the empty database. *)
Definition reachable (env : Env) (σ : State) : Prop := rtc (step env) initial σ.

(** Clock readings never go back. *)
Definition clock_monotone (env : Env) : Prop :=
  forall i j : nat, (i <= j)%nat -> (clock env i <= clock env j)%Z.

(** Newest first: along the list, from the latest insertion to the
    earliest, timestamps do not increase. *)
Definition newest_first (l : list MealHistoryItem) : Prop :=
  StronglySorted (fun a b => (meal_timestamp b <= meal_timestamp a)%Z) l.

(** Every stored timestamp is a clock reading already taken. *)
Definition stamped (env : Env) (σ : State) : Prop :=
  Forall (fun m => exists i : nat,
            (i < clock_reads σ)%nat /\ meal_timestamp m = clock env i)
         (meals (mockDb σ)).

(** The request each operation sends, and the record it stores. *)
Definition meal_request (base64Image mimeType : jsstring) : Request :=
  {| model := lit "gemini-2.5-flash";
     contents := Parts base64Image mimeType analysis_instruction;
     responseMimeType := lit "application/json";
     responseSchema := nutritionalInfoSchema |}.

Definition plan_request (metrics : UserMetrics) (goal : jsstring) : Request :=
  {| model := lit "gemini-2.5-flash";
     contents := Prompt (plan_prompt metrics goal);
     responseMimeType := lit "application/json";
     responseSchema := personalizedPlanSchema |}.

Definition sent (req : Request) (σ : State) : State :=
  {| heap := heap σ; mockDb := mockDb σ;
     clock_reads := clock_reads σ; requests := req :: requests σ |}.

Definition new_meal (env : Env) (σ : State) (base64Image mimeType : jsstring)
    (analysis : val) : MealHistoryItem :=
  {| meal_id := lit "meal-" ++ decimal (clock env (clock_reads σ));
     meal_timestamp := clock env (S (clock_reads σ));
     nutritionalInfo := analysis;
     imageDataUrl := lit "data:" ++ mimeType ++ lit ";base64," ++ base64Image |}.

Definition new_plan (env : Env) (σ : State) (metrics : UserMetrics)
    (goal : jsstring) (plan : val) : PlanHistoryItem :=
  {| plan_id := lit "plan-" ++ decimal (clock env (clock_reads σ));
     plan_timestamp := clock env (S (clock_reads σ));
     plan := plan;
     ApiService.metrics := metrics;
     ApiService.goal := goal |}.

(** A service that answers every request with the same text, and a
    clock that advances by one millisecond per reading. *)
Definition answering (text : jsstring) : Env :=
  {| clock := fun i => (1000 + Z.of_nat i)%Z;
     service := fun _ => Fulfilled (Some text) |}.

Definition rejecting : Env :=
  {| clock := fun i => (1000 + Z.of_nat i)%Z;
     service := fun _ => Rejected (lit "503") |}.

(** The two loops inside [alloc_json]. *)
Fixpoint alloc_list (es : list json) (h : list obj) : list val * list obj :=
  match es with
  | [] => ([], h)
  | e :: es' =>
      let '(v, h1) := alloc_json e h in
      let '(vs, h2) := alloc_list es' h1 in
      (v :: vs, h2)
  end.

Fixpoint alloc_fields (es : list (jsstring * json)) (h : list obj)
  : list (jsstring * val) * list obj :=
  match es with
  | [] => ([], h)
  | (k, e) :: es' =>
      let '(v, h1) := alloc_json e h in
      let '(fs, h2) := alloc_fields es' h1 in
      ((k, v) :: fs, h2)
  end.

(** [h2] still holds every object of [h], unchanged. *)
Definition preserves (h h2 : list obj) : Prop :=
  forall (l : loc) (o : obj), h !! l = Some o -> h2 !! l = Some o.

(** What allocating the tree [t] in [h] achieves. *)
Record alloc_ok (t : json) (h : list obj) (v : val) (h' : list obj) : Prop := {
  ok_prefix : h `prefix_of` h';
  ok_depth : (length h + depth t <= length h')%nat;
  ok_read : forall n h2, (depth t <= n)%nat -> preserves h' h2 ->
            read_val n h2 v = Some t;
  ok_fresh : forall h2 l, preserves h' h2 -> reach h2 v l ->
             (length h <= l < length h')%nat;
  ok_wf : wf_json t -> heap_wf h -> heap_wf h'
}.

Definition max_depth (es : list json) : nat :=
  foldr (fun e d => Nat.max (depth e) d) O es.

Definition max_depth_fields (fs : list (jsstring * json)) : nat :=
  foldr (fun kv d => Nat.max (depth (snd kv)) d) O fs.

(** A response the operations cannot use: the call was rejected, the
    response carries no text, or the trimmed text is not JSON. *)
Definition unusable (r : Response) : bool :=
  match r with
  | Rejected _ => true
  | Fulfilled None => true
  | Fulfilled (Some text) =>
      match parse (trim text) with
      | Some _ => false
      | None => true
      end
  end.

(** The empty database, as a tree. *)
Definition empty_history : json :=
  JObj [(lit "meals", JArr []); (lit "plans", JArr [])].

(** The example of the spec. *)
Definition example_metrics : UserMetrics :=
  {| height := lit "180cm"; weight := lit "75kg"; age := lit "30";
     gender := Male; activityLevel := Moderate |}.

Definition example_goal : jsstring := lit "lose 5kg".

(** One day of the meal plan: strings under [breakfast], [lunch] and
    [dinner], possibly one under [snacks], and nothing else. *)
Definition is_meal (v : json) : Prop :=
  exists fs b l d,
    v = JObj fs /\
    assoc (lit "breakfast") fs = Some (JStr b) /\
    assoc (lit "lunch") fs = Some (JStr l) /\
    assoc (lit "dinner") fs = Some (JStr d) /\
    (assoc (lit "snacks") fs = None \/
     exists s, assoc (lit "snacks") fs = Some (JStr s)) /\
    (forall k, k ∈ keys fs ->
       k ∈ [lit "breakfast"; lit "lunch"; lit "dinner"; lit "snacks"]).

(** A plan whose [mealPlan] and [workoutPlan] have the seven weekdays
    as their keys, each once and no other. *)
Definition seven_day_plan (t : json) : Prop :=
  exists fields mealPlan workoutPlan,
    t = JObj fields /\
    assoc (lit "mealPlan") fields = Some (JObj mealPlan) /\
    assoc (lit "workoutPlan") fields = Some (JObj workoutPlan) /\
    keys mealPlan ≡ₚ weekdays /\
    keys workoutPlan ≡ₚ weekdays /\
    Forall (fun kv => is_meal (snd kv)) mealPlan /\
    Forall (fun kv => exists s, snd kv = JStr s) workoutPlan.

(** A plan as the schema asks for it, and the text that carries it. *)
Definition example_meal : json :=
  JObj [(lit "breakfast", JStr (lit "Oats"));
        (lit "lunch", JStr (lit "Lentil soup"));
        (lit "dinner", JStr (lit "Grilled fish"))].

Definition example_plan : json :=
  JObj [(lit "summary", JStr (lit "A steady deficit."));
        (lit "mealPlan", JObj (map (fun d => (d, example_meal)) weekdays));
        (lit "workoutPlan", JObj (map (fun d => (d, JStr (lit "Walk 30 min"))) weekdays))].

Definition example_plan_text : jsstring :=
  lit " " ++ stringify example_plan ++ [10].

(** *** Authentication *)

Definition users_json (users : list User) : json :=
  JArr (map user_json users).

(** Some registered user has this email. *)
Definition email_taken (users : list User) (e : jsstring) : Prop :=
  Exists (fun u => Types.email u = e) users.

(** The first registered user with this email. *)
Definition first_with_email (users : list User) (e : jsstring) : option User :=
  List.find (fun u => bool_decide (Types.email u = e)) users.

(** The submission ended with an error message, and changed neither
    the session nor the storage. *)
Definition failed (res : Auth.Outcome * App.AppState * Storage)
    (app : App.AppState) (ls : Storage) : Prop :=
  exists message, res = (Auth.ShowError message, app, ls).

Definition register_form (n e p : jsstring) : Auth.Form :=
  {| Auth.isRegister := true; Auth.name := n; Auth.email := e; Auth.password := p |}.

Definition login_form (e p : jsstring) : Auth.Form :=
  {| Auth.isRegister := false; Auth.name := []; Auth.email := e; Auth.password := p |}.

Definition alice : User :=
  {| Types.name := lit "Alice"; Types.email := lit "alice@x.com" |}.

(** *** The validation contract, in the words of the spec *)

Module ValidationContract.

(** The whole string is an integer literal; its value. *)
Definition integer_value (s : jsstring) : option Z :=
  let '(neg, s1) := strip_sign (trim s) in
  let '(d, rest) := read_digits s1 in
  if is_nil d || negb (falsy rest) then None
  else Some (signed neg (Z.of_uint d)).

(** "age is an integer 1-120" *)
Definition age_ok (a : jsstring) : Prop :=
  exists z, integer_value a = Some z /\ (1 <= z <= 120)%Z.

(** "height and weight are non-empty and parse to positive numbers" *)
Definition measure_ok (s : jsstring) : Prop :=
  s <> [] /\ PersonalCoach.positive_number (PersonalCoach.parseFloat s) = true.

(** "gender and activityLevel are one of the enumerated values", "goal
    is non-empty" *)
Definition satisfied (m : UserMetrics) (goal : jsstring) : Prop :=
  age_ok (age m) /\ measure_ok (height m) /\ measure_ok (weight m) /\
  gender m <> GenderUnset /\ activityLevel m <> ActivityUnset /\
  goal <> [].

End ValidationContract.

(** What [validateForm] accepts. *)
Definition accepted (m : UserMetrics) (goal : jsstring) : Prop :=
  (exists z, PersonalCoach.parseInt (age m) = Some z /\ (1 <= z <= 120)%Z) /\
  ValidationContract.measure_ok (height m) /\
  ValidationContract.measure_ok (weight m) /\
  gender m <> GenderUnset /\ activityLevel m <> ActivityUnset /\
  trim goal <> [].

Definition coach (m : UserMetrics) (goal : jsstring) : PersonalCoach.CoachState :=
  {| PersonalCoach.metrics := m; PersonalCoach.goal := goal;
     PersonalCoach.plan := None; PersonalCoach.isLoading := false;
     PersonalCoach.apiError := None;
     PersonalCoach.validationErrors := PersonalCoach.no_errors |}.

Definition fractional_age : UserMetrics :=
  {| height := lit "180cm"; weight := lit "75kg"; age := lit "12.5";
     gender := Male; activityLevel := Moderate |}.

(** The storage after Alice has registered on a fresh browser. *)
Definition alice_registered : Storage :=
  snd (App.submit (register_form (lit "Alice") (lit "alice@x.com") (lit "pw1"))
         App.initialApp ∅).

(** A stored user list that is no JSON. *)
Definition unreadable_user_list : Storage := {[ lit "user_db" := lit "[{name" ]}.

(** A stored user that is the empty string, and one that is no JSON. *)
Definition empty_user_record : Storage := {[ lit "user" := [] ]}.

Definition malformed_user_record : Storage := {[ lit "user" := lit "{name:" ]}.

(** *** Text positions *)

(** What can follow a value inside JSON text: nothing, a comma, or a
    closing bracket or brace. *)
Definition delimited (rest : jsstring) : Prop :=
  match rest with
  | [] => True
  | c :: _ => c = 44 \/ c = 93 \/ c = 125
  end.

Definition no_digit_ahead (rest : jsstring) : Prop :=
  match rest with
  | [] => True
  | c :: _ => is_digit c = false
  end.

(** The first character of a value's text. *)
Definition value_start (c : N) : Prop :=
  c = 110 \/ c = 116 \/ c = 102 \/ c = 34 \/ c = 91 \/ c = 123 \/ c = 45 \/
  is_digit c = true.

(** The items after the first, each behind its comma. *)
Definition more (items : list jsstring) : jsstring :=
  flat_map (fun x => 44 :: x) items.

Definition member_text (kv : jsstring * json) : jsstring :=
  print_string (fst kv) ++ 58 :: stringify (snd kv).

(** With this much fuel, the text of [v] parses back to [v], whatever
    delimiter follows. *)
Definition parses_back (fuel : nat) (v : json) : Prop :=
  forall rest, delimited rest ->
    parse_value fuel (stringify v ++ rest) = Some (v, rest).

(** [h2] differs from [h] at most in the objects that make up [v], and
    in objects created since. *)
Definition mutates_only (h : list obj) (v : val) (h2 : list obj) : Prop :=
  forall (l : loc) (o : obj), h !! l = Some o -> ~ reach h v l -> h2 !! l = Some o.

(** A state with one analysed meal, whose analysis has nested data. *)
Definition example_analysis_text : jsstring :=
  stringify
    (JObj [(lit "foodItems", JArr [JStr (lit "rice"); JStr (lit "beans")]);
           (lit "macros", JObj [(lit "calories", JNum (Number 4205 (-1)))]);
           (lit "summary", JStr (lit "Balanced."))]).

Definition one_meal : State :=
  snd (analyzeMealImage (answering example_analysis_text)
         (lit "QUJD") (lit "image/png") initial).

(** *** Numbers that JSON text cannot carry *)

(** No number in the value is an infinity. *)
Fixpoint finite (v : json) : bool :=
  match v with
  | JNum n => negb (overflows n)
  | JArr elems => forallb finite elems
  | JObj fields => forallb (fun kv => finite (snd kv)) fields
  | _ => true
  end.

(** The value as JSON text carries it: [null] in place of every
    infinity. *)
Fixpoint jsonify (v : json) : json :=
  match v with
  | JNum n => if overflows n then JNull else v
  | JArr elems => JArr (map jsonify elems)
  | JObj fields => JObj (map (fun kv => (fst kv, jsonify (snd kv))) fields)
  | _ => v
  end.

(** The state after one analysed meal whose analysis holds a number
    beyond the binary64 range. *)
Definition too_large_meal : State :=
  snd (analyzeMealImage (answering (lit "[1e400]"))
         (lit "QUJD") (lit "image/png") initial).

(** A stored user record that parses to [null]. *)
Definition null_user_record : Storage := {[ lit "user" := lit "null" ]}.

(* ===================================================================== *)
(** ** The rest of the coach form *)
(* ===================================================================== *)

Module CoachForm.

(** The change event of an input or a select of the form: the [name] of
    the control and its new [value]. *)
Inductive Change :=
| Height (value : jsstring)
| Weight (value : jsstring)
| Age (value : jsstring)
| GenderSelect (value : Gender)
| ActivitySelect (value : ActivityLevel).

(** [{...metrics, [name]: value}] *)
Definition set_field (e : Change) (m : UserMetrics) : UserMetrics :=
  match e with
  | Height v =>
      {| height := v; weight := weight m; age := age m;
         gender := gender m; activityLevel := activityLevel m |}
  | Weight v =>
      {| height := height m; weight := v; age := age m;
         gender := gender m; activityLevel := activityLevel m |}
  | Age v =>
      {| height := height m; weight := weight m; age := v;
         gender := gender m; activityLevel := activityLevel m |}
  | GenderSelect g =>
      {| height := height m; weight := weight m; age := age m;
         gender := g; activityLevel := activityLevel m |}
  | ActivitySelect a =>
      {| height := height m; weight := weight m; age := age m;
         gender := gender m; activityLevel := a |}
  end.

(** [validationErrors[name]] *)
Definition error_of (e : Change) (errs : PersonalCoach.Errors) : option jsstring :=
  match e with
  | Height _ => PersonalCoach.height_error errs
  | Weight _ => PersonalCoach.weight_error errs
  | Age _ => PersonalCoach.age_error errs
  | GenderSelect _ => PersonalCoach.gender_error errs
  | ActivitySelect _ => PersonalCoach.activityLevel_error errs
  end.

(** [{...prev, [name]: undefined}] *)
Definition clear_error (e : Change) (errs : PersonalCoach.Errors) : PersonalCoach.Errors :=
  match e with
  | Height _ =>
      {| PersonalCoach.age_error := PersonalCoach.age_error errs;
         PersonalCoach.height_error := None;
         PersonalCoach.weight_error := PersonalCoach.weight_error errs;
         PersonalCoach.gender_error := PersonalCoach.gender_error errs;
         PersonalCoach.activityLevel_error := PersonalCoach.activityLevel_error errs;
         PersonalCoach.goal_error := PersonalCoach.goal_error errs |}
  | Weight _ =>
      {| PersonalCoach.age_error := PersonalCoach.age_error errs;
         PersonalCoach.height_error := PersonalCoach.height_error errs;
         PersonalCoach.weight_error := None;
         PersonalCoach.gender_error := PersonalCoach.gender_error errs;
         PersonalCoach.activityLevel_error := PersonalCoach.activityLevel_error errs;
         PersonalCoach.goal_error := PersonalCoach.goal_error errs |}
  | Age _ =>
      {| PersonalCoach.age_error := None;
         PersonalCoach.height_error := PersonalCoach.height_error errs;
         PersonalCoach.weight_error := PersonalCoach.weight_error errs;
         PersonalCoach.gender_error := PersonalCoach.gender_error errs;
         PersonalCoach.activityLevel_error := PersonalCoach.activityLevel_error errs;
         PersonalCoach.goal_error := PersonalCoach.goal_error errs |}
  | GenderSelect _ =>
      {| PersonalCoach.age_error := PersonalCoach.age_error errs;
         PersonalCoach.height_error := PersonalCoach.height_error errs;
         PersonalCoach.weight_error := PersonalCoach.weight_error errs;
         PersonalCoach.gender_error := None;
         PersonalCoach.activityLevel_error := PersonalCoach.activityLevel_error errs;
         PersonalCoach.goal_error := PersonalCoach.goal_error errs |}
  | ActivitySelect _ =>
      {| PersonalCoach.age_error := PersonalCoach.age_error errs;
         PersonalCoach.height_error := PersonalCoach.height_error errs;
         PersonalCoach.weight_error := PersonalCoach.weight_error errs;
         PersonalCoach.gender_error := PersonalCoach.gender_error errs;
         PersonalCoach.activityLevel_error := None;
         PersonalCoach.goal_error := PersonalCoach.goal_error errs |}
  end.

(** A message is truthy when it is there and not empty. *)
Definition truthy (o : option jsstring) : bool :=
  match o with
  | Some s => negb (falsy s)
  | None => false
  end.

Definition handleChange (e : Change) (c : PersonalCoach.CoachState)
  : PersonalCoach.CoachState :=
  {| PersonalCoach.metrics := set_field e (PersonalCoach.metrics c);
     PersonalCoach.goal := PersonalCoach.goal c;
     PersonalCoach.plan := PersonalCoach.plan c;
     PersonalCoach.isLoading := PersonalCoach.isLoading c;
     PersonalCoach.apiError := PersonalCoach.apiError c;
     PersonalCoach.validationErrors :=
       if truthy (error_of e (PersonalCoach.validationErrors c))
       then clear_error e (PersonalCoach.validationErrors c)
       else PersonalCoach.validationErrors c |}.

Definition handleGoalChange (value : jsstring) (c : PersonalCoach.CoachState)
  : PersonalCoach.CoachState :=
  let errs := PersonalCoach.validationErrors c in
  {| PersonalCoach.metrics := PersonalCoach.metrics c;
     PersonalCoach.goal := value;
     PersonalCoach.plan := PersonalCoach.plan c;
     PersonalCoach.isLoading := PersonalCoach.isLoading c;
     PersonalCoach.apiError := PersonalCoach.apiError c;
     PersonalCoach.validationErrors :=
       if truthy (PersonalCoach.goal_error errs)
       then {| PersonalCoach.age_error := PersonalCoach.age_error errs;
               PersonalCoach.height_error := PersonalCoach.height_error errs;
               PersonalCoach.weight_error := PersonalCoach.weight_error errs;
               PersonalCoach.gender_error := PersonalCoach.gender_error errs;
               PersonalCoach.activityLevel_error :=
                 PersonalCoach.activityLevel_error errs;
               PersonalCoach.goal_error := None |}
       else errs |}.

(** The initial state of the component. *)
Definition initialCoach : PersonalCoach.CoachState :=
  {| PersonalCoach.metrics :=
       {| height := []; weight := []; age := [];
          gender := GenderUnset; activityLevel := ActivityUnset |};
     PersonalCoach.goal := [];
     PersonalCoach.plan := None;
     PersonalCoach.isLoading := false;
     PersonalCoach.apiError := None;
     PersonalCoach.validationErrors := PersonalCoach.no_errors |}.

End CoachForm.

(* ===================================================================== *)
(** ** The login screen inside the application *)
(* ===================================================================== *)

Module Session.

(** What [App] does with the outcome of a timer callback of the login
    screen, whose [onLogin] is [handleLogin]. *)
Definition deliver (o : Auth.Outcome) (app : App.AppState) (ls : Storage)
  : App.AppState * Storage :=
  match o with
  | Auth.OnLogin u => App.handleLogin u app ls
  | _ => (app, ls)
  end.

(** The "Sign in with Google" button. *)
Definition googleLogin (app : App.AppState) (ls : Storage) : App.AppState * Storage :=
  deliver Auth.handleGoogleLogin app ls.

End Session.

(* ===================================================================== *)
(** ** Further vocabulary *)
(* ===================================================================== *)

Definition newest_first_plans (l : list PlanHistoryItem) : Prop :=
  StronglySorted (fun a b => (plan_timestamp b <= plan_timestamp a)%Z) l.

Definition stamped_plans (env : Env) (σ : State) : Prop :=
  Forall (fun p => exists i : nat,
            (i < clock_reads σ)%nat /\ plan_timestamp p = clock env i)
         (plans (mockDb σ)).

(** The clock is read twice per stored record; the first reading of
    each pair makes the id.  [distinct_calls]: the first readings of
    different pairs differ. *)
Definition distinct_calls (env : Env) : Prop :=
  forall i j : nat, i <> j -> clock env (2 * i) <> clock env (2 * j).

(** Every stored id was made from the first reading of an earlier pair. *)
Definition ids_stamped (env : Env) (σ : State) : Prop :=
  exists k : nat,
    clock_reads σ = (2 * k)%nat /\
    Forall (fun m => exists i : nat,
              (i < k)%nat /\
              meal_id m = lit "meal-" ++ decimal (clock env (2 * i)))
           (meals (mockDb σ)) /\
    Forall (fun p => exists i : nat,
              (i < k)%nat /\
              plan_id p = lit "plan-" ++ decimal (clock env (2 * i)))
           (plans (mockDb σ)).

Definition ids_unique (σ : State) : Prop :=
  NoDup (map meal_id (meals (mockDb σ))) /\
  NoDup (map plan_id (plans (mockDb σ))).

(** The object at [l] holds the value [v]. *)
Definition holds (h : list obj) (l : loc) (v : val) : Prop :=
  (exists vs, h !! l = Some (OArr vs) /\ v ∈ vs) \/
  (exists fs k, h !! l = Some (OObj fs) /\ (k, v) ∈ fs).

(** The object at [l] refers to itself, directly or through others. *)
Definition on_cycle (h : list obj) (l : loc) : Prop :=
  exists v, holds h l v /\ reach h v l.

(** A stored record refers to the object at [l]. *)
Definition stored (σ : State) (l : loc) : Prop :=
  Exists (fun m => reach (heap σ) (nutritionalInfo m) l) (meals (mockDb σ)) \/
  Exists (fun p => reach (heap σ) (plan p) l) (plans (mockDb σ)).

(** White space only. *)
Definition blank (s : jsstring) : Prop :=
  Forall (fun c => is_white_space c = true) s.

(** An environment that differs from [env] in the answer to request
    [i] only. *)
Definition answer_at (env : Env) (i : nat) (r : Response) : Env :=
  {| clock := clock env;
     service := fun j => if Nat.eqb j i then r else service env j |}.

(** A clock that stands still. *)
Definition frozen (text : jsstring) : Env :=
  {| clock := fun _ => 1000%Z; service := fun _ => Fulfilled (Some text) |}.

(** An analysis as the schema asks for it. *)
Definition is_named_amount (v : json) : Prop :=
  exists fs n a,
    v = JObj fs /\
    assoc (lit "name") fs = Some (JStr n) /\
    assoc (lit "amount") fs = Some (JStr a) /\
    keys fs ≡ₚ [lit "name"; lit "amount"].

Definition is_macros (v : json) : Prop :=
  exists fs c p cb f,
    v = JObj fs /\
    assoc (lit "calories") fs = Some (JNum c) /\
    assoc (lit "protein") fs = Some (JNum p) /\
    assoc (lit "carbohydrates") fs = Some (JNum cb) /\
    assoc (lit "fat") fs = Some (JNum f) /\
    keys fs ≡ₚ [lit "calories"; lit "protein"; lit "carbohydrates"; lit "fat"].

Definition is_analysis (t : json) : Prop :=
  exists fields foodItems macros vitamins minerals summary,
    t = JObj fields /\
    assoc (lit "foodItems") fields = Some (JArr foodItems) /\
    Forall (fun v => exists s, v = JStr s) foodItems /\
    assoc (lit "macros") fields = Some macros /\ is_macros macros /\
    assoc (lit "vitamins") fields = Some (JArr vitamins) /\
    Forall is_named_amount vitamins /\
    assoc (lit "minerals") fields = Some (JArr minerals) /\
    Forall is_named_amount minerals /\
    assoc (lit "summary") fields = Some (JStr summary) /\
    keys fields ≡ₚ
      [lit "foodItems"; lit "macros"; lit "vitamins"; lit "minerals"; lit "summary"].

Definition example_analysis : json :=
  JObj [(lit "foodItems", JArr [JStr (lit "rice"); JStr (lit "beans")]);
        (lit "macros",
          JObj [(lit "calories", JNum (Number 4205 (-1)));
                (lit "protein", JNum (Number 18 0));
                (lit "carbohydrates", JNum (Number 72 0));
                (lit "fat", JNum (Number 65 (-1)))]);
        (lit "vitamins",
          JArr [JObj [(lit "name", JStr (lit "B1")); (lit "amount", JStr (lit "0.3mg"))]]);
        (lit "minerals", JArr []);
        (lit "summary", JStr (lit "Balanced."))].

(** The state after one analysed meal, in which a caller has then made
    the analysis it was handed refer to itself. *)
Definition self_referring : State :=
  with_heap (<[2%nat := OObj [(lit "self", VRef 2%nat)]]> (heap one_meal)) one_meal.

Definition demo_user : User :=
  {| Types.name := lit "Demo User"; Types.email := lit "demo@google.com" |}.

(** *** The browser storage over time *)

(** One operation of the application on the browser storage: a
    submission of the login form, the Google button, a logout, or the
    start of the application. *)
Inductive browser_step : Storage -> Storage -> Prop :=
| browser_submit (f : Auth.Form) (app : App.AppState) (ls : Storage) :
    browser_step ls (snd (App.submit f app ls))
| browser_google (app : App.AppState) (ls : Storage) :
    browser_step ls (snd (Session.googleLogin app ls))
| browser_logout (app : App.AppState) (ls : Storage) (σ : State) :
    browser_step ls (snd (fst (App.handleLogout app ls σ)))
| browser_start (app : App.AppState) (ls : Storage) :
    browser_step ls (snd (App.restoreSession app ls)).

(** The stored user list reads as [users]. *)
Definition registered (ls : Storage) (users : list User) : Prop :=
  Auth.getUserDb ls = Ok (users_json users).

Definition unique_emails (users : list User) : Prop :=
  NoDup (map Types.email users).

(** A user list with [null] in it, after users whose email is not
    [e]. *)
Definition null_before_match (e : jsstring) (users : list json) : Prop :=
  exists before after,
    users = before ++ JNull :: after /\
    Forall (fun u => Auth.email_is e u = Ok false) before.

Definition null_user_list : Storage :=
  {[ lit "user_db" := lit "[null]" ]}.

Definition object_user_list : Storage :=
  {[ lit "user_db" := lit "{}" ]}.

(** *** The coach form over time *)

(** The controls of the form that [handleChange] serves. *)
Inductive Control := HeightInput | WeightInput | AgeInput | GenderSelect | ActivitySelect.

Definition control (e : CoachForm.Change) : Control :=
  match e with
  | CoachForm.Height _ => HeightInput
  | CoachForm.Weight _ => WeightInput
  | CoachForm.Age _ => AgeInput
  | CoachForm.GenderSelect _ => GenderSelect
  | CoachForm.ActivitySelect _ => ActivitySelect
  end.

(** The value the event carries, and the value a control holds. *)
Definition new_value (e : CoachForm.Change) : jsstring :=
  match e with
  | CoachForm.Height v | CoachForm.Weight v | CoachForm.Age v => v
  | CoachForm.GenderSelect g => gender_string g
  | CoachForm.ActivitySelect a => activity_string a
  end.

Definition value (k : Control) (m : UserMetrics) : jsstring :=
  match k with
  | HeightInput => height m
  | WeightInput => weight m
  | AgeInput => age m
  | GenderSelect => gender_string (gender m)
  | ActivitySelect => activity_string (activityLevel m)
  end.

(** The message shown under a control. *)
Definition message (k : Control) (errs : PersonalCoach.Errors) : option jsstring :=
  match k with
  | HeightInput => PersonalCoach.height_error errs
  | WeightInput => PersonalCoach.weight_error errs
  | AgeInput => PersonalCoach.age_error errs
  | GenderSelect => PersonalCoach.gender_error errs
  | ActivitySelect => PersonalCoach.activityLevel_error errs
  end.







(** What may follow a number in a height or a weight: a unit, or
    nothing. *)
Definition unit_suffix (rest : jsstring) : Prop :=
  match rest with
  | [] => True
  | c :: _ => is_digit c = false /\ c <> 46 /\ c <> 101 /\ c <> 69
  end.

(** Membership in a list written out. *)
Ltac member := repeat first [apply list_elem_of_here | apply list_elem_of_further].

(** The state after two analysed meals and then two generated plans. *)
Definition two_of_each : State :=
  snd (generatePersonalizedPlan (answering (lit "{}")) example_metrics example_goal
    (snd (generatePersonalizedPlan (answering (lit "{}")) example_metrics example_goal
      (snd (analyzeMealImage (answering (lit "{}")) (lit "QUJD") (lit "image/png")
        (snd (analyzeMealImage (answering (lit "{}")) (lit "QUJD") (lit "image/png")
                initial))))))).

(** The storage after Alice has registered, logged out, Bob has
    registered and logged out, and Alice has logged in again. *)
Definition bob : User :=
  {| Types.name := lit "Bob"; Types.email := lit "bob@x.com" |}.

Definition bob_joined : Storage :=
  snd (App.submit (login_form (lit "alice@x.com") (lit "pw9")) App.initialApp
    (snd (fst (App.handleLogout App.initialApp
      (snd (App.submit (register_form (lit "Bob") (lit "bob@x.com") (lit "pw2"))
              App.initialApp
        (snd (fst (App.handleLogout App.initialApp alice_registered initial)))))
      initial)))).

(* ===================================================================== *)
(** ** The operations, case by case *)
(* ===================================================================== *)

Lemma analyzeMealImage_eq env b m σ :
  analyzeMealImage env b m σ =
  match service env (length (requests σ)) with
  | Rejected msg => (Throw (ServiceError msg), sent (meal_request b m) σ)
  | Fulfilled None => (Throw TypeError, sent (meal_request b m) σ)
  | Fulfilled (Some text) =>
      match parse (trim text) with
      | None => (Throw SyntaxError, sent (meal_request b m) σ)
      | Some t =>
          (Ok (fst (alloc_json t (heap σ))),
           {| heap := snd (alloc_json t (heap σ));
              mockDb :=
                {| meals := new_meal env σ b m (fst (alloc_json t (heap σ)))
                              :: meals (mockDb σ);
                   plans := plans (mockDb σ) |};
              clock_reads := S (S (clock_reads σ));
              requests := meal_request b m :: requests σ |})
      end
  end.
Proof.
  unfold analyzeMealImage, bind, generateContent, text_trim, JSON_parse.
  destruct (service env _) as [msg|[text|]]; try reflexivity.
  cbn. destruct (parse (trim text)) as [t|]; [|reflexivity].
  cbn. destruct (alloc_json t (heap σ)) as [v h]. reflexivity.
Qed.

Lemma generatePersonalizedPlan_eq env me g σ :
  generatePersonalizedPlan env me g σ =
  match service env (length (requests σ)) with
  | Rejected msg => (Throw (ServiceError msg), sent (plan_request me g) σ)
  | Fulfilled None => (Throw TypeError, sent (plan_request me g) σ)
  | Fulfilled (Some text) =>
      match parse (trim text) with
      | None => (Throw SyntaxError, sent (plan_request me g) σ)
      | Some t =>
          (Ok (fst (alloc_json t (heap σ))),
           {| heap := snd (alloc_json t (heap σ));
              mockDb :=
                {| meals := meals (mockDb σ);
                   plans := new_plan env σ me g (fst (alloc_json t (heap σ)))
                              :: plans (mockDb σ) |};
              clock_reads := S (S (clock_reads σ));
              requests := plan_request me g :: requests σ |})
      end
  end.
Proof.
  unfold generatePersonalizedPlan, bind, generateContent, text_trim, JSON_parse.
  destruct (service env _) as [msg|[text|]]; try reflexivity.
  cbn. destruct (parse (trim text)) as [t|]; [|reflexivity].
  cbn. destruct (alloc_json t (heap σ)) as [v h]. reflexivity.
Qed.

(* ===================================================================== *)
(** ** Trees and the heap *)
(* ===================================================================== *)

Lemma json_ind' (P : json -> Prop) :
  P JNull -> (forall b, P (JBool b)) -> (forall n, P (JNum n)) ->
  (forall s, P (JStr s)) ->
  (forall elems, Forall P elems -> P (JArr elems)) ->
  (forall fields, Forall (fun kv => P (snd kv)) fields -> P (JObj fields)) ->
  forall t, P t.
Proof.
  intros Hnull Hbool Hnum Hstr Harr Hobj.
  fix IH 1. intros [ | b | n | s | elems | fields].
  - exact Hnull.
  - apply Hbool.
  - apply Hnum.
  - apply Hstr.
  - apply Harr. induction elems as [|e es IHes]; constructor; [apply IH | exact IHes].
  - apply Hobj. induction fields as [|[k e] fs IHfs]; constructor;
      [apply IH | exact IHfs].
Qed.

Lemma alloc_json_arr elems h :
  alloc_json (JArr elems) h =
  let '(vs, h') := alloc_list elems h in (VRef (length h'), h' ++ [OArr vs]).
Proof. reflexivity. Qed.

Lemma alloc_json_obj fields h :
  alloc_json (JObj fields) h =
  let '(fs, h') := alloc_fields fields h in (VRef (length h'), h' ++ [OObj fs]).
Proof. reflexivity. Qed.

Lemma preserves_refl h : preserves h h.
Proof. intros l o H. exact H. Qed.

Lemma preserves_trans h1 h2 h3 :
  preserves h1 h2 -> preserves h2 h3 -> preserves h1 h3.
Proof. intros H12 H23 l o H. apply H23, H12, H. Qed.

Lemma preserves_prefix h h' : h `prefix_of` h' -> preserves h h'.
Proof. intros [ext ->] l o H. apply lookup_app_l_Some. exact H. Qed.

Lemma preserves_length h h2 : preserves h h2 -> (length h <= length h2)%nat.
Proof.
  intros Hp. destruct h as [|o h] using rev_ind; [simpl; lia|].
  assert (Hl : (h ++ [o]) !! length h = Some o).
  { rewrite lookup_app_r by lia. by rewrite Nat.sub_diag. }
  apply Hp, lookup_lt_Some in Hl. rewrite length_app. simpl. lia.
Qed.

Lemma read_val_mono n : forall m h v t,
  read_val n h v = Some t -> (n <= m)%nat -> read_val m h v = Some t.
Proof.
  induction n as [|n IHn]; intros m h v t Hr Hle.
  - destruct v; simpl in *; try discriminate; destruct m; exact Hr.
  - destruct m as [|m]; [lia|].
    destruct v as [ | b | k | s | l]; try exact Hr.
    simpl in *. destruct (h !! l) as [[vs|fs]|]; [| |discriminate].
    + destruct (mapM (read_val n h) vs) as [ts|] eqn:E; [|discriminate].
      apply mapM_Some in E.
      assert (E' : mapM (read_val m h) vs = Some ts).
      { apply mapM_Some. eapply Forall2_impl; [exact E|].
        intros x y Hxy. apply IHn; [exact Hxy | lia]. }
      rewrite E'. exact Hr.
    + destruct (mapM (fun kv => pair (fst kv) <$> read_val n h (snd kv)) fs)
        as [ts|] eqn:E; [|discriminate].
      apply mapM_Some in E.
      assert (E' : mapM (fun kv => pair (fst kv) <$> read_val m h (snd kv)) fs
                   = Some ts).
      { apply mapM_Some. eapply Forall2_impl; [exact E|].
        intros x y Hxy. simpl in *.
        destruct (read_val n h (snd x)) as [tx|] eqn:Ex; [|discriminate].
        erewrite IHn; [exact Hxy | exact Ex | lia]. }
      rewrite E'. exact Hr.
Qed.

Lemma read_val_preserved n : forall h h2 v t,
  read_val n h v = Some t -> preserves h h2 -> read_val n h2 v = Some t.
Proof.
  induction n as [|n IHn]; intros h h2 v t Hr Hp.
  - destruct v; simpl in *; try discriminate; exact Hr.
  - destruct v as [ | b | k | s | l]; try exact Hr.
    simpl in *. destruct (h !! l) as [o|] eqn:El; [|discriminate].
    rewrite (Hp _ _ El). destruct o as [vs|fs].
    + destruct (mapM (read_val n h) vs) as [ts|] eqn:E; [|discriminate].
      apply mapM_Some in E.
      assert (E' : mapM (read_val n h2) vs = Some ts).
      { apply mapM_Some. eapply Forall2_impl; [exact E|].
        intros x y Hxy. eapply IHn; [exact Hxy | exact Hp]. }
      rewrite E'. exact Hr.
    + destruct (mapM (fun kv => pair (fst kv) <$> read_val n h (snd kv)) fs)
        as [ts|] eqn:E; [|discriminate].
      apply mapM_Some in E.
      assert (E' : mapM (fun kv => pair (fst kv) <$> read_val n h2 (snd kv)) fs
                   = Some ts).
      { apply mapM_Some. eapply Forall2_impl; [exact E|].
        intros x y Hxy. simpl in *.
        destruct (read_val n h (snd x)) as [tx|] eqn:Ex; [|discriminate].
        erewrite IHn; [exact Hxy | exact Ex | exact Hp]. }
      rewrite E'. exact Hr.
Qed.

Lemma read_preserved h h2 v t :
  read h v = Some t -> preserves h h2 -> read h2 v = Some t.
Proof.
  unfold read. intros Hr Hp.
  eapply read_val_mono.
  - eapply read_val_preserved; [exact Hr | exact Hp].
  - apply preserves_length in Hp. lia.
Qed.

Lemma alloc_list_ok es :
  Forall (fun e => forall h, alloc_ok e h (fst (alloc_json e h)) (snd (alloc_json e h))) es ->
  forall h,
    h `prefix_of` snd (alloc_list es h) /\
    (length h + max_depth es <= length (snd (alloc_list es h)))%nat /\
    (forall n h2, (max_depth es <= n)%nat -> preserves (snd (alloc_list es h)) h2 ->
       mapM (read_val n h2) (fst (alloc_list es h)) = Some es) /\
    (forall v h2 l, v ∈ fst (alloc_list es h) ->
       preserves (snd (alloc_list es h)) h2 -> reach h2 v l ->
       (length h <= l < length (snd (alloc_list es h)))%nat) /\
    (Forall wf_json es -> heap_wf h -> heap_wf (snd (alloc_list es h))).
Proof.
  induction 1 as [|e es He Hes IH]; intros h.
  - simpl. split; [reflexivity|]. split; [lia|]. split; [reflexivity|].
    split; [|tauto]. intros v h2 l Hin. inversion Hin.
  - simpl. destruct (alloc_json e h) as [v h1] eqn:Ee.
    destruct (alloc_list es h1) as [vs h2] eqn:Ees. simpl.
    specialize (He h). rewrite Ee in He. simpl in He.
    destruct He as [Hpre Hdep Hread Hfresh Hwf].
    specialize (IH h1). rewrite Ees in IH. simpl in IH.
    destruct IH as (IHpre & IHdep & IHread & IHfresh & IHwf).
    assert (Hp12 : preserves h1 h2) by (apply preserves_prefix, IHpre).
    assert (Hlen : (length h <= length h1 <= length h2)%nat).
    { destruct Hpre as [e1 ->], IHpre as [e2 ->]. rewrite !length_app. lia. }
    split; [etrans; eassumption|].
    split; [fold (max_depth es); lia|].
    split; [|split].
    + intros n h3 Hn Hp. fold (max_depth es) in Hn.
      simpl.
      rewrite (Hread n h3) by (lia || (eapply preserves_trans; eassumption)).
      simpl. rewrite (IHread n h3) by (lia || assumption). reflexivity.
    + intros v' h3 l Hin Hp Hr. apply elem_of_cons in Hin as [-> | Hin].
      * assert (length h <= l < length h1)%nat; [|lia].
        eapply Hfresh; [|exact Hr]. eapply preserves_trans; eassumption.
      * assert (length h1 <= l < length h2)%nat; [|lia].
        eapply IHfresh; eassumption.
    + intros Hw Hh. apply Forall_cons in Hw as [Hw1 Hw2]. auto.
Qed.

Lemma alloc_fields_ok fields :
  Forall (fun kv : jsstring * json =>
            forall h, alloc_ok (snd kv) h (fst (alloc_json (snd kv) h))
                               (snd (alloc_json (snd kv) h))) fields ->
  forall h,
    h `prefix_of` snd (alloc_fields fields h) /\
    (length h + max_depth_fields fields <= length (snd (alloc_fields fields h)))%nat /\
    (forall n h2, (max_depth_fields fields <= n)%nat ->
       preserves (snd (alloc_fields fields h)) h2 ->
       mapM (fun kv => pair (fst kv) <$> read_val n h2 (snd kv))
            (fst (alloc_fields fields h)) = Some fields) /\
    (forall k v h2 l, (k, v) ∈ fst (alloc_fields fields h) ->
       preserves (snd (alloc_fields fields h)) h2 -> reach h2 v l ->
       (length h <= l < length (snd (alloc_fields fields h)))%nat) /\
    (Forall (fun kv => wf_json (snd kv)) fields -> heap_wf h ->
       heap_wf (snd (alloc_fields fields h))) /\
    keys (fst (alloc_fields fields h)) = keys fields.
Proof.
  induction 1 as [|[k e] es He Hes IH]; intros h.
  - simpl. split; [reflexivity|]. split; [lia|]. split; [reflexivity|].
    split; [|tauto]. intros k v h2 l Hin. inversion Hin.
  - simpl. destruct (alloc_json e h) as [v h1] eqn:Ee.
    destruct (alloc_fields es h1) as [vs h2] eqn:Ees. simpl.
    specialize (He h). simpl in He. rewrite Ee in He. simpl in He.
    destruct He as [Hpre Hdep Hread Hfresh Hwf].
    specialize (IH h1). rewrite Ees in IH. simpl in IH.
    destruct IH as (IHpre & IHdep & IHread & IHfresh & IHwf & IHkeys).
    assert (Hp12 : preserves h1 h2) by (apply preserves_prefix, IHpre).
    assert (Hlen : (length h <= length h1 <= length h2)%nat).
    { destruct Hpre as [e1 ->], IHpre as [e2 ->]. rewrite !length_app. lia. }
    split; [etrans; eassumption|].
    split; [fold (max_depth_fields es); lia|].
    split; [|split; [|split]].
    + intros n h3 Hn Hp. fold (max_depth_fields es) in Hn.
      simpl.
      rewrite (Hread n h3) by (lia || (eapply preserves_trans; eassumption)).
      simpl. rewrite (IHread n h3) by (lia || assumption). reflexivity.
    + intros k' v' h3 l Hin Hp Hr. apply elem_of_cons in Hin as [Heq | Hin].
      * inversion Heq; subst.
        assert (length h <= l < length h1)%nat; [|lia].
        eapply Hfresh; [|exact Hr]. eapply preserves_trans; eassumption.
      * assert (length h1 <= l < length h2)%nat; [|lia].
        eapply IHfresh; eassumption.
    + intros Hw Hh. apply Forall_cons in Hw as [Hw1 Hw2]. auto.
    + unfold keys in *. simpl. by rewrite IHkeys.
Qed.

Lemma lookup_snoc_here {A} (l : list A) (x : A) : (l ++ [x]) !! length l = Some x.
Proof. rewrite lookup_app_r by lia. by rewrite Nat.sub_diag. Qed.

Lemma alloc_json_ok t :
  forall h, alloc_ok t h (fst (alloc_json t h)) (snd (alloc_json t h)).
Proof.
  induction t as [ | b | n | s | elems IH | fields IH] using json_ind'; intros h.
  1-4: (simpl; split;
      [ reflexivity | simpl; lia | intros m h2 _ _; destruct m; reflexivity
      | intros h2 l _ Hr; inversion Hr | tauto ]).
  - rewrite alloc_json_arr.
    destruct (alloc_list_ok elems IH h) as (Hpre & Hdep & Hread & Hfresh & Hwf).
    destruct (alloc_list elems h) as [vs h1]. simpl in *.
    assert (Hlen : (length h <= length h1)%nat).
    { destruct Hpre as [e1 ->]. rewrite length_app. lia. }
    assert (Hp1 : preserves h1 (h1 ++ [OArr vs])).
    { apply preserves_prefix. by exists [OArr vs]. }
    split.
    + etrans; [exact Hpre|]. by exists [OArr vs].
    + rewrite length_app. change (depth (JArr elems)) with (S (max_depth elems)).
      simpl. lia.
    + intros n h2 Hn Hp. change (depth (JArr elems)) with (S (max_depth elems)) in Hn.
      destruct n as [|n]; [lia|]. simpl.
      rewrite (Hp _ _ (lookup_snoc_here h1 (OArr vs))).
      rewrite (Hread n h2) by (lia || (eapply preserves_trans; eassumption)).
      reflexivity.
    + intros h2 l Hp Hr. rewrite length_app. simpl.
      pose proof (Hp _ _ (lookup_snoc_here h1 (OArr vs))) as Hl.
      inversion Hr as [ | l0 vs0 v l' Hl0 Hin Hr' | l0 fs0 k v l' Hl0 Hin Hr' ]; subst.
      * lia.
      * rewrite Hl in Hl0. inversion Hl0; subst.
        assert (length h <= l < length h1)%nat; [|lia].
        eapply Hfresh; [exact Hin | | exact Hr'].
        eapply preserves_trans; eassumption.
      * rewrite Hl in Hl0. discriminate.
    + intros Hw Hh. inversion Hw; subst.
      apply Forall_app. split; [by apply Hwf|]. constructor; [exact I | constructor].
  - rewrite alloc_json_obj.
    destruct (alloc_fields_ok fields IH h)
      as (Hpre & Hdep & Hread & Hfresh & Hwf & Hkeys).
    destruct (alloc_fields fields h) as [fs h1]. simpl in *.
    assert (Hlen : (length h <= length h1)%nat).
    { destruct Hpre as [e1 ->]. rewrite length_app. lia. }
    assert (Hp1 : preserves h1 (h1 ++ [OObj fs])).
    { apply preserves_prefix. by exists [OObj fs]. }
    split.
    + etrans; [exact Hpre|]. by exists [OObj fs].
    + rewrite length_app.
      change (depth (JObj fields)) with (S (max_depth_fields fields)).
      simpl. lia.
    + intros n h2 Hn Hp.
      change (depth (JObj fields)) with (S (max_depth_fields fields)) in Hn.
      destruct n as [|n]; [lia|]. simpl.
      rewrite (Hp _ _ (lookup_snoc_here h1 (OObj fs))).
      rewrite (Hread n h2) by (lia || (eapply preserves_trans; eassumption)).
      reflexivity.
    + intros h2 l Hp Hr. rewrite length_app. simpl.
      pose proof (Hp _ _ (lookup_snoc_here h1 (OObj fs))) as Hl.
      inversion Hr as [ | l0 vs0 v l' Hl0 Hin Hr' | l0 fs0 k v l' Hl0 Hin Hr' ]; subst.
      * lia.
      * rewrite Hl in Hl0. discriminate.
      * rewrite Hl in Hl0. inversion Hl0; subst.
        assert (length h <= l < length h1)%nat; [|lia].
        eapply Hfresh; [exact Hin | | exact Hr'].
        eapply preserves_trans; eassumption.
    + intros Hw Hh. inversion Hw; subst.
      apply Forall_app. split; [by apply Hwf|]. constructor; [|constructor].
      simpl. by rewrite Hkeys.
Qed.

(** Reading back what [JSON.parse] has just built gives the parsed
    tree. *)
Lemma read_alloc_json t h h2 :
  preserves (snd (alloc_json t h)) h2 ->
  read h2 (fst (alloc_json t h)) = Some t.
Proof.
  intros Hp. destruct (alloc_json_ok t h) as [_ Hdep Hread _ _].
  apply Hread; [|exact Hp]. apply preserves_length in Hp. lia.
Qed.

Lemma getHistory_eq σ :
  getHistory σ =
  match history_json (heap σ) (mockDb σ) with
  | None => (Throw TypeError, σ)
  | Some t =>
      match parse (stringify t) with
      | None => (Throw SyntaxError, σ)
      | Some t' =>
          (Ok (fst (alloc_json t' (heap σ))),
           with_heap (snd (alloc_json t' (heap σ))) σ)
      end
  end.
Proof.
  unfold getHistory, bind, sleep, ret, JSON_stringify_mockDb, JSON_parse.
  destruct (history_json (heap σ) (mockDb σ)) as [t|]; [|reflexivity].
  destruct (parse (stringify t)) as [t'|]; [|reflexivity].
  destruct (alloc_json t' (heap σ)). reflexivity.
Qed.

Lemma clearHistory_eq σ :
  clearHistory σ = (Ok tt, with_mockDb {| meals := []; plans := [] |} σ).
Proof. reflexivity. Qed.

Lemma parse_empty_history : parse (stringify empty_history) = Some empty_history.
Proof. vm_compute. reflexivity. Qed.

(* ===================================================================== *)
(** ** Failure of a gateway call *)
(* ===================================================================== *)

(** C3, as the code has it: a call of [analyzeMealImage] or
    [generatePersonalizedPlan] fails exactly when the service call is
    rejected, the response has no text, or the trimmed text is not valid
    JSON.  It then throws, has sent its single request (no retry), and
    has left the database and every object as they were.  On any other
    response, a text that is valid JSON, whatever its shape, the call
    succeeds and the database has one more record. *)
Theorem failure_leaves_history_unchanged env σ :
  let response := service env (length (requests σ)) in
  (unusable response = true ->
     (forall b m, exists e σ',
         analyzeMealImage env b m σ = (Throw e, σ') /\
         mockDb σ' = mockDb σ /\ heap σ' = heap σ /\
         requests σ' = meal_request b m :: requests σ) /\
     (forall me g, exists e σ',
         generatePersonalizedPlan env me g σ = (Throw e, σ') /\
         mockDb σ' = mockDb σ /\ heap σ' = heap σ /\
         requests σ' = plan_request me g :: requests σ)) /\
  (unusable response = false ->
     (forall b m, exists r σ' item,
         analyzeMealImage env b m σ = (Ok r, σ') /\
         meals (mockDb σ') = item :: meals (mockDb σ)) /\
     (forall me g, exists r σ' item,
         generatePersonalizedPlan env me g σ = (Ok r, σ') /\
         plans (mockDb σ') = item :: plans (mockDb σ))).
Proof.
  intros response. subst response. split; intros Hu; split; intros;
    rewrite ?analyzeMealImage_eq, ?generatePersonalizedPlan_eq;
    destruct (service env _) as [msg|[text|]]; simpl in Hu;
    try discriminate;
    try (do 2 eexists; repeat split; reflexivity);
    destruct (parse (trim text)) as [t|]; try discriminate;
    first [ do 2 eexists; repeat split; reflexivity
          | do 3 eexists; split; reflexivity ].
Qed.

Lemma failure_leaves_history_unchanged_witness :
  (exists e σ',
      analyzeMealImage rejecting (lit "QUJD") (lit "image/png") initial = (Throw e, σ') /\
      mockDb σ' = mockDb initial /\ heap σ' = heap initial /\
      requests σ' = [meal_request (lit "QUJD") (lit "image/png")]) /\
  (exists r σ' item,
      generatePersonalizedPlan (answering (lit "{}")) example_metrics example_goal initial
      = (Ok r, σ') /\ plans (mockDb σ') = item :: plans (mockDb initial)).
Proof.
  split.
  - apply (proj1 (failure_leaves_history_unchanged rejecting initial)).
    reflexivity.
  - apply (proj2 (failure_leaves_history_unchanged (answering (lit "{}")) initial)).
    vm_compute. reflexivity.
Defined.

(** C3 as stated fails: the text [{}] is valid JSON that does not match
    the schema of the request, and the call neither fails nor leaves the
    history alone. *)
Lemma nonconforming_analysis_is_recorded :
  conforms nutritionalInfoSchema (JObj []) = false /\
  exists σ',
    analyzeMealImage (answering (lit "{}")) (lit "QUJD") (lit "image/png") initial
    = (Ok (VRef 0%nat), σ') /\
    heap σ' = [OObj []] /\
    exists item, meals (mockDb σ') = [item] /\ nutritionalInfo item = VRef 0%nat.
Proof.
  split; [vm_compute; reflexivity|].
  eexists. split; [vm_compute; reflexivity|].
  split; [reflexivity|]. eexists. split; reflexivity.
Qed.

(* ===================================================================== *)
(** ** What a successful call stores *)
(* ===================================================================== *)

Lemma analyzeMealImage_Ok env b m σ r σ' :
  analyzeMealImage env b m σ = (Ok r, σ') ->
  exists text t,
    service env (length (requests σ)) = Fulfilled (Some text) /\
    parse (trim text) = Some t /\
    r = fst (alloc_json t (heap σ)) /\
    σ' = {| heap := snd (alloc_json t (heap σ));
            mockDb := {| meals := new_meal env σ b m r :: meals (mockDb σ);
                         plans := plans (mockDb σ) |};
            clock_reads := S (S (clock_reads σ));
            requests := meal_request b m :: requests σ |}.
Proof.
  rewrite analyzeMealImage_eq.
  destruct (service env _) as [msg|[text|]]; try discriminate.
  destruct (parse (trim text)) as [t|] eqn:Et; try discriminate.
  intros [= <- <-]. exists text, t. repeat split; assumption || reflexivity.
Qed.

Lemma generatePersonalizedPlan_Ok env me g σ r σ' :
  generatePersonalizedPlan env me g σ = (Ok r, σ') ->
  exists text t,
    service env (length (requests σ)) = Fulfilled (Some text) /\
    parse (trim text) = Some t /\
    r = fst (alloc_json t (heap σ)) /\
    σ' = {| heap := snd (alloc_json t (heap σ));
            mockDb := {| meals := meals (mockDb σ);
                         plans := new_plan env σ me g r :: plans (mockDb σ) |};
            clock_reads := S (S (clock_reads σ));
            requests := plan_request me g :: requests σ |}.
Proof.
  rewrite generatePersonalizedPlan_eq.
  destruct (service env _) as [msg|[text|]]; try discriminate.
  destruct (parse (trim text)) as [t|] eqn:Et; try discriminate.
  intros [= <- <-]. exists text, t. repeat split; assumption || reflexivity.
Qed.

Lemma alloc_json_preserves t h : preserves h (snd (alloc_json t h)).
Proof. apply preserves_prefix. apply (alloc_json_ok t h). Qed.

(* ===================================================================== *)
(** ** Order of the meals history *)
(* ===================================================================== *)

Lemma stamped_more env σ σ' :
  meals (mockDb σ') = meals (mockDb σ) ->
  (clock_reads σ <= clock_reads σ')%nat ->
  stamped env σ -> stamped env σ'.
Proof.
  unfold stamped. intros -> Hle H. eapply Forall_impl; [exact H|].
  intros m (i & Hi & Hm). exists i. split; [lia | exact Hm].
Qed.

Lemma prepend_newest_first env σ item :
  clock_monotone env -> stamped env σ ->
  newest_first (meals (mockDb σ)) ->
  meal_timestamp item = clock env (S (clock_reads σ)) ->
  newest_first (item :: meals (mockDb σ)).
Proof.
  intros Hmono Hst Hsorted Hts. constructor; [exact Hsorted|].
  eapply Forall_impl; [exact Hst|].
  intros m (i & Hi & Hm). simpl. rewrite Hm, Hts. apply Hmono. lia.
Qed.

Lemma step_keeps_order env σ σ' :
  clock_monotone env -> step env σ σ' ->
  newest_first (meals (mockDb σ)) /\ stamped env σ ->
  newest_first (meals (mockDb σ')) /\ stamped env σ'.
Proof.
  intros Hmono Hstep [Hsorted Hst].
  assert (Hsame : newest_first (meals (mockDb σ)) /\ stamped env σ) by tauto.
  destruct Hstep as [b m σ | me g σ | σ | σ].
  - rewrite analyzeMealImage_eq.
    destruct (service env _) as [msg|[text|]]; [exact Hsame| |exact Hsame].
    destruct (parse (trim text)) as [t|]; [|exact Hsame].
    split.
    + eapply prepend_newest_first; eauto.
    + constructor.
      * exists (S (clock_reads σ)). split; [simpl; lia | reflexivity].
      * eapply Forall_impl; [exact Hst|].
        intros x (i & Hi & Hx). exists i. split; [simpl; lia | exact Hx].
  - rewrite generatePersonalizedPlan_eq.
    destruct (service env _) as [msg|[text|]]; [exact Hsame| |exact Hsame].
    destruct (parse (trim text)) as [t|]; [|exact Hsame].
    split; [exact Hsorted|].
    eapply (stamped_more env σ); [reflexivity | simpl; lia | exact Hst].
  - rewrite getHistory_eq.
    destruct (history_json _ _) as [t|]; [|exact Hsame].
    destruct (parse (stringify t)) as [t'|]; exact Hsame.
  - rewrite clearHistory_eq. split; constructor.
Qed.

Lemma reachable_order env σ :
  clock_monotone env -> reachable env σ ->
  newest_first (meals (mockDb σ)) /\ stamped env σ.
Proof.
  intros Hmono Hreach. unfold reachable in Hreach. revert σ Hreach.
  apply (rtc_ind_r (fun σ => newest_first (meals (mockDb σ)) /\ stamped env σ)).
  - split; constructor.
  - intros σ1 σ2 _ Hs IH. eapply step_keeps_order; eassumption.
Qed.

(** C2, as the code has it: a successful [analyzeMealImage] puts exactly
    one new record at the front of the meals history.  Its id is
    ["meal-"] followed by the first of two clock readings, its timestamp
    is the second reading, its image URL is built from the mime type and
    the base64 payload, and it refers to the returned analysis.  The id
    suffix is the stored timestamp whenever the two readings agree; and
    when clock readings never go back, the history of every reachable
    state stays ordered, newest first. *)
Theorem analyzeMealImage_prepends env b m σ r σ' :
  analyzeMealImage env b m σ = (Ok r, σ') ->
  exists item,
    meals (mockDb σ') = item :: meals (mockDb σ) /\
    meal_id item = lit "meal-" ++ decimal (clock env (clock_reads σ)) /\
    meal_timestamp item = clock env (S (clock_reads σ)) /\
    imageDataUrl item = lit "data:" ++ m ++ lit ";base64," ++ b /\
    nutritionalInfo item = r /\
    (clock env (S (clock_reads σ)) = clock env (clock_reads σ) ->
       meal_id item = lit "meal-" ++ decimal (meal_timestamp item)) /\
    (clock_monotone env -> reachable env σ ->
       newest_first (meals (mockDb σ'))).
Proof.
  intros Hok. apply analyzeMealImage_Ok in Hok as (text & t & _ & _ & _ & ->).
  exists (new_meal env σ b m r). simpl.
  repeat split; try reflexivity.
  - intros ->. reflexivity.
  - intros Hmono Hreach.
    destruct (reachable_order env σ Hmono Hreach) as [Hsorted Hst].
    eapply prepend_newest_first; eauto.
Qed.

(** C2 as stated fails: the clock is read twice, and the two readings
    may differ; here the id says 1000 and the timestamp is 1001. *)
Lemma analyzeMealImage_id_is_not_timestamp :
  exists σ' item,
    analyzeMealImage (answering (lit "{}")) (lit "QUJD") (lit "image/png") initial
    = (Ok (VRef 0%nat), σ') /\
    meals (mockDb σ') = [item] /\
    meal_id item = lit "meal-1000" /\
    meal_timestamp item = 1001%Z /\
    meal_id item <> lit "meal-" ++ decimal (meal_timestamp item).
Proof.
  do 2 eexists. split; [vm_compute; reflexivity|].
  split; [reflexivity|]. split; [reflexivity|]. split; [reflexivity|].
  vm_compute. discriminate.
Qed.

(* ===================================================================== *)
(** ** Each operation keeps to its own collection *)
(* ===================================================================== *)

(** C10: a successful [analyzeMealImage] leaves the plans collection as
    it was, a successful [generatePersonalizedPlan] the meals
    collection; neither changes an object that existed before, so every
    stored record still serialises to the same tree. *)
Theorem success_touches_own_collection env σ :
  (forall b m r σ',
      analyzeMealImage env b m σ = (Ok r, σ') ->
      plans (mockDb σ') = plans (mockDb σ) /\
      preserves (heap σ) (heap σ') /\
      forall p t, plan_json (heap σ) p = Some t -> plan_json (heap σ') p = Some t) /\
  (forall me g r σ',
      generatePersonalizedPlan env me g σ = (Ok r, σ') ->
      meals (mockDb σ') = meals (mockDb σ) /\
      preserves (heap σ) (heap σ') /\
      forall i t, meal_json (heap σ) i = Some t -> meal_json (heap σ') i = Some t).
Proof.
  split.
  - intros b m r σ' Hok.
    apply analyzeMealImage_Ok in Hok as (text & t & _ & _ & _ & ->). simpl.
    split; [reflexivity|]. split; [apply alloc_json_preserves|].
    intros p tp Hp. unfold plan_json in *.
    destruct (read (heap σ) (plan p)) as [pl|] eqn:E; [|discriminate].
    rewrite (read_preserved _ _ _ _ E (alloc_json_preserves _ _)). exact Hp.
  - intros me g r σ' Hok.
    apply generatePersonalizedPlan_Ok in Hok as (text & t & _ & _ & _ & ->). simpl.
    split; [reflexivity|]. split; [apply alloc_json_preserves|].
    intros i ti Hi. unfold meal_json in *.
    destruct (read (heap σ) (nutritionalInfo i)) as [pl|] eqn:E; [|discriminate].
    rewrite (read_preserved _ _ _ _ E (alloc_json_preserves _ _)). exact Hi.
Qed.

(* ===================================================================== *)
(** ** Clearing the history *)
(* ===================================================================== *)

(** C4: from any state, [clearHistory] succeeds and empties both
    collections; doing it twice gives the state doing it once gives;
    and the [getHistory] that follows succeeds with a value that reads
    [{meals: [], plans: []}]. *)
Theorem clearHistory_resets σ :
  exists σ1,
    clearHistory σ = (Ok tt, σ1) /\
    mockDb σ1 = {| meals := []; plans := [] |} /\
    clearHistory σ1 = (Ok tt, σ1) /\
    exists r σ2,
      getHistory σ1 = (Ok r, σ2) /\
      read (heap σ2) r = Some empty_history /\
      mockDb σ2 = {| meals := []; plans := [] |}.
Proof.
  exists (with_mockDb {| meals := []; plans := [] |} σ).
  split; [reflexivity|]. split; [reflexivity|]. split; [reflexivity|].
  rewrite getHistory_eq.
  change (history_json _ _) with (Some empty_history). cbv beta iota.
  rewrite parse_empty_history.
  do 2 eexists. split; [reflexivity|]. split; [|reflexivity].
  apply (read_alloc_json empty_history (heap σ)), preserves_refl.
Qed.

Lemma analyzeMealImage_prepends_witness :
  exists item,
    meals (mockDb (snd (analyzeMealImage (answering (lit "{}")) (lit "QUJD")
                          (lit "image/png") initial))) = [item] /\
    meal_id item = lit "meal-1000" /\
    meal_timestamp item = 1001%Z /\
    newest_first [item].
Proof.
  destruct (analyzeMealImage_prepends (answering (lit "{}")) (lit "QUJD")
              (lit "image/png") initial (VRef 0%nat)
              (snd (analyzeMealImage (answering (lit "{}")) (lit "QUJD")
                      (lit "image/png") initial)))
    as (item & Hm & Hid & Hts & _ & _ & _ & Hord).
  - vm_compute. reflexivity.
  - exists item. split; [exact Hm|]. split; [exact Hid|]. split; [exact Hts|].
    change [item] with (item :: meals (mockDb initial)).
    rewrite <- Hm. apply Hord.
    + intros i j Hij. simpl. lia.
    + apply rtc_refl.
Defined.

Lemma success_touches_own_collection_witness :
  plans (mockDb (snd (analyzeMealImage (answering (lit "{}")) (lit "QUJD")
                        (lit "image/png") initial))) = [] /\
  meals (mockDb (snd (generatePersonalizedPlan (answering (lit "{}"))
                        example_metrics example_goal initial))) = [].
Proof.
  split.
  - apply (proj1 (success_touches_own_collection (answering (lit "{}")) initial)
             (lit "QUJD") (lit "image/png") (VRef 0%nat)).
    vm_compute. reflexivity.
  - apply (proj2 (success_touches_own_collection (answering (lit "{}")) initial)
             example_metrics example_goal (VRef 0%nat)).
    vm_compute. reflexivity.
Defined.

(* ===================================================================== *)
(** ** What [JSON.parse] returns is well formed *)
(* ===================================================================== *)

Lemma parse_value_S fuel s :
  parse_value (S fuel) s =
  match skip_ws s with
  | [] => None
  | c :: r =>
      if c =? 110 then r' ← expect (lit "ull") r; Some (JNull, r')
      else if c =? 116 then r' ← expect (lit "rue") r; Some (JBool true, r')
      else if c =? 102 then r' ← expect (lit "alse") r; Some (JBool false, r')
      else if c =? 34 then
        '(str, r') ← parse_chars r; Some (JStr str, r')
      else if c =? 91 then
        match starts 93 (skip_ws r) with
        | Some r' => Some (JArr [], r')
        | None =>
            '(v, r') ← parse_value fuel r;
            '(vs, r'') ← parse_elements (parse_value fuel) (length r') r';
            Some (JArr (v :: vs), r'')
        end
      else if c =? 123 then
        match starts 125 (skip_ws r) with
        | Some r' => Some (JObj [], r')
        | None =>
            '(k, v, r') ← parse_member (parse_value fuel) r;
            '(fs, r'') ← parse_members (parse_value fuel) (length r') [(k, v)] r';
            Some (JObj fs, r'')
        end
      else
        '(n, r') ← parse_number (c :: r); Some (JNum n, r')
  end.
Proof. reflexivity. Qed.

Lemma keys_obj_set {A} k (v : A) fields :
  forall x, x ∈ keys (obj_set k v fields) <-> x = k \/ x ∈ keys fields.
Proof.
  unfold keys. induction fields as [|[k' v'] fs IH]; intros x; simpl.
  - rewrite elem_of_cons, elem_of_nil. tauto.
  - destruct (decide (k' = k)) as [->|Hne]; simpl.
    + rewrite !elem_of_cons. tauto.
    + rewrite !elem_of_cons, IH. tauto.
Qed.

Lemma NoDup_obj_set {A} k (v : A) fields :
  NoDup (keys fields) -> NoDup (keys (obj_set k v fields)).
Proof.
  induction fields as [|[k' v'] fs IH]; simpl; intros Hnd.
  - repeat constructor. intros H. inversion H.
  - unfold keys in *. simpl in *. apply NoDup_cons in Hnd as [Hni Hnd].
    destruct (decide (k' = k)) as [->|Hne]; simpl.
    + apply NoDup_cons. split; assumption.
    + apply NoDup_cons. split; [|by apply IH].
      intros Hin. apply (keys_obj_set k v fs) in Hin as [Heq | Hin]; [congruence|].
      by apply Hni.
Qed.

Lemma Forall_obj_set {A} (P : jsstring * A -> Prop) k v fields :
  P (k, v) -> Forall P fields -> Forall P (obj_set k v fields).
Proof.
  intros Hkv. induction 1 as [|[k' v'] fs Hx Hfs IH]; simpl.
  - by constructor.
  - destruct (decide (k' = k)); constructor; assumption.
Qed.

Section ParserWf.

Variable pv : jsstring -> option (json * jsstring).
Hypothesis pv_wf : forall s v r, pv s = Some (v, r) -> wf_json v.

Lemma parse_elements_wf n : forall s vs r,
  parse_elements pv n s = Some (vs, r) -> Forall wf_json vs.
Proof.
  induction n as [|n IH]; intros s vs r; simpl.
  - destruct (starts 93 (skip_ws s)); [intros [= <- <-]; constructor|].
    destruct (starts 44 (skip_ws s)); discriminate.
  - destruct (starts 93 (skip_ws s)); [intros [= <- <-]; constructor|].
    destruct (starts 44 (skip_ws s)) as [r1|]; [|discriminate].
    destruct (pv r1) as [[v r2]|] eqn:Ev; [|discriminate].
    destruct (parse_elements pv n r2) as [[vs' r3]|] eqn:Ees; [|discriminate].
    simpl. intros [= <- <-]. constructor; eauto.
Qed.

Lemma parse_member_wf s k v r :
  parse_member pv s = Some (k, v, r) -> wf_json v.
Proof.
  unfold parse_member.
  destruct (starts 34 (skip_ws s)) as [r0|]; [|discriminate]. simpl.
  destruct (parse_chars r0) as [[k0 r1]|]; [|discriminate]. simpl.
  destruct (starts 58 (skip_ws r1)) as [r2|]; [|discriminate]. simpl.
  destruct (pv r2) as [[v0 r3]|] eqn:Ev; [|discriminate]. simpl.
  intros [= <- <- <-]. eauto.
Qed.

Lemma parse_members_wf n : forall acc s fs r,
  NoDup (keys acc) -> Forall (fun kv => wf_json (snd kv)) acc ->
  parse_members pv n acc s = Some (fs, r) ->
  NoDup (keys fs) /\ Forall (fun kv => wf_json (snd kv)) fs.
Proof.
  induction n as [|n IH]; intros acc s fs r Hnd Hwf; simpl.
  - destruct (starts 125 (skip_ws s)); [intros [= <- <-]; by split|].
    destruct (starts 44 (skip_ws s)); discriminate.
  - destruct (starts 125 (skip_ws s)); [intros [= <- <-]; by split|].
    destruct (starts 44 (skip_ws s)) as [r1|]; [|discriminate].
    destruct (parse_member pv r1) as [[[k v] r2]|] eqn:Em; [|discriminate].
    apply IH.
    + by apply NoDup_obj_set.
    + apply Forall_obj_set; [|exact Hwf]. simpl. eapply parse_member_wf, Em.
Qed.

End ParserWf.

Lemma parse_value_wf fuel : forall s v r,
  parse_value fuel s = Some (v, r) -> wf_json v.
Proof.
  induction fuel as [|fuel IH]; intros s v r; [discriminate|].
  rewrite parse_value_S. destruct (skip_ws s) as [|c r0]; [discriminate|].
  destruct (c =? 110).
  { destruct (expect _ r0); [|discriminate]. intros [= <- <-]. constructor. }
  destruct (c =? 116).
  { destruct (expect _ r0); [|discriminate]. intros [= <- <-]. constructor. }
  destruct (c =? 102).
  { destruct (expect _ r0); [|discriminate]. intros [= <- <-]. constructor. }
  destruct (c =? 34).
  { destruct (parse_chars r0) as [[str r1]|]; [|discriminate].
    intros [= <- <-]. constructor. }
  destruct (c =? 91).
  { destruct (starts 93 (skip_ws r0)).
    { intros [= <- <-]. constructor. constructor. }
    destruct (parse_value fuel r0) as [[v0 r1]|] eqn:Ev; [|discriminate]. simpl.
    destruct (parse_elements _ _ r1) as [[vs r2]|] eqn:Ees; [|discriminate]. simpl.
    intros [= <- <-]. constructor. constructor; [eauto|].
    eapply parse_elements_wf; [exact IH | exact Ees]. }
  destruct (c =? 123).
  { destruct (starts 125 (skip_ws r0)).
    { intros [= <- <-]. constructor; constructor. }
    destruct (parse_member _ r0) as [[[k v0] r1]|] eqn:Em; [|discriminate]. simpl.
    destruct (parse_members _ _ _ r1) as [[fs r2]|] eqn:Ems; [|discriminate]. simpl.
    intros [= <- <-].
    eapply parse_members_wf in Ems as [Hnd Hwf]; [by constructor | exact IH | |].
    - unfold keys. simpl. repeat constructor. intros H. inversion H.
    - constructor; [|constructor]. simpl. eapply parse_member_wf; [exact IH | exact Em]. }
  destruct (parse_number (c :: r0)) as [[n r1]|]; [|discriminate].
  intros [= <- <-]. constructor.
Qed.

Lemma parse_wf text t : parse text = Some t -> wf_json t.
Proof.
  unfold parse.
  destruct (parse_value _ text) as [[v rest]|] eqn:E; [|discriminate].
  destruct (skip_ws rest); [|discriminate].
  intros [= <-]. eapply parse_value_wf, E.
Qed.

(* ===================================================================== *)
(** ** Schemas *)
(* ===================================================================== *)

Lemma assoc_elem_of {A} k (v : A) fields :
  assoc k fields = Some v -> (k, v) ∈ fields.
Proof.
  induction fields as [|[k' v'] fs IH]; simpl; [discriminate|].
  destruct (decide (k' = k)) as [->|Hne].
  - intros [= ->]. apply list_elem_of_here.
  - intros H. apply list_elem_of_further, IH, H.
Qed.

Lemma has_key_keys {A} k (fields : list (jsstring * A)) :
  has_key k fields = true <-> k ∈ keys fields.
Proof.
  unfold has_key, keys. induction fields as [|[k' v'] fs IH]; simpl.
  - split; [discriminate | intros H; inversion H].
  - destruct (decide (k' = k)) as [->|Hne].
    + split; [intros _; apply list_elem_of_here | reflexivity].
    + rewrite IH, elem_of_cons. split; [tauto|]. intros [Heq|H]; [congruence|exact H].
Qed.

Lemma assoc_keys {A} k (fields : list (jsstring * A)) v :
  assoc k fields = Some v -> k ∈ keys fields.
Proof. intros H. apply has_key_keys. unfold has_key. by rewrite H. Qed.

Lemma has_key_assoc {A} k (fields : list (jsstring * A)) :
  has_key k fields = true -> exists v, assoc k fields = Some v.
Proof. unfold has_key. destruct (assoc k fields); [eauto | discriminate]. Qed.

(** An object conforms when it has every required property and each of
    its properties is declared and conforms to its declaration. *)
Lemma conforms_object properties required fields :
  conforms (SObject properties required) (JObj fields) = true <->
  (forall k, k ∈ required -> has_key k fields = true) /\
  (forall k v, (k, v) ∈ fields ->
     exists sk, assoc k properties = Some sk /\ conforms sk v = true).
Proof.
  simpl. rewrite andb_true_iff, !forallb_forall. split; intros [H1 H2]; split.
  - intros k Hk. by apply H1, list_elem_of_In.
  - intros k v Hin. apply list_elem_of_In, H2 in Hin. simpl in Hin.
    revert Hin. clear. induction properties as [|[k' sk] ps IH]; [discriminate|].
    simpl. destruct (decide (k' = k)); [eauto | exact IH].
  - intros k Hk. by apply H1, list_elem_of_In.
  - intros [k v] Hin. apply list_elem_of_In, H2 in Hin as (sk & Ha & Hc).
    simpl. revert Ha. clear -Hc.
    induction properties as [|[k' sk'] ps IH]; [discriminate|].
    simpl. destruct (decide (k' = k)); [by intros [= ->] | exact IH].
Qed.

Lemma conforms_inv_object properties required v :
  conforms (SObject properties required) v = true -> exists fields, v = JObj fields.
Proof. destruct v; try discriminate. eauto. Qed.

Lemma conforms_inv_string v : conforms SString v = true -> exists s, v = JStr s.
Proof. destruct v; try discriminate. eauto. Qed.

Lemma NoDup_weekdays : NoDup weekdays.
Proof. apply (bool_decide_unpack _). vm_compute. exact I. Qed.

Lemma assoc_map_const {A} (x : A) k l :
  assoc k (map (fun d => (d, x)) l) = if bool_decide (k ∈ l) then Some x else None.
Proof.
  induction l as [|d l IH]; simpl; [reflexivity|].
  destruct (decide (d = k)) as [->|Hne].
  - rewrite bool_decide_eq_true_2; [reflexivity | apply list_elem_of_here].
  - rewrite IH. apply (f_equal (fun b : bool => if b then Some x else None)).
    apply bool_decide_ext. rewrite elem_of_cons. split; [tauto|].
    intros [Heq|H]; [congruence | exact H].
Qed.

(** An object over a schema that declares and requires the weekdays has
    the weekdays as its keys, each entry conforming to the day schema. *)
Lemma conforms_weekdays day_schema v :
  wf_json v ->
  conforms (SObject (map (fun d => (d, day_schema)) weekdays) weekdays) v = true ->
  exists fields,
    v = JObj fields /\ keys fields ≡ₚ weekdays /\
    Forall (fun kv => conforms day_schema (snd kv) = true) fields.
Proof.
  intros Hwf Hc. destruct (conforms_inv_object _ _ _ Hc) as [fields ->].
  apply conforms_object in Hc as [Hreq Hdecl].
  exists fields. split; [reflexivity|]. split.
  - apply NoDup_Permutation; [by inversion Hwf | apply NoDup_weekdays |].
    intros k. split.
    + intros Hin. unfold keys in Hin. apply list_elem_of_fmap in Hin as ([k' v] & -> & Hin).
      apply Hdecl in Hin as (sk & Ha & _). simpl.
      rewrite assoc_map_const in Ha. by case_bool_decide.
    + intros Hin. by apply has_key_keys, Hreq.
  - apply Forall_forall. intros [k v] Hin.
    apply Hdecl in Hin as (sk & Ha & Hc). simpl.
    rewrite assoc_map_const in Ha. case_bool_decide; [|discriminate].
    by injection Ha as <-.
Qed.

Lemma wf_json_assoc k fields v :
  wf_json (JObj fields) -> assoc k fields = Some v -> wf_json v.
Proof.
  intros Hwf Ha. inversion Hwf as [ | | | | |fs Hnd Hall]; subst.
  apply assoc_elem_of in Ha.
  rewrite Forall_forall in Hall. by apply (Hall (k, v)).
Qed.

Lemma conforms_meal v : conforms mealObjectSchema v = true -> is_meal v.
Proof.
  intros Hc. destruct (conforms_inv_object _ _ _ Hc) as [fs ->].
  apply conforms_object in Hc as [Hreq Hdecl].
  assert (Hstr : forall k, k ∈ [lit "breakfast"; lit "lunch"; lit "dinner"; lit "snacks"] ->
                 forall v, assoc k fs = Some v -> exists s, v = JStr s).
  { intros k Hk v Ha. apply assoc_elem_of, Hdecl in Ha as (sk & Hsk & Hc).
    apply conforms_inv_string.
    repeat (apply elem_of_cons in Hk as [->|Hk]; [vm_compute in Hsk; by injection Hsk as <-|]).
    inversion Hk. }
  assert (Hget : forall k, k ∈ [lit "breakfast"; lit "lunch"; lit "dinner"] ->
                 exists s, assoc k fs = Some (JStr s)).
  { intros k Hk. destruct (has_key_assoc k fs) as [v Hv]; [by apply Hreq|].
    destruct (Hstr k) with (v := v) as [s ->]; [|exact Hv|eauto].
    clear -Hk. rewrite !elem_of_cons in *. tauto. }
  destruct (Hget (lit "breakfast")) as [b Hb]; [set_solver|].
  destruct (Hget (lit "lunch")) as [l Hl]; [set_solver|].
  destruct (Hget (lit "dinner")) as [d Hd]; [set_solver|].
  exists fs, b, l, d. repeat split; try assumption.
  - destruct (assoc (lit "snacks") fs) as [v|] eqn:Es; [right|by left].
    destruct (Hstr (lit "snacks")) with (v := v) as [s ->]; [set_solver|exact Es|eauto].
  - intros k Hin. unfold keys in Hin.
    apply list_elem_of_fmap in Hin as ([k' v] & -> & Hin).
    apply Hdecl in Hin as (sk & Ha & _). simpl.
    apply assoc_keys in Ha. exact Ha.
Qed.

Lemma conforms_plan t :
  wf_json t -> conforms personalizedPlanSchema t = true -> seven_day_plan t.
Proof.
  intros Hwf Hc. destruct (conforms_inv_object _ _ _ Hc) as [fields ->].
  pose proof Hc as Hc'. apply conforms_object in Hc' as [Hreq Hdecl].
  destruct (has_key_assoc (lit "mealPlan") fields) as [mp Hmp];
    [apply Hreq; set_solver|].
  destruct (has_key_assoc (lit "workoutPlan") fields) as [wp Hwp];
    [apply Hreq; set_solver|].
  destruct (Hdecl _ _ (assoc_elem_of _ _ _ Hmp)) as (smp & Hsmp & Hcmp).
  destruct (Hdecl _ _ (assoc_elem_of _ _ _ Hwp)) as (swp & Hswp & Hcwp).
  vm_compute in Hsmp. injection Hsmp as <-.
  vm_compute in Hswp. injection Hswp as <-.
  apply (conforms_weekdays mealObjectSchema) in Hcmp
    as (mealPlan & -> & Hkm & Hmeals); [|eapply wf_json_assoc; eassumption].
  apply (conforms_weekdays SString) in Hcwp
    as (workoutPlan & -> & Hkw & Hworks); [|eapply wf_json_assoc; eassumption].
  exists fields, mealPlan, workoutPlan. repeat split; try assumption.
  - eapply Forall_impl; [exact Hmeals|]. intros kv. apply conforms_meal.
  - eapply Forall_impl; [exact Hworks|]. intros kv. apply conforms_inv_string.
Qed.

(* ===================================================================== *)
(** ** The plan a call returns *)
(* ===================================================================== *)

(** C1, as the code has it: [generatePersonalizedPlan] sends
    [personalizedPlanSchema] with its request and returns whatever JSON
    value the response text parses to.  Whenever that value conforms to
    the schema, the returned plan has a [mealPlan] and a [workoutPlan]
    whose keys are the seven weekdays, each once and no other; every
    [mealPlan] entry holds strings under [breakfast], [lunch], [dinner]
    and possibly [snacks], every [workoutPlan] entry is a string. *)
Theorem conforming_plan_has_seven_days env me g σ text t :
  service env (length (requests σ)) = Fulfilled (Some text) ->
  parse (trim text) = Some t ->
  conforms personalizedPlanSchema t = true ->
  exists r σ',
    generatePersonalizedPlan env me g σ = (Ok r, σ') /\
    (exists req, head (requests σ') = Some req /\
                 responseSchema req = personalizedPlanSchema) /\
    read (heap σ') r = Some t /\
    seven_day_plan t.
Proof.
  intros Hs Hp Hc. rewrite generatePersonalizedPlan_eq, Hs, Hp.
  do 2 eexists. split; [reflexivity|]. split; [|split].
  - exists (plan_request me g). split; reflexivity.
  - apply read_alloc_json, preserves_refl.
  - apply conforms_plan; [|exact Hc]. eapply parse_wf, Hp.
Qed.

Lemma conforming_plan_has_seven_days_witness :
  exists r σ',
    generatePersonalizedPlan (answering example_plan_text)
      example_metrics example_goal initial = (Ok r, σ') /\
    read (heap σ') r = Some example_plan /\
    seven_day_plan example_plan.
Proof.
  destruct (conforming_plan_has_seven_days (answering example_plan_text)
              example_metrics example_goal initial example_plan_text example_plan)
    as (r & σ' & H1 & _ & H2 & H3).
  - reflexivity.
  - vm_compute. reflexivity.
  - vm_compute. reflexivity.
  - exists r, σ'. auto.
Defined.

(** C1 as stated fails: for the valid input of the spec's example, a
    response [{}] is returned as the plan, and it has no [mealPlan]. *)
Lemma plan_without_days_is_returned :
  exists σ',
    generatePersonalizedPlan (answering (lit "{}")) example_metrics example_goal
      initial = (Ok (VRef 0%nat), σ') /\
    read (heap σ') (VRef 0%nat) = Some (JObj []) /\
    ~ seven_day_plan (JObj []).
Proof.
  eexists. split; [vm_compute; reflexivity|]. split; [vm_compute; reflexivity|].
  intros (fields & mp & wp & Heq & Hmp & _). injection Heq as <-. discriminate.
Qed.

(* ===================================================================== *)
(** ** [JSON.parse] inverts [JSON.stringify] *)
(* ===================================================================== *)

(** *** Digits *)

Lemma read_digits_uint_chars d rest :
  no_digit_ahead rest -> read_digits (uint_chars d ++ rest) = (d, rest).
Proof.
  intros Hrest. induction d; simpl; try (rewrite IHd; reflexivity).
  destruct rest as [|c r]; [reflexivity|]. simpl in *. by rewrite Hrest.
Qed.

Lemma uint_chars_head d :
  is_nil d = false ->
  exists c r, uint_chars d = c :: r /\ is_digit c = true.
Proof. destruct d; simpl; try discriminate; intros _; eauto. Qed.

Lemma nzhead_no_zero d : leading_zero (unorm d) = false.
Proof.
  unfold unorm. induction d; simpl; try reflexivity. exact IHd.
Qed.

Lemma to_uint_normal p :
  is_nil (Pos.to_uint p) = false /\ leading_zero (Pos.to_uint p) = false.
Proof.
  split.
  - pose proof (DecimalPos.Unsigned.to_uint_nonnil p) as H.
    destruct (Pos.to_uint p); [by destruct H | reflexivity..].
  - pose proof (DecimalPos.Unsigned.to_of (Pos.to_uint p)) as H.
    rewrite DecimalPos.Unsigned.of_to in H. simpl in H.
    rewrite H. apply nzhead_no_zero.
Qed.

(** The decimal text of an integer: an optional minus sign, then digits
    without a leading zero. *)
Lemma decimal_shape z :
  exists neg d,
    decimal z = (if neg : bool then [45] else []) ++ uint_chars d /\
    is_nil d = false /\ leading_zero d = false /\
    signed neg (Z.of_uint d) = z.
Proof.
  pose proof (DecimalZ.of_to z) as Hz. unfold decimal.
  destruct z as [|p|p]; simpl in *.
  - exists false, (D0 Nil). repeat split.
  - exists false, (Pos.to_uint p). destruct (to_uint_normal p). repeat split; auto.
  - exists true, (Pos.to_uint p). destruct (to_uint_normal p). repeat split; auto.
Qed.

Lemma is_digit_range c : is_digit c = true -> 48 <= c <= 57.
Proof. unfold is_digit. rewrite andb_true_iff, !N.leb_le. tauto. Qed.

Lemma delimited_no_digit rest : delimited rest -> no_digit_ahead rest.
Proof.
  destruct rest as [|c r]; [done|]. simpl. intros [-> | [-> | ->]]; reflexivity.
Qed.

Lemma strip_minus_decimal neg d tail :
  is_nil d = false ->
  strip_minus ((if neg : bool then [45] else []) ++ uint_chars d ++ tail)
  = (neg, uint_chars d ++ tail).
Proof.
  intros Hd. destruct neg; [reflexivity|].
  destruct (uint_chars_head d Hd) as (c & r & -> & Hc). simpl.
  apply is_digit_range in Hc.
  destruct (c =? 45) eqn:E; [apply N.eqb_eq in E; lia | reflexivity].
Qed.

Lemma strip_sign_decimal neg d tail :
  is_nil d = false ->
  strip_sign ((if neg : bool then [45] else []) ++ uint_chars d ++ tail)
  = (neg, uint_chars d ++ tail).
Proof.
  intros Hd. destruct neg; [reflexivity|].
  destruct (uint_chars_head d Hd) as (c & r & -> & Hc). simpl.
  apply is_digit_range in Hc.
  destruct (c =? 45) eqn:E; [apply N.eqb_eq in E; lia|].
  destruct (c =? 43) eqn:E'; [apply N.eqb_eq in E'; lia | reflexivity].
Qed.

(** *** Numbers *)

Lemma parse_exponent_delimited rest :
  delimited rest -> parse_exponent rest = Some (0%Z, rest).
Proof.
  destruct rest as [|c r]; [reflexivity|]. simpl.
  intros [-> | [-> | ->]]; reflexivity.
Qed.

Lemma parse_fraction_none s :
  match s with [] => True | c :: _ => c <> 46 end ->
  parse_fraction s = Some (None, s).
Proof.
  unfold parse_fraction, starts. destruct s as [|c r]; [reflexivity|].
  intros Hc. destruct (c =? 46) eqn:E; [apply N.eqb_eq in E; done | reflexivity].
Qed.

Lemma parse_number_print n rest :
  overflows n = false ->
  delimited rest -> parse_number (print_number n ++ rest) = Some (n, rest).
Proof.
  intros Hfin Hrest. unfold print_number. rewrite Hfin. clear Hfin.
  destruct n as [m e]. unfold print_decimal. simpl.
  destruct (decimal_shape m) as (neg & d & -> & Hnil & Hlz & Hm).
  unfold parse_number. rewrite <- !app_assoc.
  rewrite strip_minus_decimal by exact Hnil.
  destruct (e =? 0)%Z eqn:Ee.
  - apply Z.eqb_eq in Ee. subst e. simpl.
    rewrite read_digits_uint_chars by (by apply delimited_no_digit).
    rewrite Hnil, Hlz. simpl.
    rewrite parse_fraction_none
      by (destruct rest as [|c r]; [done|]; simpl in Hrest; intros ->;
          destruct Hrest as [?|[?|?]]; discriminate).
    rewrite parse_exponent_delimited by exact Hrest.
    rewrite Hm. reflexivity.
  - rewrite read_digits_uint_chars by reflexivity.
    rewrite Hnil, Hlz. simpl.
    destruct (decimal_shape e) as (eneg & de & -> & Henil & _ & He).
    rewrite <- app_assoc. rewrite strip_sign_decimal by exact Henil.
    rewrite read_digits_uint_chars by (by apply delimited_no_digit).
    rewrite Henil, Hm, He. by rewrite Z.sub_0_r.
Qed.

Lemma decimal_head z :
  exists c r, decimal z = c :: r /\ (c = 45 \/ is_digit c = true).
Proof.
  destruct (decimal_shape z) as (neg & d & -> & Hnil & _ & _).
  destruct neg; simpl; [eauto|].
  destruct (uint_chars_head d Hnil) as (c & r & -> & Hc). eauto.
Qed.

(** *** Strings *)

Lemma parse_chars_cons c r :
  parse_chars (c :: r) =
  if c =? 34 then Some ([], r)
  else if c =? 92 then
    match r with
    | [] => None
    | e :: r1 =>
        if e =? 117 then
          match r1 with
          | h1 :: h2 :: h3 :: h4 :: r2 =>
              match hex4 h1 h2 h3 h4 with
              | Some u => cons_fst u (parse_chars r2)
              | None => None
              end
          | _ => None
          end
        else
          match unescape e with
          | Some u => cons_fst u (parse_chars r1)
          | None => None
          end
    end
  else if c <? 32 then None
  else cons_fst c (parse_chars r).
Proof. reflexivity. Qed.

Lemma hex4_control (n : nat) :
  (n < 32)%nat ->
  hex4 48 48 (hex_digit (N.of_nat n / 16)) (hex_digit (N.of_nat n mod 16))
  = Some (N.of_nat n).
Proof.
  intros Hn. do 32 (destruct n as [|n]; [vm_compute; reflexivity|]). lia.
Qed.

Lemma parse_chars_escape c tl :
  parse_chars (escape_char c ++ tl) = cons_fst c (parse_chars tl).
Proof.
  unfold escape_char.
  destruct (c =? 34) eqn:E34; [apply N.eqb_eq in E34; subst; reflexivity|].
  destruct (c =? 92) eqn:E92; [apply N.eqb_eq in E92; subst; reflexivity|].
  destruct (c =? 8) eqn:E8; [apply N.eqb_eq in E8; subst; reflexivity|].
  destruct (c =? 9) eqn:E9; [apply N.eqb_eq in E9; subst; reflexivity|].
  destruct (c =? 10) eqn:E10; [apply N.eqb_eq in E10; subst; reflexivity|].
  destruct (c =? 12) eqn:E12; [apply N.eqb_eq in E12; subst; reflexivity|].
  destruct (c =? 13) eqn:E13; [apply N.eqb_eq in E13; subst; reflexivity|].
  destruct (c <? 32) eqn:Elt.
  - apply N.ltb_lt in Elt.
    change ([92; 117; 48; 48; hex_digit (c / 16); hex_digit (c mod 16)] ++ tl)
      with (92 :: 117 :: 48 :: 48 :: hex_digit (c / 16) :: hex_digit (c mod 16) :: tl).
    rewrite parse_chars_cons.
    change (92 =? 34) with false. change (92 =? 92) with true.
    change (117 =? 117) with true. cbv iota.
    rewrite <- (N2Nat.id c). rewrite hex4_control by lia. reflexivity.
  - change ([c] ++ tl) with (c :: tl). rewrite parse_chars_cons.
    by rewrite E34, E92, Elt.
Qed.

Lemma hex_val_digit (n : nat) :
  (n < 16)%nat -> hex_val (hex_digit (N.of_nat n)) = Some (N.of_nat n).
Proof.
  intros Hn. do 16 (destruct n as [|n]; [vm_compute; reflexivity|]). lia.
Qed.

Lemma hex4_unit c :
  c < 65536 ->
  hex4 (hex_digit (c / 4096)) (hex_digit (c / 256 mod 16))
       (hex_digit (c / 16 mod 16)) (hex_digit (c mod 16)) = Some c.
Proof.
  intros Hc. unfold hex4.
  assert (H1 : c / 4096 < 16) by (apply N.Div0.div_lt_upper_bound; lia).
  assert (H2 : c / 256 mod 16 < 16) by (apply N.mod_lt; lia).
  assert (H3 : c / 16 mod 16 < 16) by (apply N.mod_lt; lia).
  assert (H4 : c mod 16 < 16) by (apply N.mod_lt; lia).
  rewrite <- (N2Nat.id (c / 4096)), hex_val_digit by lia.
  rewrite <- (N2Nat.id (c / 256 mod 16)), hex_val_digit by lia.
  rewrite <- (N2Nat.id (c / 16 mod 16)), hex_val_digit by lia.
  rewrite <- (N2Nat.id (c mod 16)), hex_val_digit by lia.
  cbn [mbind option_bind]. rewrite !N2Nat.id. f_equal.
  clear H1 H2 H3 H4. zify. Z.to_euclidean_division_equations. lia.
Qed.

Lemma parse_chars_unicode_escape c tl :
  c < 65536 -> parse_chars (unicode_escape c ++ tl) = cons_fst c (parse_chars tl).
Proof.
  intros Hc. unfold unicode_escape.
  change ([92; 117; hex_digit (c / 4096); hex_digit (c / 256 mod 16);
           hex_digit (c / 16 mod 16); hex_digit (c mod 16)] ++ tl)
    with (92 :: 117 :: hex_digit (c / 4096) :: hex_digit (c / 256 mod 16)
            :: hex_digit (c / 16 mod 16) :: hex_digit (c mod 16) :: tl).
  rewrite parse_chars_cons.
  change (92 =? 34) with false. change (92 =? 92) with true.
  change (117 =? 117) with true. cbv iota.
  by rewrite hex4_unit.
Qed.

Lemma parse_chars_raw c tl :
  55296 <= c -> parse_chars (c :: tl) = cons_fst c (parse_chars tl).
Proof.
  intros Hc. rewrite parse_chars_cons.
  destruct (N.eqb_spec c 34); [lia|]. destruct (N.eqb_spec c 92); [lia|].
  destruct (N.ltb_spec c 32); [lia | reflexivity].
Qed.

Lemma parse_chars_print s rest :
  parse_chars (quote_chars s ++ 34 :: rest) = Some (s, rest).
Proof.
  assert (H : forall n s, (length s <= n)%nat ->
            parse_chars (quote_chars s ++ 34 :: rest) = Some (s, rest)).
  { clear s. intros n. induction n as [|n IH]; intros s Hn.
    - destruct s; [reflexivity | simpl in Hn; lia].
    - destruct s as [|c r]; [reflexivity|]. cbn [length] in Hn. cbn [quote_chars].
      unfold is_leading_surrogate, is_trailing_surrogate.
      destruct (N.leb_spec 55296 c); cbn [andb].
      + destruct (N.leb_spec c 56319).
        * destruct r as [|d r'].
          -- rewrite parse_chars_unicode_escape by lia. reflexivity.
          -- destruct (N.leb_spec 56320 d); cbn [andb];
               [destruct (N.leb_spec d 57343)|].
             ++ cbn [app length] in *. rewrite !parse_chars_raw by lia.
                by rewrite IH by lia.
             ++ rewrite <- app_assoc, parse_chars_unicode_escape by lia.
                by rewrite IH by lia.
             ++ rewrite <- app_assoc, parse_chars_unicode_escape by lia.
                by rewrite IH by lia.
        * destruct (N.leb_spec 56320 c); cbn [andb]; [|lia].
          destruct (N.leb_spec c 57343).
          -- rewrite <- app_assoc, parse_chars_unicode_escape by lia.
             by rewrite IH by lia.
          -- rewrite <- app_assoc, parse_chars_escape. by rewrite IH by lia.
      + destruct (N.leb_spec 56320 c); cbn [andb]; [lia|].
        rewrite <- app_assoc, parse_chars_escape. by rewrite IH by lia. }
  by apply (H (length s)).
Qed.

(** *** Values *)

Lemma value_start_not_ws c : value_start c -> is_json_ws c = false.
Proof.
  intros [->|[->|[->|[->|[->|[->|[->|H]]]]]]]; try reflexivity.
  apply is_digit_range in H. unfold is_json_ws.
  repeat (apply orb_false_intro); apply N.eqb_neq; lia.
Qed.

Lemma stringify_head v : exists c r, stringify v = c :: r /\ value_start c.
Proof.
  unfold value_start. destruct v as [ | [|] | n | s | elems | fields];
    cbn [stringify print_string];
    try (do 2 eexists; split; [reflexivity|]; tauto).
  unfold print_number. destruct (overflows n).
  - do 2 eexists. split; [reflexivity|]. tauto.
  - unfold print_decimal.
    destruct (decimal_head (mantissa n)) as (c & r & -> & Hc).
    simpl. do 2 eexists. split; [reflexivity|]. tauto.
Qed.

Lemma skip_ws_start c r : is_json_ws c = false -> skip_ws (c :: r) = c :: r.
Proof. intros H. simpl. by rewrite H. Qed.

Lemma skip_ws_stringify v rest :
  skip_ws (stringify v ++ rest) = stringify v ++ rest.
Proof.
  destruct (stringify_head v) as (c & r & -> & Hc).
  apply skip_ws_start, value_start_not_ws, Hc.
Qed.

(** A value does not start with a comma or a closing bracket. *)
Lemma starts_stringify c v rest :
  c = 44 \/ c = 93 \/ c = 125 ->
  starts c (skip_ws (stringify v ++ rest)) = None.
Proof.
  intros Hc. rewrite skip_ws_stringify.
  destruct (stringify_head v) as (c' & r & -> & Hc'). simpl.
  destruct (c' =? c) eqn:E; [|reflexivity]. apply N.eqb_eq in E. subst c'.
  exfalso. unfold value_start in Hc'.
  destruct Hc as [-> | [-> | ->]];
    destruct Hc' as [?|[?|[?|[?|[?|[?|[?|?]]]]]]]; discriminate.
Qed.

Lemma parse_value_number fuel c r :
  c = 45 \/ is_digit c = true ->
  parse_value (S fuel) (c :: r) =
  match parse_number (c :: r) with
  | Some (n, r') => Some (JNum n, r')
  | None => None
  end.
Proof.
  intros Hc. rewrite parse_value_S.
  assert (Hr : c = 45 \/ 48 <= c <= 57).
  { destruct Hc as [?|H]; [by left | right; by apply is_digit_range]. }
  rewrite skip_ws_start
    by (unfold is_json_ws; repeat (apply orb_false_intro); apply N.eqb_neq; lia).
  replace (c =? 110) with false by (symmetry; apply N.eqb_neq; lia).
  replace (c =? 116) with false by (symmetry; apply N.eqb_neq; lia).
  replace (c =? 102) with false by (symmetry; apply N.eqb_neq; lia).
  replace (c =? 34) with false by (symmetry; apply N.eqb_neq; lia).
  replace (c =? 91) with false by (symmetry; apply N.eqb_neq; lia).
  replace (c =? 123) with false by (symmetry; apply N.eqb_neq; lia).
  destruct (parse_number (c :: r)) as [[n r']|]; reflexivity.
Qed.

Lemma parse_value_string fuel s rest :
  parse_value (S fuel) (print_string s ++ rest) = Some (JStr s, rest).
Proof.
  rewrite parse_value_S. unfold print_string.
  change ((34 :: quote_chars s ++ [34]) ++ rest)
    with (34 :: (quote_chars s ++ [34]) ++ rest).
  rewrite skip_ws_start by reflexivity.
  change (34 =? 110) with false. change (34 =? 116) with false.
  change (34 =? 102) with false. change (34 =? 34) with true. cbv iota.
  rewrite <- app_assoc. change ([34] ++ rest) with (34 :: rest).
  rewrite parse_chars_print. reflexivity.
Qed.

Lemma commas_cons x xs : commas (x :: xs) = x ++ more xs.
Proof.
  revert x. induction xs as [|y ys IH]; intros x; simpl.
  - by rewrite app_nil_r.
  - f_equal. f_equal. apply IH.
Qed.

Lemma length_more xs : (length xs <= length (more xs))%nat.
Proof.
  induction xs as [|x xs IH]; simpl; [lia|]. rewrite length_app. lia.
Qed.

Lemma obj_set_fresh {A} k (v : A) acc :
  k ∉ keys acc -> obj_set k v acc = acc ++ [(k, v)].
Proof.
  unfold keys. induction acc as [|[k' v'] acc IH]; simpl; intros Hk; [reflexivity|].
  apply not_elem_of_cons in Hk as [Hne Hk].
  destruct (decide (k' = k)); [congruence|]. by rewrite IH.
Qed.

Lemma parse_elements_more fuel es rest :
  Forall (parses_back fuel) es ->
  forall n, (length es <= n)%nat ->
    parse_elements (parse_value fuel) n (more (map stringify es) ++ 93 :: rest)
    = Some (es, rest).
Proof.
  induction 1 as [|e es He Hes IH]; intros n Hn.
  - simpl. destruct n; reflexivity.
  - destruct n as [|n]; [simpl in Hn; lia|].
    change (more (map stringify (e :: es)) ++ 93 :: rest)
      with (44 :: (stringify e ++ more (map stringify es)) ++ 93 :: rest).
    cbn [parse_elements]. rewrite skip_ws_start by reflexivity.
    change (starts 93 (44 :: ?x)) with (@None jsstring).
    change (starts 44 (44 :: ?x)) with (Some x). cbv iota.
    rewrite <- app_assoc. rewrite He.
    + rewrite IH by (simpl in Hn; lia). reflexivity.
    + destruct (more (map stringify es)) as [|c r] eqn:E; simpl; [tauto|].
      destruct es as [|e' es']; [discriminate|]. injection E as <- _. tauto.
Qed.

Lemma parse_member_text fuel k v rest :
  parses_back fuel v -> delimited rest ->
  parse_member (parse_value fuel) (member_text (k, v) ++ rest) = Some (k, v, rest).
Proof.
  intros Hv Hrest. unfold parse_member, member_text, print_string. simpl fst. simpl snd.
  change (((34 :: quote_chars k ++ [34]) ++ 58 :: stringify v) ++ rest)
    with (34 :: ((quote_chars k ++ [34]) ++ 58 :: stringify v) ++ rest).
  rewrite skip_ws_start by reflexivity.
  change (starts 34 (34 :: ?x)) with (Some x). cbn [mbind option_bind].
  rewrite <- !app_assoc. change ([34] ++ ?x) with (34 :: x).
  rewrite parse_chars_print. cbn [mbind option_bind].
  change ((58 :: stringify v) ++ rest) with (58 :: stringify v ++ rest).
  rewrite skip_ws_start by reflexivity.
  change (starts 58 (58 :: ?x)) with (Some x). cbn [mbind option_bind].
  rewrite Hv by exact Hrest. reflexivity.
Qed.

Lemma parse_members_more fuel fs rest :
  Forall (fun kv => parses_back fuel (snd kv)) fs ->
  forall acc n, NoDup (keys (acc ++ fs)) -> (length fs <= n)%nat ->
    parse_members (parse_value fuel) n acc
      (more (map member_text fs) ++ 125 :: rest)
    = Some (acc ++ fs, rest).
Proof.
  induction 1 as [|[k v] fs Hkv Hfs IH]; intros acc n Hnd Hn.
  - simpl. rewrite app_nil_r. destruct n; reflexivity.
  - destruct n as [|n]; [simpl in Hn; lia|].
    change (more (map member_text ((k, v) :: fs)) ++ 125 :: rest)
      with (44 :: (member_text (k, v) ++ more (map member_text fs)) ++ 125 :: rest).
    cbn [parse_members]. rewrite skip_ws_start by reflexivity.
    change (starts 125 (44 :: ?x)) with (@None jsstring).
    change (starts 44 (44 :: ?x)) with (Some x). cbv iota.
    rewrite <- app_assoc. rewrite parse_member_text.
    + rewrite obj_set_fresh.
      * rewrite IH; [by rewrite <- app_assoc | by rewrite <- app_assoc | simpl in Hn; lia].
      * unfold keys in *. rewrite map_app in Hnd. simpl in Hnd.
        apply NoDup_app in Hnd as (_ & Hdisj & _).
        intros Hin. apply (Hdisj k Hin). apply list_elem_of_here.
    + exact Hkv.
    + destruct (more (map member_text fs)) as [|c r] eqn:E; simpl; [tauto|].
      destruct fs as [|kv' fs']; [discriminate|]. injection E as <- _. tauto.
Qed.


Lemma max_depth_lt es f :
  (max_depth es < f)%nat -> Forall (fun e => (depth e < f)%nat) es.
Proof.
  induction es as [|e es IH]; simpl; intros H; constructor; [lia | apply IH; lia].
Qed.

Lemma max_depth_fields_lt fs f :
  (max_depth_fields fs < f)%nat ->
  Forall (fun kv : jsstring * json => (depth (snd kv) < f)%nat) fs.
Proof.
  induction fs as [|e es IH]; simpl; intros H; constructor; [lia | apply IH; lia].
Qed.

Lemma delimited_more xs rest c :
  c = 93 \/ c = 125 -> delimited (more xs ++ c :: rest).
Proof.
  intros Hc. destruct xs as [|x xs]; simpl; tauto.
Qed.

Lemma parse_value_stringify v :
  wf_json v -> finite v = true ->
  forall fuel, (depth v < fuel)%nat -> parses_back fuel v.
Proof.
  induction v as [ | b | n | s | elems IH | fields IH] using json_ind';
    intros Hwf Hfin [|f] Hd rest Hrest; try lia.
  - reflexivity.
  - destruct b; reflexivity.
  - change (stringify (JNum n)) with (print_number n).
    cbn [finite] in Hfin. apply negb_true_iff in Hfin.
    assert (Hh : exists c r, print_number n ++ rest = c :: r /\
                             (c = 45 \/ is_digit c = true)).
    { unfold print_number. rewrite Hfin. unfold print_decimal.
      destruct (decimal_head (mantissa n)) as (c & r & -> & Hc).
      simpl. eauto. }
    destruct Hh as (c & r & Heq & Hc).
    rewrite Heq, (parse_value_number f c r Hc), <- Heq.
    by rewrite parse_number_print.
  - apply parse_value_string.
  - inversion Hwf as [ | | | |es Hwfs| ]; subst.
    change (depth (JArr elems)) with (S (max_depth elems)) in Hd.
    cbn [finite] in Hfin. rewrite forallb_forall in Hfin.
    assert (Hback : Forall (parses_back f) elems).
    { assert (Hds := max_depth_lt elems f ltac:(lia)).
      rewrite Forall_forall in IH, Hwfs, Hds. apply Forall_forall.
      intros e He. apply IH; auto. by apply Hfin, list_elem_of_In. }
    destruct Hback as [|e es He Hes]; [reflexivity|].
    change (stringify (JArr (e :: es)) ++ rest)
      with (91 :: (commas (map stringify (e :: es)) ++ [93]) ++ rest).
    cbn [map]. rewrite commas_cons, <- !app_assoc.
    change ([93] ++ rest) with (93 :: rest).
    rewrite parse_value_S, skip_ws_start by reflexivity.
    change (91 =? 110) with false. change (91 =? 116) with false.
    change (91 =? 102) with false. change (91 =? 34) with false.
    change (91 =? 91) with true. cbv iota.
    rewrite starts_stringify by tauto.
    rewrite He by (apply delimited_more; tauto). cbn [mbind option_bind].
    rewrite (parse_elements_more f es rest Hes).
    + reflexivity.
    + rewrite length_app. pose proof (length_more (map stringify es)) as Hl.
      rewrite length_map in Hl. lia.
  - inversion Hwf as [ | | | | |fs Hnd Hwfs]; subst.
    change (depth (JObj fields)) with (S (max_depth_fields fields)) in Hd.
    cbn [finite] in Hfin. rewrite forallb_forall in Hfin.
    assert (Hback : Forall (fun kv => parses_back f (snd kv)) fields).
    { assert (Hds := max_depth_fields_lt fields f ltac:(lia)).
      rewrite Forall_forall in IH, Hwfs, Hds. apply Forall_forall.
      intros e He. apply IH; auto. by apply (Hfin e), list_elem_of_In. }
    destruct Hback as [|[k v] fs Hkv Hfs]; [reflexivity|].
    change (stringify (JObj ((k, v) :: fs)) ++ rest)
      with (123 :: (commas (map member_text ((k, v) :: fs)) ++ [125]) ++ rest).
    cbn [map]. rewrite commas_cons, <- !app_assoc.
    change ([125] ++ rest) with (125 :: rest).
    rewrite parse_value_S, skip_ws_start by reflexivity.
    change (123 =? 110) with false. change (123 =? 116) with false.
    change (123 =? 102) with false. change (123 =? 34) with false.
    change (123 =? 91) with false. change (123 =? 123) with true. cbv iota.
    replace (starts 125 (skip_ws (member_text (k, v) ++
               more (map member_text fs) ++ 125 :: rest))) with (@None jsstring)
      by reflexivity.
    rewrite parse_member_text; [|exact Hkv|apply delimited_more; tauto].
    cbn [mbind option_bind].
    rewrite (parse_members_more f fs rest Hfs [(k, v)]).
    + reflexivity.
    + exact Hnd.
    + rewrite length_app. pose proof (length_more (map member_text fs)) as Hl.
      rewrite length_map in Hl. lia.
Qed.

Lemma depth_le_more es :
  Forall (fun e => (depth e <= length (stringify e))%nat) es ->
  (max_depth es <= length (more (map stringify es)))%nat.
Proof.
  induction 1 as [|e es He Hes IH]; [simpl; lia|].
  change (max_depth (e :: es)) with (Nat.max (depth e) (max_depth es)).
  change (more (map stringify (e :: es)))
    with (44 :: stringify e ++ more (map stringify es)).
  cbn [length]. rewrite length_app. lia.
Qed.

Lemma depth_le_more_fields fs :
  Forall (fun kv : jsstring * json =>
            (depth (snd kv) <= length (stringify (snd kv)))%nat) fs ->
  (max_depth_fields fs <= length (more (map member_text fs)))%nat.
Proof.
  induction 1 as [|[k v] fs He Hes IH]; [simpl; lia|].
  change (max_depth_fields ((k, v) :: fs))
    with (Nat.max (depth v) (max_depth_fields fs)).
  change (more (map member_text ((k, v) :: fs)))
    with (44 :: (print_string k ++ 58 :: stringify v) ++ more (map member_text fs)).
  cbn [length snd] in *. rewrite !length_app. cbn [length]. lia.
Qed.

Lemma depth_le_length v : (depth v <= length (stringify v))%nat.
Proof.
  induction v as [ | b | n | s | elems IH | fields IH] using json_ind';
    try (simpl; lia).
  - apply depth_le_more in IH.
    change (depth (JArr elems)) with (S (max_depth elems)).
    destruct elems as [|e es]; [simpl; lia|].
    change (stringify (JArr (e :: es)))
      with (91 :: commas (map stringify (e :: es)) ++ [93]).
    cbn [map] in *. rewrite commas_cons.
    change (more (stringify e :: map stringify es))
      with (44 :: stringify e ++ more (map stringify es)) in IH.
    change (max_depth (e :: es)) with (Nat.max (depth e) (max_depth es)) in *.
    simpl length in *. rewrite !length_app in *. simpl. lia.
  - apply depth_le_more_fields in IH.
    change (depth (JObj fields)) with (S (max_depth_fields fields)).
    destruct fields as [|e es]; [simpl; lia|].
    change (stringify (JObj (e :: es)))
      with (123 :: commas (map member_text (e :: es)) ++ [125]).
    cbn [map] in *. rewrite commas_cons.
    change (more (member_text e :: map member_text es))
      with (44 :: member_text e ++ more (map member_text es)) in IH.
    change (max_depth_fields (e :: es))
      with (Nat.max (depth (snd e)) (max_depth_fields es)) in *.
    simpl length in *. rewrite !length_app in *. cbn [length] in *. lia.
Qed.

(** Parsing the text of a well-formed value without infinities gives
    the value back. *)
Theorem parse_stringify v :
  wf_json v -> finite v = true -> parse (stringify v) = Some v.
Proof.
  intros Hwf Hfin. unfold parse.
  pose proof (parse_value_stringify v Hwf Hfin (S (length (stringify v)))) as H.
  specialize (H ltac:(pose proof (depth_le_length v); lia) [] I).
  rewrite app_nil_r in H. rewrite H. reflexivity.
Qed.

(** *** Infinities *)

Lemma jsonify_finite v : finite (jsonify v) = true.
Proof.
  induction v as [ | b | n | s | elems IH | fields IH] using json_ind';
    try reflexivity.
  - cbn [jsonify]. destruct (overflows n) eqn:E; [reflexivity|].
    cbn [finite]. by rewrite E.
  - cbn [jsonify finite]. apply forallb_forall. intros x Hx.
    apply in_map_iff in Hx as (e & <- & He).
    rewrite Forall_forall in IH. by apply IH, list_elem_of_In.
  - cbn [jsonify finite]. apply forallb_forall. intros x Hx.
    apply in_map_iff in Hx as (kv & <- & Hkv).
    rewrite Forall_forall in IH. by apply (IH kv), list_elem_of_In.
Qed.

Lemma jsonify_of_finite v : finite v = true -> jsonify v = v.
Proof.
  induction v as [ | b | n | s | elems IH | fields IH] using json_ind';
    try reflexivity; cbn [finite jsonify]; intros Hfin.
  - apply negb_true_iff in Hfin. by rewrite Hfin.
  - f_equal. rewrite forallb_forall in Hfin. rewrite Forall_forall in IH.
    rewrite <- (map_id elems) at 2. apply map_ext_in.
    intros e He. apply IH; [by apply list_elem_of_In | by apply Hfin].
  - f_equal. rewrite forallb_forall in Hfin. rewrite Forall_forall in IH.
    rewrite <- (map_id fields) at 2. apply map_ext_in.
    intros [k v] He. cbn [fst snd]. f_equal.
    apply (IH (k, v)); [by apply list_elem_of_In | by apply (Hfin (k, v))].
Qed.

Lemma keys_jsonify fields :
  keys (map (fun kv : jsstring * json => (fst kv, jsonify (snd kv))) fields)
  = keys fields.
Proof. unfold keys. rewrite map_map. reflexivity. Qed.

Lemma jsonify_wf v : wf_json v -> wf_json (jsonify v).
Proof.
  induction v as [ | b | n | s | elems IH | fields IH] using json_ind';
    intros Hwf; try exact Hwf.
  - cbn [jsonify]. destruct (overflows n); constructor.
  - inversion Hwf as [ | | | |es Hwfs| ]; subst. cbn [jsonify]. constructor.
    rewrite Forall_forall in *. intros x Hx.
    apply list_elem_of_fmap in Hx as (e & -> & He). apply IH; auto.
  - inversion Hwf as [ | | | | |fs Hnd Hwfs]; subst. cbn [jsonify]. constructor.
    + by rewrite keys_jsonify.
    + rewrite Forall_forall in *. intros x Hx.
      apply list_elem_of_fmap in Hx as (kv & -> & Hkv). cbn [snd].
      apply (IH kv); auto.
Qed.

(** The text of a value is the text of what JSON text carries of it. *)
Lemma stringify_jsonify v : stringify (jsonify v) = stringify v.
Proof.
  induction v as [ | b | n | s | elems IH | fields IH] using json_ind';
    try reflexivity.
  - cbn [jsonify]. destruct (overflows n) eqn:E; [|reflexivity].
    cbn [stringify]. unfold print_number. by rewrite E.
  - cbn [jsonify stringify]. do 3 f_equal. rewrite map_map.
    apply map_ext_in. intros e He. rewrite Forall_forall in IH.
    by apply IH, list_elem_of_In.
  - cbn [jsonify stringify]. do 3 f_equal. rewrite map_map.
    apply map_ext_in. intros [k v] He. cbn [fst snd]. rewrite Forall_forall in IH.
    pose proof (IH (k, v) ltac:(by apply list_elem_of_In)) as H.
    cbn [snd] in H. by rewrite H.
Qed.

(** Parsing the text of a well-formed value gives the value back with
    [null] in place of every infinity. *)
Theorem parse_stringify_jsonify v :
  wf_json v -> parse (stringify v) = Some (jsonify v).
Proof.
  intros Hwf. rewrite <- stringify_jsonify.
  apply parse_stringify; [by apply jsonify_wf | apply jsonify_finite].
Qed.

(* ===================================================================== *)
(** ** Reading the history *)
(* ===================================================================== *)

Lemma read_val_wf n : forall h v t,
  heap_wf h -> read_val n h v = Some t -> wf_json t.
Proof.
  induction n as [|n IH]; intros h v t Hh Hr.
  - destruct v; simpl in Hr; try discriminate; injection Hr as <-; constructor.
  - destruct v as [ | b | k | s | l]; simpl in Hr;
      try (injection Hr as <-; constructor).
    destruct (h !! l) as [[vs|fs]|] eqn:El; [| |discriminate].
    + destruct (mapM (read_val n h) vs) as [ts|] eqn:E; [|discriminate].
      injection Hr as <-. constructor. apply mapM_Some in E. clear El.
      induction E as [|x y xs ys Hxy _ IHE]; constructor;
        [eapply IH; eassumption | exact IHE].
    + destruct (mapM (fun kv => pair (fst kv) <$> read_val n h (snd kv)) fs)
        as [ts|] eqn:E; [|discriminate].
      injection Hr as <-. apply mapM_Some in E.
      assert (Hnd : NoDup (keys fs)).
      { unfold heap_wf in Hh. rewrite Forall_lookup in Hh. apply (Hh _ _ El). }
      assert (Hk : keys ts = keys fs /\ Forall (fun kv => wf_json (snd kv)) ts).
      { clear Hnd El. unfold keys.
        induction E as [|x y xs ys Hxy _ [IHk IHw]]; [by split|].
        destruct (read_val n h (snd x)) as [tx|] eqn:Ex; [|discriminate].
        simpl in Hxy. injection Hxy as <-. simpl. split; [by rewrite IHk|].
        constructor; [simpl; eapply IH; eassumption | exact IHw]. }
      destruct Hk as [Hk Hw]. constructor; [by rewrite Hk | exact Hw].
Qed.

Lemma meal_json_wf h m t : heap_wf h -> meal_json h m = Some t -> wf_json t.
Proof.
  unfold meal_json. intros Hh.
  destruct (read h (nutritionalInfo m)) as [info|] eqn:E; [|discriminate].
  intros [= <-]. constructor.
  - apply (bool_decide_unpack _). vm_compute. exact I.
  - apply Forall_cons; split; [constructor|].
    apply Forall_cons; split; [constructor|].
    apply Forall_cons; split; [eapply read_val_wf; [exact Hh | exact E]|].
    apply Forall_cons; split; constructor.
Qed.

Lemma metrics_json_wf m : wf_json (metrics_json m).
Proof.
  constructor.
  - apply (bool_decide_unpack _). vm_compute. exact I.
  - repeat (apply Forall_cons; split; [constructor|]). constructor.
Qed.

Lemma plan_json_wf h p t : heap_wf h -> plan_json h p = Some t -> wf_json t.
Proof.
  unfold plan_json. intros Hh.
  destruct (read h (plan p)) as [pl|] eqn:E; [|discriminate].
  intros [= <-]. constructor.
  - apply (bool_decide_unpack _). vm_compute. exact I.
  - apply Forall_cons; split; [constructor|].
    apply Forall_cons; split; [constructor|].
    apply Forall_cons; split; [eapply read_val_wf; [exact Hh | exact E]|].
    apply Forall_cons; split; [apply metrics_json_wf|].
    apply Forall_cons; split; constructor.
Qed.

Lemma mapM_wf {A} (f : A -> option json) l ts :
  (forall x t, f x = Some t -> wf_json t) ->
  mapM f l = Some ts -> Forall wf_json ts.
Proof.
  intros Hf E. apply mapM_Some in E.
  induction E as [|x y xs ys Hxy _ IH]; constructor; eauto.
Qed.

Lemma history_json_wf h db t :
  heap_wf h -> history_json h db = Some t -> wf_json t.
Proof.
  unfold history_json. intros Hh.
  destruct (mapM (meal_json h) (meals db)) as [ms|] eqn:Em; [|discriminate].
  destruct (mapM (plan_json h) (plans db)) as [ps|] eqn:Ep; [|discriminate].
  intros [= <-]. constructor.
  - apply (bool_decide_unpack _). vm_compute. exact I.
  - apply Forall_cons; split; [|apply Forall_cons; split; [|constructor]];
      cbn [snd]; constructor.
    + eapply mapM_wf; [|exact Em]. intros x t. by apply meal_json_wf.
    + eapply mapM_wf; [|exact Ep]. intros x t. by apply plan_json_wf.
Qed.

Lemma mapM_preserved {A B} (f g : A -> option B) l ts :
  (forall x t, f x = Some t -> g x = Some t) ->
  mapM f l = Some ts -> mapM g l = Some ts.
Proof.
  intros Hfg E. apply mapM_Some. apply mapM_Some in E.
  eapply Forall2_impl; [exact E|]. intros x y. apply Hfg.
Qed.

Lemma meal_json_preserved h h2 m t :
  preserves h h2 -> meal_json h m = Some t -> meal_json h2 m = Some t.
Proof.
  unfold meal_json. intros Hp.
  destruct (read h (nutritionalInfo m)) as [info|] eqn:E; [|discriminate].
  by rewrite (read_preserved _ _ _ _ E Hp).
Qed.

Lemma plan_json_preserved h h2 p t :
  preserves h h2 -> plan_json h p = Some t -> plan_json h2 p = Some t.
Proof.
  unfold plan_json. intros Hp.
  destruct (read h (plan p)) as [pl|] eqn:E; [|discriminate].
  by rewrite (read_preserved _ _ _ _ E Hp).
Qed.

(** The tree of the store depends only on the objects it is made of. *)
Lemma history_json_preserved h h2 db t :
  preserves h h2 -> history_json h db = Some t -> history_json h2 db = Some t.
Proof.
  unfold history_json. intros Hp.
  destruct (mapM (meal_json h) (meals db)) as [ms|] eqn:Em; [|discriminate].
  destruct (mapM (plan_json h) (plans db)) as [ps|] eqn:Ep; [|discriminate].
  rewrite (mapM_preserved _ (meal_json h2) _ _
             (fun x t => meal_json_preserved h h2 x t Hp) Em).
  rewrite (mapM_preserved _ (plan_json h2) _ _
             (fun x t => plan_json_preserved h h2 x t Hp) Ep).
  tauto.
Qed.

(* ===================================================================== *)
(** ** The copy [getHistory] returns *)
(* ===================================================================== *)

(** C5, as the code has it: from every state whose stored records are
    free of cycles, [getHistory] succeeds and leaves the store as it
    is.  The value it returns is made of objects that did not exist
    before the call, and reads as the tree of the store as JSON text
    carries it: with [null] in place of every number that is an
    infinity.  So it is structurally equal to the store exactly when
    the store holds no such number.  Whatever is later done to the
    objects of the returned value, and whatever objects are created,
    the store still reads the same, and so does the result of every
    later [getHistory]. *)
Theorem getHistory_returns_independent_copy σ t :
  serialisable σ t ->
  exists r σ',
    getHistory σ = (Ok r, σ') /\
    mockDb σ' = mockDb σ /\
    read (heap σ') r = Some (jsonify t) /\
    (read (heap σ') r = Some t <-> finite t = true) /\
    history_json (heap σ') (mockDb σ') = Some t /\
    (forall l, reach (heap σ') r l -> (length (heap σ) <= l)%nat) /\
    forall h2, mutates_only (heap σ') r h2 ->
      history_json h2 (mockDb σ') = Some t /\
      exists r2 σ2,
        getHistory (with_heap h2 σ') = (Ok r2, σ2) /\
        read (heap σ2) r2 = Some (jsonify t).
Proof.
  intros [Hwf Ht].
  assert (Hparse : parse (stringify t) = Some (jsonify t)).
  { apply parse_stringify_jsonify. eapply history_json_wf; eassumption. }
  destruct (alloc_json_ok (jsonify t) (heap σ)) as [Hpre Hdep Hread Hfresh _].
  exists (fst (alloc_json (jsonify t) (heap σ))),
         (with_heap (snd (alloc_json (jsonify t) (heap σ))) σ).
  assert (Hcopy : read (snd (alloc_json (jsonify t) (heap σ)))
                    (fst (alloc_json (jsonify t) (heap σ))) = Some (jsonify t))
    by apply read_alloc_json, preserves_refl.
  split; [by rewrite getHistory_eq, Ht, Hparse|].
  split; [reflexivity|].
  split; [exact Hcopy|].
  split.
  { cbn [heap with_heap]. rewrite Hcopy. split.
    - intros [= Heq]. rewrite <- Heq. apply jsonify_finite.
    - intros Hfin. by rewrite (jsonify_of_finite t Hfin). }
  split; [eapply history_json_preserved; [apply preserves_prefix, Hpre | exact Ht]|].
  split; [intros l Hl; apply (Hfresh _ l (preserves_refl _)) in Hl; lia|].
  intros h2 Hm. cbn [heap mockDb with_heap] in *.
  assert (Hp : preserves (heap σ) h2).
  { intros l o Hl. apply Hm; [by apply (preserves_prefix _ _ Hpre)|].
    intros Hr. apply (Hfresh _ l (preserves_refl _)) in Hr.
    apply lookup_lt_Some in Hl. lia. }
  assert (Ht2 : history_json h2 (mockDb σ) = Some t)
    by (eapply history_json_preserved; eassumption).
  split; [exact Ht2|].
  exists (fst (alloc_json (jsonify t) h2)),
         (with_heap (snd (alloc_json (jsonify t) h2))
            (with_heap h2 (with_heap (snd (alloc_json (jsonify t) (heap σ))) σ))).
  split.
  - rewrite getHistory_eq. cbn [heap mockDb with_heap]. by rewrite Ht2, Hparse.
  - apply read_alloc_json, preserves_refl.
Qed.

Lemma one_meal_serialisable :
  exists t, serialisable one_meal t /\ finite t = true.
Proof.
  eexists. split; [split|].
  - unfold heap_wf. vm_compute heap.
    repeat (apply Forall_cons; split;
            [first [exact I | apply (bool_decide_unpack _); vm_compute; exact I]|]).
    constructor.
  - vm_compute. reflexivity.
  - vm_compute. reflexivity.
Qed.

Lemma getHistory_returns_independent_copy_witness :
  exists t r σ',
    getHistory one_meal = (Ok r, σ') /\
    read (heap σ') r = Some t /\
    history_json (heap σ') (mockDb σ') = Some t /\
    (forall l, reach (heap σ') r l -> (length (heap one_meal) <= l)%nat).
Proof.
  destruct one_meal_serialisable as (t & Ht & Hfin).
  destruct (getHistory_returns_independent_copy one_meal t Ht)
    as (r & σ' & H1 & _ & _ & H2 & H3 & H4 & _).
  exists t, r, σ'. split; [exact H1|]. split; [exact (proj2 H2 Hfin)|].
  split; [exact H3 | exact H4].
Defined.

(** C5 as stated fails on a state the gateway reaches by itself: after
    an analysis that holds the number [1e400], an infinity, the store
    reads that number and the copy reads [null].  And on a store that
    refers to a cyclic structure [getHistory] returns nothing. *)
Lemma infinity_is_copied_as_null :
  reachable (answering (lit "[1e400]")) too_large_meal /\
  overflows (Number 1 400) = true /\
  (exists r σ' item copy,
     getHistory too_large_meal = (Ok r, σ') /\
     meals (mockDb σ') = [item] /\
     read (heap σ') (nutritionalInfo item) = Some (JArr [JNum (Number 1 400)]) /\
     read (heap σ') r = Some (JObj [(lit "meals", JArr [JObj copy]);
                                    (lit "plans", JArr [])]) /\
     assoc (lit "nutritionalInfo") copy = Some (JArr [JNull])) /\
  getHistory self_referring = (Throw TypeError, self_referring).
Proof.
  split; [unfold too_large_meal; apply rtc_once; constructor|].
  split; [vm_compute; reflexivity|].
  split; [|vm_compute; reflexivity].
  do 4 eexists. split; [vm_compute; reflexivity|].
  split; [reflexivity|]. split; [vm_compute; reflexivity|].
  split; vm_compute; reflexivity.
Qed.

(** The states the module reaches by itself can all be serialised. *)
Lemma history_json_Some h db t :
  history_json h db = Some t <->
  exists ms ps,
    mapM (meal_json h) (meals db) = Some ms /\
    mapM (plan_json h) (plans db) = Some ps /\
    t = JObj [(lit "meals", JArr ms); (lit "plans", JArr ps)].
Proof.
  unfold history_json. split.
  - destruct (mapM (meal_json h) (meals db)) as [ms|]; [|discriminate].
    destruct (mapM (plan_json h) (plans db)) as [ps|]; [|discriminate].
    intros [= <-]. eauto.
  - intros (ms & ps & -> & -> & ->). reflexivity.
Qed.

Lemma alloc_json_heap_wf t h :
  wf_json t -> heap_wf h -> heap_wf (snd (alloc_json t h)).
Proof. apply (alloc_json_ok t h). Qed.

Lemma step_serialisable env σ σ' :
  step env σ σ' ->
  (exists t, serialisable σ t) -> exists t', serialisable σ' t'.
Proof.
  intros Hstep [t [Hwf Ht]].
  assert (Hsame : exists t', serialisable σ t') by (exists t; by split).
  destruct Hstep as [b m σ | me g σ | σ | σ].
  - rewrite analyzeMealImage_eq.
    destruct (service env _) as [msg|[text|]]; [exact Hsame| |exact Hsame].
    destruct (parse (trim text)) as [tj|] eqn:Ep; [|exact Hsame].
    apply history_json_Some in Ht as (ms & ps & Hms & Hps & ->).
    pose proof (alloc_json_preserves tj (heap σ)) as Hpres.
    eexists. split; cbn [snd heap mockDb].
    + apply alloc_json_heap_wf; [eapply parse_wf, Ep | exact Hwf].
    + apply history_json_Some. do 2 eexists. cbn [meals plans].
      split; [|split; [|reflexivity]].
      * cbn [mapM].
        rewrite (mapM_preserved _ (meal_json (snd (alloc_json tj (heap σ)))) _ _
                   (fun x t => meal_json_preserved _ _ x t Hpres) Hms).
        unfold meal_json. cbn [nutritionalInfo new_meal].
        rewrite (read_alloc_json tj (heap σ) _ (preserves_refl _)).
        reflexivity.
      * exact (mapM_preserved _ _ _ _
                 (fun x t => plan_json_preserved _ _ x t Hpres) Hps).
  - rewrite generatePersonalizedPlan_eq.
    destruct (service env _) as [msg|[text|]]; [exact Hsame| |exact Hsame].
    destruct (parse (trim text)) as [tj|] eqn:Ep; [|exact Hsame].
    apply history_json_Some in Ht as (ms & ps & Hms & Hps & ->).
    pose proof (alloc_json_preserves tj (heap σ)) as Hpres.
    eexists. split; cbn [snd heap mockDb].
    + apply alloc_json_heap_wf; [eapply parse_wf, Ep | exact Hwf].
    + apply history_json_Some. do 2 eexists. cbn [meals plans].
      split; [|split; [|reflexivity]].
      * exact (mapM_preserved _ _ _ _
                 (fun x t => meal_json_preserved _ _ x t Hpres) Hms).
      * cbn [mapM].
        rewrite (mapM_preserved _ (plan_json (snd (alloc_json tj (heap σ)))) _ _
                   (fun x t => plan_json_preserved _ _ x t Hpres) Hps).
        unfold plan_json. cbn [plan new_plan].
        rewrite (read_alloc_json tj (heap σ) _ (preserves_refl _)).
        reflexivity.
  - assert (Hw : wf_json t) by (eapply history_json_wf; eassumption).
    rewrite getHistory_eq, Ht, (parse_stringify_jsonify t Hw).
    exists t. split; cbn [snd heap mockDb with_heap].
    + apply alloc_json_heap_wf; [by apply jsonify_wf | exact Hwf].
    + eapply history_json_preserved; [apply alloc_json_preserves | exact Ht].
  - rewrite clearHistory_eq. exists empty_history. split; [exact Hwf | reflexivity].
Qed.

Lemma reachable_serialisable env σ :
  reachable env σ -> exists t, serialisable σ t.
Proof.
  unfold reachable. revert σ.
  apply (rtc_ind_r (fun σ => exists t, serialisable σ t)).
  - exists empty_history. split; [constructor | reflexivity].
  - intros σ1 σ2 _ Hs IH. eapply step_serialisable; eassumption.
Qed.

(** By contrast, the analysis [analyzeMealImage] hands to its caller is
    the very object the stored record refers to: emptying that object
    changes what the store reads. *)
Lemma returned_analysis_is_shared :
  exists r item,
    fst (analyzeMealImage (answering example_analysis_text)
           (lit "QUJD") (lit "image/png") initial) = Ok (VRef r) /\
    meals (mockDb one_meal) = [item] /\
    nutritionalInfo item = VRef r /\
    history_json (<[r := OObj []]> (heap one_meal)) (mockDb one_meal)
    <> history_json (heap one_meal) (mockDb one_meal).
Proof.
  do 2 eexists. split; [vm_compute; reflexivity|].
  split; [vm_compute; reflexivity|]. split; [reflexivity|].
  vm_compute. discriminate.
Qed.

(* ===================================================================== *)
(** ** Registration and login *)
(* ===================================================================== *)

Lemma email_is_user e u :
  Auth.email_is e (user_json u) = Ok (bool_decide (Types.email u = e)).
Proof.
  unfold Auth.email_is, user_json. simpl.
  destruct (decide (lit "name" = lit "email")) as [Heq|_]; [discriminate Heq|].
  destruct (decide (lit "email" = lit "email")) as [_|Hne]; [reflexivity|].
  by destruct Hne.
Qed.

Lemma some_email_users e users :
  Auth.some_email e (map user_json users) = Ok (bool_decide (email_taken users e)).
Proof.
  unfold email_taken. induction users as [|u us IH]; cbn [map Auth.some_email].
  - rewrite bool_decide_eq_false_2; [reflexivity|]. intros H. inversion H.
  - rewrite email_is_user.
    destruct (bool_decide_reflect (Types.email u = e)) as [Hu|Hu].
    + rewrite bool_decide_eq_true_2; [reflexivity|]. by left.
    + rewrite IH. f_equal. apply bool_decide_ext. rewrite Exists_cons. tauto.
Qed.

Lemma find_email_users e users :
  Auth.find_email e (map user_json users) = Ok (user_json <$> first_with_email users e).
Proof.
  unfold first_with_email.
  induction users as [|u us IH]; cbn [map Auth.find_email List.find]; [reflexivity|].
  rewrite email_is_user.
  destruct (bool_decide_reflect (Types.email u = e)); [reflexivity | exact IH].
Qed.

Lemma first_with_email_None users e :
  first_with_email users e = None <-> ~ email_taken users e.
Proof.
  unfold first_with_email, email_taken.
  induction users as [|u us IH]; cbn [List.find].
  - rewrite Exists_nil. tauto.
  - rewrite Exists_cons.
    destruct (bool_decide_reflect (Types.email u = e)) as [Hu|Hu].
    + split; [discriminate | tauto].
    + rewrite IH. tauto.
Qed.

Lemma falsy_nil s : falsy s = true <-> s = [].
Proof. destruct s; simpl; split; congruence. Qed.

Lemma falsy_false s : falsy s = false <-> s <> [].
Proof. destruct s; simpl; split; congruence. Qed.

Lemma users_json_wf users : wf_json (users_json users).
Proof.
  constructor. apply Forall_forall. intros t Hin.
  apply list_elem_of_fmap in Hin as (u & -> & _). constructor.
  - apply (bool_decide_unpack _). vm_compute. exact I.
  - repeat (apply Forall_cons; split; [constructor|]). constructor.
Qed.

Lemma users_json_finite users : finite (users_json users) = true.
Proof.
  unfold users_json. cbn [finite]. apply forallb_forall. intros x Hx.
  apply in_map_iff in Hx as (u & <- & _). reflexivity.
Qed.

(** The stored user list reads back as it was written. *)
Lemma getUserDb_stored (ls : Storage) users (u : jsstring) :
  Auth.getUserDb
    (<[lit "user" := u]> (<[lit "user_db" := stringify (users_json users)]> ls))
  = Ok (users_json users).
Proof.
  unfold Auth.getUserDb.
  rewrite lookup_insert_ne by discriminate. rewrite lookup_insert_eq.
  change (falsy (stringify (users_json users))) with false. cbv iota.
  by rewrite (parse_stringify _ (users_json_wf users) (users_json_finite users)).
Qed.

Lemma submit_register_eq (ls : Storage) users app n e p :
  Auth.getUserDb ls = Ok (users_json users) ->
  let newUser := {| Types.name := n; Types.email := e |} in
  App.submit (register_form n e p) app ls =
  if falsy n || falsy e || falsy p
  then (Auth.ShowError (lit "Please fill all fields."), app, ls)
  else if bool_decide (email_taken users e)
  then (Auth.ShowError (lit "An account with this email already exists."), app, ls)
  else (Auth.OnLogin (user_json newUser),
        App.setUser (user_json newUser) app,
        <[lit "user" := stringify (user_json newUser)]>
          (<[lit "user_db" := stringify (users_json (users ++ [newUser]))]> ls)).
Proof.
  intros Hdb newUser.
  unfold App.submit, Auth.handleSubmit, Auth.register. simpl.
  destruct (falsy n || falsy e || falsy p); [reflexivity|].
  rewrite Hdb. simpl. rewrite some_email_users.
  destruct (bool_decide (email_taken users e)); [reflexivity|].
  unfold App.handleLogin, Auth.setUserDb, users_json.
  rewrite map_app. reflexivity.
Qed.

Lemma submit_login_eq (ls : Storage) users app e p :
  Auth.getUserDb ls = Ok (users_json users) ->
  App.submit (login_form e p) app ls =
  if falsy e || falsy p
  then (Auth.ShowError (lit "Please enter email and password."), app, ls)
  else match first_with_email users e with
       | Some u => (Auth.OnLogin (user_json u), App.setUser (user_json u) app,
                    <[lit "user" := stringify (user_json u)]> ls)
       | None =>
           (Auth.ShowError (lit "No account found with that email. Please register."),
            app, ls)
       end.
Proof.
  intros Hdb.
  unfold App.submit, Auth.handleSubmit, Auth.login. simpl.
  destruct (falsy e || falsy p); [reflexivity|].
  rewrite Hdb. simpl. rewrite find_email_users.
  destruct (first_with_email users e); reflexivity.
Qed.

Lemma getUserDb_insert_user (ls : Storage) (s : jsstring) :
  Auth.getUserDb (<[lit "user" := s]> ls) = Auth.getUserDb ls.
Proof.
  unfold Auth.getUserDb. by rewrite lookup_insert_ne by discriminate.
Qed.

(** Whatever is submitted, the stored user list stays a list of users:
    the storage the theorems below start from is the only kind the
    login screen itself produces. *)
Lemma submit_keeps_user_list (ls : Storage) users app n e p :
  Auth.getUserDb ls = Ok (users_json users) ->
  (exists users',
     Auth.getUserDb (snd (App.submit (register_form n e p) app ls))
     = Ok (users_json users')) /\
  Auth.getUserDb (snd (App.submit (login_form e p) app ls)) = Ok (users_json users).
Proof.
  intros Hdb. split.
  - rewrite (submit_register_eq ls users app n e p Hdb).
    destruct (falsy n || falsy e || falsy p); [by exists users|].
    destruct (bool_decide (email_taken users e)); [by exists users|].
    eexists. apply getUserDb_stored.
  - rewrite (submit_login_eq ls users app e p Hdb).
    destruct (falsy e || falsy p); [exact Hdb|].
    destruct (first_with_email users e); [|exact Hdb].
    cbn [snd]. by rewrite getUserDb_insert_user.
Qed.

(** C6: over a storage whose user list reads as [users],
    - Register fails exactly when a field is empty or the email is
      already in the list, in the latter case with the "already exists"
      message; otherwise it makes [{name, email}] the session user and
      stores the list with that user appended, which is how the list
      reads from then on;
    - Login fails exactly when the email or the password is empty or no
      user has the email, in the latter case with the "no account found"
      message; otherwise it makes the first user with that email the
      session user.
    A failed submission leaves the session and the storage as they
    were. *)
Theorem register_and_login_outcomes (ls : Storage) users app n e p :
  Auth.getUserDb ls = Ok (users_json users) ->
  let newUser := {| Types.name := n; Types.email := e |} in
  (failed (App.submit (register_form n e p) app ls) app ls <->
     n = [] \/ e = [] \/ p = [] \/ email_taken users e) /\
  (n <> [] -> e <> [] -> p <> [] -> email_taken users e ->
     App.submit (register_form n e p) app ls =
     (Auth.ShowError (lit "An account with this email already exists."), app, ls)) /\
  (n <> [] -> e <> [] -> p <> [] -> ~ email_taken users e ->
     App.submit (register_form n e p) app ls =
     (Auth.OnLogin (user_json newUser),
      App.setUser (user_json newUser) app,
      <[lit "user" := stringify (user_json newUser)]>
        (<[lit "user_db" := stringify (users_json (users ++ [newUser]))]> ls)) /\
     Auth.getUserDb (snd (App.submit (register_form n e p) app ls)) =
     Ok (users_json (users ++ [newUser]))) /\
  (failed (App.submit (login_form e p) app ls) app ls <->
     e = [] \/ p = [] \/ ~ email_taken users e) /\
  (e <> [] -> p <> [] -> ~ email_taken users e ->
     App.submit (login_form e p) app ls =
     (Auth.ShowError (lit "No account found with that email. Please register."),
      app, ls)) /\
  (e <> [] -> p <> [] -> forall u, first_with_email users e = Some u ->
     App.submit (login_form e p) app ls =
     (Auth.OnLogin (user_json u), App.setUser (user_json u) app,
      <[lit "user" := stringify (user_json u)]> ls)).
Proof.
  intros Hdb newUser.
  pose proof (submit_register_eq ls users app n e p Hdb) as Hreg.
  pose proof (submit_login_eq ls users app e p Hdb) as Hlog.
  cbv zeta in Hreg.
  assert (Hback : forall s : jsstring,
             Auth.getUserDb
               (<[lit "user" := s]>
                  (<[lit "user_db" := stringify (users_json (users ++ [newUser]))]> ls))
             = Ok (users_json (users ++ [newUser])))
    by (intros s; apply getUserDb_stored).
  rewrite Hreg, Hlog. clear Hreg Hlog.
  assert (Hfr : falsy n || falsy e || falsy p = true <-> n = [] \/ e = [] \/ p = []).
  { rewrite !orb_true_iff, !falsy_nil. tauto. }
  assert (Hfl : falsy e || falsy p = true <-> e = [] \/ p = []).
  { rewrite !orb_true_iff, !falsy_nil. tauto. }
  destruct (falsy n || falsy e || falsy p);
    [pose proof (proj1 Hfr eq_refl) as Er
    |assert (Er : ~ (n = [] \/ e = [] \/ p = []))
       by (intros H; apply Hfr in H; discriminate)];
  (destruct (falsy e || falsy p);
    [pose proof (proj1 Hfl eq_refl) as El
    |assert (El : ~ (e = [] \/ p = []))
       by (intros H; apply Hfl in H; discriminate)]);
  clear Hfr Hfl;
  (destruct (bool_decide_reflect (email_taken users e)) as [Ht|Ht]);
  (destruct (first_with_email users e) as [u|] eqn:Ef;
    [assert (Hnn : ~ ~ email_taken users e)
       by (rewrite <- first_with_email_None; congruence)
    |apply first_with_email_None in Ef]);
  repeat match goal with
         | |- _ /\ _ => split
         | |- failed _ _ _ <-> _ =>
             split; [intros [msg Hm]; try discriminate Hm; tauto
                    | intros Hc; try (exfalso; tauto); eexists; reflexivity]
         | |- _ -> _ => intro
         | |- _ = _ => first [reflexivity | apply Hback | congruence | exfalso; tauto]
         end.
Qed.

Lemma register_and_login_outcomes_witness :
  App.submit (register_form (lit "Al") (lit "alice@x.com") (lit "pw2"))
    App.initialApp alice_registered =
  (Auth.ShowError (lit "An account with this email already exists."),
   App.initialApp, alice_registered) /\
  App.submit (login_form (lit "alice@x.com") (lit "pw3"))
    App.initialApp alice_registered =
  (Auth.OnLogin (user_json alice), App.setUser (user_json alice) App.initialApp,
   <[lit "user" := stringify (user_json alice)]> alice_registered).
Proof.
  assert (Hdb : Auth.getUserDb alice_registered = Ok (users_json [alice]))
    by (vm_compute; reflexivity).
  assert (Ht : email_taken [alice] (lit "alice@x.com")) by (left; reflexivity).
  pose proof (register_and_login_outcomes alice_registered [alice] App.initialApp
                (lit "Al") (lit "alice@x.com") (lit "pw2") Hdb) as (_ & Hr & _).
  pose proof (register_and_login_outcomes alice_registered [alice] App.initialApp
                (lit "Al") (lit "alice@x.com") (lit "pw3") Hdb)
    as (_ & _ & _ & _ & _ & Hl).
  split.
  - apply Hr; (discriminate || exact Ht).
  - apply Hl; (discriminate || reflexivity).
Defined.

(** Outside the storages considered above: when the stored user list is
    not JSON, the exception of [JSON.parse] leaves the timer callback,
    and the submission ends with neither a message nor a session. *)
Lemma unreadable_user_list_is_uncaught :
  App.submit (register_form (lit "Al") (lit "al@x.com") (lit "pw2"))
    App.initialApp unreadable_user_list
  = (Auth.Uncaught SyntaxError, App.initialApp, unreadable_user_list).
Proof. vm_compute. reflexivity. Qed.

(** C7: the password decides nothing beyond being non-empty.  Two
    submissions that differ only in their non-empty passwords end alike,
    with the same session and the same storage, so no login depends on
    the password and no registration stores it.  After
    Register("Alice","alice@x.com","pw1") on a fresh browser the user
    list holds [{name, email}] only, and Login("alice@x.com","anything")
    makes [{name:"Alice", email:"alice@x.com"}] the session user. *)
Theorem password_is_never_checked :
  (forall (ls : Storage) app f1 f2,
      Auth.isRegister f1 = Auth.isRegister f2 ->
      Auth.name f1 = Auth.name f2 ->
      Auth.email f1 = Auth.email f2 ->
      Auth.password f1 <> [] -> Auth.password f2 <> [] ->
      App.submit f1 app ls = App.submit f2 app ls) /\
  alice_registered !! lit "user_db" = Some (stringify (users_json [alice])) /\
  App.submit (login_form (lit "alice@x.com") (lit "anything"))
    App.initialApp alice_registered =
  (Auth.OnLogin (user_json alice), App.setUser (user_json alice) App.initialApp,
   <[lit "user" := stringify (user_json alice)]> alice_registered).
Proof.
  split; [|split; vm_compute; reflexivity].
  intros ls app [r1 n1 e1 p1] [r2 n2 e2 p2]. simpl.
  intros -> -> -> Hp1 Hp2.
  apply falsy_false in Hp1, Hp2.
  unfold App.submit, Auth.handleSubmit, Auth.register, Auth.login. simpl.
  rewrite Hp1, Hp2. reflexivity.
Qed.

Lemma password_is_never_checked_witness :
  App.submit (login_form (lit "alice@x.com") (lit "pw1")) App.initialApp alice_registered
  = App.submit (login_form (lit "alice@x.com") (lit "anything")) App.initialApp
      alice_registered.
Proof.
  apply (proj1 password_is_never_checked); (reflexivity || discriminate).
Defined.

(* ===================================================================== *)
(** ** Restoring the session *)
(* ===================================================================== *)

Lemma restoreSession_eq (app : App.AppState) (ls : Storage) (o : option jsstring) :
  ls !! lit "user" = o ->
  App.restoreSession app ls =
  match o with
  | Some storedUser =>
      if falsy storedUser then (app, ls)
      else match parse storedUser with
           | Some u => (App.setUser u app, ls)
           | None => (app, delete (lit "user") ls)
           end
  | None => (app, ls)
  end.
Proof. intros <-. reflexivity. Qed.

(** C8, as the code has it: at start, a stored user record that is a
    non-empty string and parses is kept in the storage, and the value
    it parses to becomes the session user.  The user is then logged in
    unless that value is falsy: for a record that parses to [null],
    [false], the empty string or a number that is zero, the login
    screen stays.  A record that is a non-empty string and does not
    parse is removed from the storage and the session stays as it was,
    logged out.  A missing record and an empty-string record are both
    passed over: nothing is parsed, nothing is removed.  No case
    throws. *)
Theorem restoreSession_cases (app : App.AppState) (ls : Storage) :
  (forall s u, ls !! lit "user" = Some s -> s <> [] -> parse s = Some u ->
     App.restoreSession app ls = (App.setUser u app, ls) /\
     (App.loggedOut (App.setUser u app) = true <->
        u = JNull \/ u = JBool false \/ u = JStr [] \/
        exists n, u = JNum n /\ is_zero n = true) /\
     (forall fields, u = JObj fields -> App.loggedOut (App.setUser u app) = false)) /\
  (forall s, ls !! lit "user" = Some s -> s <> [] -> parse s = None ->
     App.restoreSession app ls = (app, delete (lit "user") ls) /\
     delete (lit "user") ls !! lit "user" = None) /\
  (ls !! lit "user" = Some [] \/ ls !! lit "user" = None ->
     App.restoreSession app ls = (app, ls)) /\
  App.loggedOut App.initialApp = true.
Proof.
  split; [|split; [|split]].
  - intros s u Hl Hs Hp. split; [|split].
    + rewrite (restoreSession_eq _ _ _ Hl), Hp.
      apply falsy_false in Hs. by rewrite Hs.
    + unfold App.loggedOut, App.setUser. cbn [App.user].
      destruct u as [ | [|] | n | [|c r] | elems | fields]; cbn [negb falsy]; split;
        try (intros H; discriminate H);
        try (intros [H | [H | [H | (n' & H & _)]]]; discriminate H);
        try (intros _; tauto).
      * intros Hz. right. right. right. exists n. by split.
      * intros [H | [H | [H | (n' & [= <-] & Hz)]]]; try discriminate H. exact Hz.
    + intros fields ->. reflexivity.
  - intros s Hl Hs Hp. split; [|apply lookup_delete_eq].
    rewrite (restoreSession_eq _ _ _ Hl), Hp.
    apply falsy_false in Hs. by rewrite Hs.
  - intros [Hl | Hl]; by rewrite (restoreSession_eq _ _ _ Hl).
  - reflexivity.
Qed.

Lemma restoreSession_cases_witness :
  App.restoreSession App.initialApp malformed_user_record = (App.initialApp, ∅) /\
  App.restoreSession App.initialApp alice_registered =
    (App.setUser (user_json alice) App.initialApp, alice_registered) /\
  App.loggedOut (App.setUser (user_json alice) App.initialApp) = false /\
  App.restoreSession App.initialApp null_user_record =
    (App.setUser JNull App.initialApp, null_user_record) /\
  App.loggedOut (App.setUser JNull App.initialApp) = true.
Proof.
  split; [|split; [|split; [|split]]].
  - replace (∅ : Storage) with (delete (lit "user") malformed_user_record)
      by (vm_compute; reflexivity).
    apply (proj1 (proj1 (proj2 (restoreSession_cases App.initialApp malformed_user_record))
             (lit "{name:") ltac:(vm_compute; reflexivity) ltac:(discriminate)
             ltac:(vm_compute; reflexivity))).
  - apply (proj1 (proj1 (restoreSession_cases App.initialApp alice_registered)
             (stringify (user_json alice)) (user_json alice)
             ltac:(vm_compute; reflexivity) ltac:(discriminate)
             ltac:(vm_compute; reflexivity))).
  - apply (proj2 (proj2 (proj1 (restoreSession_cases App.initialApp alice_registered)
             (stringify (user_json alice)) (user_json alice)
             ltac:(vm_compute; reflexivity) ltac:(discriminate)
             ltac:(vm_compute; reflexivity)))
             [(lit "name", JStr (lit "Alice")); (lit "email", JStr (lit "alice@x.com"))]).
    reflexivity.
  - apply (proj1 (proj1 (restoreSession_cases App.initialApp null_user_record)
             (lit "null") JNull
             ltac:(vm_compute; reflexivity) ltac:(discriminate)
             ltac:(vm_compute; reflexivity))).
  - apply (proj1 (proj2 (proj1 (restoreSession_cases App.initialApp null_user_record)
             (lit "null") JNull
             ltac:(vm_compute; reflexivity) ltac:(discriminate)
             ltac:(vm_compute; reflexivity)))).
    by left.
Defined.

(** C8 as stated fails: the empty string is a stored record that does
    not parse, and it is not removed. *)
Lemma empty_user_record_is_kept :
  empty_user_record !! lit "user" = Some [] /\
  parse [] = None /\
  App.restoreSession App.initialApp empty_user_record
  = (App.initialApp, empty_user_record) /\
  snd (App.restoreSession App.initialApp empty_user_record) !! lit "user" = Some [].
Proof. repeat split; vm_compute; reflexivity. Qed.

(* ===================================================================== *)
(** ** The coach form *)
(* ===================================================================== *)

Lemma trim_start_head s c r : trim_start s = c :: r -> is_white_space c = false.
Proof.
  induction s as [|a s IH]; simpl; [discriminate|].
  destruct (is_white_space a) eqn:Ea; [exact IH|].
  intros [= <- _]. exact Ea.
Qed.

Lemma trim_start_snoc l c : is_white_space c = false -> trim_start (l ++ [c]) <> [].
Proof.
  intros Hc. induction l as [|a l IH]; simpl.
  - by rewrite Hc.
  - destruct (is_white_space a); [exact IH | discriminate].
Qed.

Lemma trim_nil s : trim s = [] <-> trim_start s = [].
Proof.
  unfold trim, trim_end. split.
  - intros Ht. destruct (trim_start s) as [|c r] eqn:E; [reflexivity|].
    apply trim_start_head in E. exfalso.
    apply (trim_start_snoc (rev r) c E). simpl in Ht.
    apply (f_equal (@rev N)) in Ht. by rewrite rev_involutive in Ht.
  - intros ->. reflexivity.
Qed.

Lemma parseFloat_blank s : trim s = [] -> PersonalCoach.parseFloat s = PersonalCoach.NaN.
Proof. intros H. apply trim_nil in H. unfold PersonalCoach.parseFloat. by rewrite H. Qed.

Lemma check_age_None a :
  PersonalCoach.check_age a = None <->
  exists z, PersonalCoach.parseInt a = Some z /\ (1 <= z <= 120)%Z.
Proof.
  unfold PersonalCoach.check_age. destruct a as [|c a].
  - simpl. split; [discriminate|]. intros (z & Hz & _). discriminate Hz.
  - cbn [falsy]. destruct (PersonalCoach.parseInt (c :: a)) as [z|].
    + destruct (z <? 1)%Z eqn:E1; [|destruct (120 <? z)%Z eqn:E2]; simpl.
      * split; [discriminate|]. intros (z' & [= <-] & Hr). lia.
      * split; [discriminate|]. intros (z' & [= <-] & Hr). lia.
      * split; [|reflexivity]. intros _. exists z. split; [reflexivity | lia].
    + split; [discriminate|]. intros (z & Hz & _). discriminate Hz.
Qed.

Lemma check_measure_None s (required invalid : jsstring) :
  (if falsy (trim s) then Some required
   else if negb (PersonalCoach.positive_number (PersonalCoach.parseFloat s))
        then Some invalid else None) = None <->
  ValidationContract.measure_ok s.
Proof.
  unfold ValidationContract.measure_ok.
  destruct (falsy (trim s)) eqn:Et.
  - apply falsy_nil in Et. rewrite (parseFloat_blank s Et). simpl.
    split; [discriminate | intros [_ H]; discriminate H].
  - apply falsy_false in Et.
    destruct (PersonalCoach.positive_number _); simpl.
    + split; [|reflexivity]. intros _. split; [|reflexivity]. by intros ->.
    + split; [discriminate | intros [_ H]; discriminate H].
Qed.

Lemma check_gender_None g :
  PersonalCoach.check_gender g = None <-> g <> GenderUnset.
Proof. destruct g; vm_compute; split; congruence. Qed.

Lemma check_activityLevel_None a :
  PersonalCoach.check_activityLevel a = None <-> a <> ActivityUnset.
Proof. destruct a; vm_compute; split; congruence. Qed.

Lemma check_goal_None g : PersonalCoach.check_goal g = None <-> trim g <> [].
Proof.
  unfold PersonalCoach.check_goal. destruct (falsy (trim g)) eqn:E.
  - apply falsy_nil in E. split; [discriminate | congruence].
  - apply falsy_false in E. tauto.
Qed.

Lemma is_empty_true e :
  PersonalCoach.is_empty e = true <->
  PersonalCoach.age_error e = None /\ PersonalCoach.height_error e = None /\
  PersonalCoach.weight_error e = None /\ PersonalCoach.gender_error e = None /\
  PersonalCoach.activityLevel_error e = None /\ PersonalCoach.goal_error e = None.
Proof.
  unfold PersonalCoach.is_empty.
  destruct (PersonalCoach.age_error e), (PersonalCoach.height_error e),
    (PersonalCoach.weight_error e), (PersonalCoach.gender_error e),
    (PersonalCoach.activityLevel_error e), (PersonalCoach.goal_error e);
    split; try discriminate; try tauto; intros (?&?&?&?&?&?); discriminate.
Qed.

(** The run of a click whose call settles, written out. *)
Lemma handleGeneratePlan_eq env (c : PersonalCoach.CoachState) (σ : State) :
  PersonalCoach.handleGeneratePlan env c σ =
  let c0 := {| PersonalCoach.metrics := PersonalCoach.metrics c;
               PersonalCoach.goal := PersonalCoach.goal c;
               PersonalCoach.plan := PersonalCoach.plan c;
               PersonalCoach.isLoading := PersonalCoach.isLoading c;
               PersonalCoach.apiError := None;
               PersonalCoach.validationErrors := PersonalCoach.validationErrors c |} in
  let '(valid, c1) := PersonalCoach.validateForm c0 in
  if negb valid then (c1, σ)
  else
    match generatePersonalizedPlan env (PersonalCoach.metrics c1)
            (PersonalCoach.goal c1) σ with
    | (Ok result, σ') =>
        ({| PersonalCoach.metrics := PersonalCoach.metrics c1;
            PersonalCoach.goal := PersonalCoach.goal c1;
            PersonalCoach.plan := Some result;
            PersonalCoach.isLoading := false; PersonalCoach.apiError := None;
            PersonalCoach.validationErrors := PersonalCoach.validationErrors c1 |}, σ')
    | (Throw err, σ') =>
        ({| PersonalCoach.metrics := PersonalCoach.metrics c1;
            PersonalCoach.goal := PersonalCoach.goal c1;
            PersonalCoach.plan := None;
            PersonalCoach.isLoading := false; PersonalCoach.apiError := Some err;
            PersonalCoach.validationErrors := PersonalCoach.validationErrors c1 |}, σ')
    end.
Proof.
  unfold PersonalCoach.handleGeneratePlan, PersonalCoach.startGeneratePlan,
    PersonalCoach.validateForm.
  cbv zeta. cbn [PersonalCoach.metrics PersonalCoach.goal].
  destruct (PersonalCoach.is_empty _); cbn [negb]; [|reflexivity].
  destruct (generatePersonalizedPlan env _ _ σ) as [[r|err] σ']; reflexivity.
Qed.

(** C9, as the code has it: [validateForm] returns true exactly when
    [parseInt] reads from the age an integer from 1 to 120 (a leading
    integer: what follows its digits is not examined), height and weight
    are non-empty and [parseFloat] reads a positive number from each, a
    gender and an activity level are selected, and the goal has a
    character that is not white space.  [handleGeneratePlan] sends its
    request, built from these very metrics and goal, only when
    [validateForm] returns true, and otherwise leaves the gateway
    untouched. *)
Theorem validateForm_guards_the_request (c : PersonalCoach.CoachState) :
  (fst (PersonalCoach.validateForm c) = true <->
     accepted (PersonalCoach.metrics c) (PersonalCoach.goal c)) /\
  (forall env σ,
     fst (PersonalCoach.validateForm c) = false ->
     snd (PersonalCoach.handleGeneratePlan env c σ) = σ) /\
  (forall env σ,
     fst (PersonalCoach.validateForm c) = true ->
     requests (snd (PersonalCoach.handleGeneratePlan env c σ)) =
     plan_request (PersonalCoach.metrics c) (PersonalCoach.goal c) :: requests σ).
Proof.
  split; [|split].
  - unfold PersonalCoach.validateForm, accepted. cbn [fst].
    rewrite is_empty_true. unfold PersonalCoach.form_errors. cbn.
    rewrite check_age_None, check_gender_None, check_activityLevel_None,
      check_goal_None.
    unfold PersonalCoach.check_height, PersonalCoach.check_weight.
    rewrite !check_measure_None. tauto.
  - intros env σ Hv. rewrite handleGeneratePlan_eq.
    unfold PersonalCoach.validateForm in *. cbn in *. rewrite Hv. reflexivity.
  - intros env σ Hv. rewrite handleGeneratePlan_eq.
    unfold PersonalCoach.validateForm in *. cbn in *. rewrite Hv. cbn.
    rewrite generatePersonalizedPlan_eq.
    destruct (service env _) as [msg|[text|]]; try reflexivity.
    destruct (parse (trim text)); reflexivity.
Qed.

Lemma validateForm_guards_the_request_witness :
  accepted example_metrics example_goal /\
  requests (snd (PersonalCoach.handleGeneratePlan (answering example_plan_text)
                   (coach example_metrics example_goal) initial))
  = [plan_request example_metrics example_goal] /\
  snd (PersonalCoach.handleGeneratePlan (answering example_plan_text)
         (coach example_metrics (lit "  ")) initial) = initial.
Proof.
  split; [|split].
  - apply (proj1 (proj1 (validateForm_guards_the_request
                           (coach example_metrics example_goal)))).
    vm_compute. reflexivity.
  - apply (proj2 (proj2 (validateForm_guards_the_request
                           (coach example_metrics example_goal)))).
    vm_compute. reflexivity.
  - apply (proj1 (proj2 (validateForm_guards_the_request
                           (coach example_metrics (lit "  "))))).
    vm_compute. reflexivity.
Defined.

(** C9 as stated fails: the age [12.5] is no integer, yet the form
    validates and the request is sent with it. *)
Lemma fractional_age_is_accepted :
  fst (PersonalCoach.validateForm (coach fractional_age example_goal)) = true /\
  ~ ValidationContract.satisfied fractional_age example_goal /\
  requests (snd (PersonalCoach.handleGeneratePlan (answering example_plan_text)
                   (coach fractional_age example_goal) initial))
  = [plan_request fractional_age example_goal].
Proof.
  split; [vm_compute; reflexivity|]. split; [|vm_compute; reflexivity].
  intros [(z & Hz & _) _]. vm_compute in Hz. discriminate Hz.
Qed.

(* ===================================================================== *)
(** * Further properties of the gateway *)
(* ===================================================================== *)

(** ** What a successful call returns and stores *)

(** X1: a successful [analyzeMealImage] or [generatePersonalizedPlan]
    returns a tree of new objects, none of which existed before the
    call, that reads as exactly the JSON value of the trimmed response
    text; the record it stores serialises with that same tree. *)
Theorem success_returns_parsed_text env σ :
  (forall b m r σ',
      analyzeMealImage env b m σ = (Ok r, σ') ->
      exists text t item,
        service env (length (requests σ)) = Fulfilled (Some text) /\
        parse (trim text) = Some t /\
        read (heap σ') r = Some t /\
        (forall l, reach (heap σ') r l -> (length (heap σ) <= l)%nat) /\
        head (meals (mockDb σ')) = Some item /\
        meal_json (heap σ') item =
          Some (JObj [(lit "id", JStr (meal_id item));
                      (lit "timestamp", JNum (number_of_Z (meal_timestamp item)));
                      (lit "nutritionalInfo", t);
                      (lit "imageDataUrl", JStr (imageDataUrl item))])) /\
  (forall me g r σ',
      generatePersonalizedPlan env me g σ = (Ok r, σ') ->
      exists text t item,
        service env (length (requests σ)) = Fulfilled (Some text) /\
        parse (trim text) = Some t /\
        read (heap σ') r = Some t /\
        (forall l, reach (heap σ') r l -> (length (heap σ) <= l)%nat) /\
        head (plans (mockDb σ')) = Some item /\
        plan_json (heap σ') item =
          Some (JObj [(lit "id", JStr (plan_id item));
                      (lit "timestamp", JNum (number_of_Z (plan_timestamp item)));
                      (lit "plan", t);
                      (lit "metrics", metrics_json me);
                      (lit "goal", JStr g)])).
Proof.
  split.
  - intros b m r σ' Hok.
    apply analyzeMealImage_Ok in Hok as (text & t & Hs & Hp & -> & ->).
    exists text, t, (new_meal env σ b m (fst (alloc_json t (heap σ)))).
    cbn [heap mockDb meals head].
    pose proof (read_alloc_json t (heap σ) _ (preserves_refl _)) as Hread.
    split; [exact Hs|]. split; [exact Hp|]. split; [exact Hread|].
    split; [|split; [reflexivity|]].
    + intros l Hl. destruct (alloc_json_ok t (heap σ)) as [_ _ _ Hfresh _].
      apply (Hfresh _ l (preserves_refl _)) in Hl. lia.
    + unfold meal_json. cbn [nutritionalInfo new_meal]. rewrite Hread. reflexivity.
  - intros me g r σ' Hok.
    apply generatePersonalizedPlan_Ok in Hok as (text & t & Hs & Hp & -> & ->).
    exists text, t, (new_plan env σ me g (fst (alloc_json t (heap σ)))).
    cbn [heap mockDb plans head].
    pose proof (read_alloc_json t (heap σ) _ (preserves_refl _)) as Hread.
    split; [exact Hs|]. split; [exact Hp|]. split; [exact Hread|].
    split; [|split; [reflexivity|]].
    + intros l Hl. destruct (alloc_json_ok t (heap σ)) as [_ _ _ Hfresh _].
      apply (Hfresh _ l (preserves_refl _)) in Hl. lia.
    + unfold plan_json. cbn [plan new_plan]. rewrite Hread. reflexivity.
Qed.

Lemma success_returns_parsed_text_witness :
  exists text t item,
    service (answering example_analysis_text) (length (requests initial))
      = Fulfilled (Some text) /\
    parse (trim text) = Some t /\
    read (heap one_meal) (VRef 2%nat) = Some t /\
    head (meals (mockDb one_meal)) = Some item.
Proof.
  destruct (proj1 (success_returns_parsed_text (answering example_analysis_text) initial)
              (lit "QUJD") (lit "image/png") (VRef 2%nat) one_meal)
    as (text & t & item & H1 & H2 & H3 & _ & H4 & _).
  - vm_compute. reflexivity.
  - exists text, t, item. auto.
Defined.

(** X2: a successful [generatePersonalizedPlan] puts exactly one new
    record at the front of the plans history: its id is ["plan-"]
    followed by the first of two clock readings, its timestamp is the
    second reading, and it carries the returned plan, the metrics and
    the goal of the call. *)
Theorem generatePersonalizedPlan_prepends env me g σ r σ' :
  generatePersonalizedPlan env me g σ = (Ok r, σ') ->
  exists item,
    plans (mockDb σ') = item :: plans (mockDb σ) /\
    plan_id item = lit "plan-" ++ decimal (clock env (clock_reads σ)) /\
    plan_timestamp item = clock env (S (clock_reads σ)) /\
    plan item = r /\
    ApiService.metrics item = me /\
    ApiService.goal item = g /\
    clock_reads σ' = S (S (clock_reads σ)).
Proof.
  intros Hok. apply generatePersonalizedPlan_Ok in Hok as (text & t & _ & _ & _ & ->).
  exists (new_plan env σ me g r). cbn [mockDb plans clock_reads new_plan
    plan_id plan_timestamp plan ApiService.metrics ApiService.goal].
  split; [reflexivity|]. split; [reflexivity|]. split; [reflexivity|].
  split; [reflexivity|]. split; [reflexivity|]. split; reflexivity.
Qed.

Lemma generatePersonalizedPlan_prepends_witness :
  exists item,
    plans (mockDb (snd (generatePersonalizedPlan (answering (lit "{}"))
                          example_metrics example_goal initial))) = [item] /\
    plan_id item = lit "plan-1000" /\
    plan_timestamp item = 1001%Z /\
    ApiService.metrics item = example_metrics /\
    ApiService.goal item = example_goal.
Proof.
  destruct (generatePersonalizedPlan_prepends (answering (lit "{}"))
              example_metrics example_goal initial (VRef 0%nat)
              (snd (generatePersonalizedPlan (answering (lit "{}"))
                      example_metrics example_goal initial)))
    as (item & Hp & Hid & Hts & _ & Hm & Hg & _).
  - vm_compute. reflexivity.
  - exists item. split; [exact Hp|]. split; [exact Hid|]. split; [exact Hts|].
    split; [exact Hm | exact Hg].
Defined.

(** ** Order of both histories *)

Lemma step_keeps_plan_order env σ σ' :
  clock_monotone env -> step env σ σ' ->
  newest_first_plans (plans (mockDb σ)) /\ stamped_plans env σ ->
  newest_first_plans (plans (mockDb σ')) /\ stamped_plans env σ'.
Proof.
  intros Hmono Hstep [Hsorted Hst].
  assert (Hsame : newest_first_plans (plans (mockDb σ)) /\ stamped_plans env σ) by tauto.
  destruct Hstep as [b m σ | me g σ | σ | σ].
  - rewrite analyzeMealImage_eq.
    destruct (service env _) as [msg|[text|]]; [exact Hsame| |exact Hsame].
    destruct (parse (trim text)) as [t|]; [|exact Hsame].
    split; [exact Hsorted|].
    eapply Forall_impl; [exact Hst|].
    intros x (i & Hi & Hx). exists i. split; [simpl; lia | exact Hx].
  - rewrite generatePersonalizedPlan_eq.
    destruct (service env _) as [msg|[text|]]; [exact Hsame| |exact Hsame].
    destruct (parse (trim text)) as [t|]; [|exact Hsame].
    split.
    + constructor; [exact Hsorted|].
      eapply Forall_impl; [exact Hst|].
      intros x (i & Hi & Hx). simpl. rewrite Hx. apply Hmono. lia.
    + constructor.
      * exists (S (clock_reads σ)). split; [simpl; lia | reflexivity].
      * eapply Forall_impl; [exact Hst|].
        intros x (i & Hi & Hx). exists i. split; [simpl; lia | exact Hx].
  - rewrite getHistory_eq.
    destruct (history_json _ _) as [t|]; [|exact Hsame].
    destruct (parse (stringify t)) as [t'|]; exact Hsame.
  - rewrite clearHistory_eq. split; constructor.
Qed.

(** X3: when clock readings never go back, both histories are ordered
    newest first in every state the gateway can reach, whatever the
    sequence of calls and their outcomes. *)
Theorem histories_stay_newest_first env σ :
  clock_monotone env -> reachable env σ ->
  newest_first (meals (mockDb σ)) /\ newest_first_plans (plans (mockDb σ)).
Proof.
  intros Hmono Hreach. split; [by apply (reachable_order env σ Hmono)|].
  cut (newest_first_plans (plans (mockDb σ)) /\ stamped_plans env σ); [tauto|].
  unfold reachable in Hreach. revert σ Hreach.
  apply (rtc_ind_r (fun σ => newest_first_plans (plans (mockDb σ)) /\ stamped_plans env σ)).
  - split; constructor.
  - intros σ1 σ2 _ Hs IH. eapply step_keeps_plan_order; eassumption.
Qed.

Lemma two_of_each_reachable : reachable (answering (lit "{}")) two_of_each.
Proof.
  unfold reachable, two_of_each.
  eapply rtc_r; [|apply step_generatePersonalizedPlan].
  eapply rtc_r; [|apply step_generatePersonalizedPlan].
  eapply rtc_r; [|apply step_analyzeMealImage].
  apply rtc_once, step_analyzeMealImage.
Qed.

Lemma histories_stay_newest_first_witness :
  map meal_timestamp (meals (mockDb two_of_each)) = [1003; 1001]%Z /\
  map plan_timestamp (plans (mockDb two_of_each)) = [1007; 1005]%Z /\
  newest_first (meals (mockDb two_of_each)) /\
  newest_first_plans (plans (mockDb two_of_each)).
Proof.
  split; [vm_compute; reflexivity|]. split; [vm_compute; reflexivity|].
  apply (histories_stay_newest_first (answering (lit "{}")) two_of_each).
  - intros i j Hij. simpl. lia.
  - exact two_of_each_reachable.
Defined.

(** ** Ids *)

Lemma uint_chars_inj d d' : uint_chars d = uint_chars d' -> d = d'.
Proof.
  revert d'. induction d; destruct d'; cbn [uint_chars]; intros H;
    try discriminate H; try reflexivity;
    injection H as H; f_equal; auto.
Qed.

Lemma decimal_inj z z' : decimal z = decimal z' -> z = z'.
Proof.
  destruct (decimal_shape z) as (n & d & -> & Hd & _ & <-).
  destruct (decimal_shape z') as (n' & d' & -> & Hd' & _ & <-).
  intros H. destruct n, n'; cbn [app] in H.
  - injection H as H. apply uint_chars_inj in H. by subst.
  - destruct (uint_chars_head d' Hd') as (c & r & E & Hc). rewrite E in H.
    injection H as <- _. discriminate Hc.
  - destruct (uint_chars_head d Hd) as (c & r & E & Hc). rewrite E in H.
    injection H as -> _. discriminate Hc.
  - apply uint_chars_inj in H. by subst.
Qed.

Lemma fresh_id {A} (prefix : jsstring) (id : A -> jsstring) env k (l : list A) :
  distinct_calls env ->
  Forall (fun x => exists i : nat,
            (i < k)%nat /\ id x = prefix ++ decimal (clock env (2 * i))) l ->
  prefix ++ decimal (clock env (2 * k)) ∉ map id l.
Proof.
  intros Hd Hall Hin. apply list_elem_of_In, in_map_iff in Hin as (x & Hx & Hin).
  apply list_elem_of_In in Hin.
  rewrite Forall_forall in Hall. destruct (Hall x Hin) as (i & Hi & Hid).
  rewrite Hid in Hx. apply app_inv_head, decimal_inj in Hx.
  apply (Hd i k); [lia | exact Hx].
Qed.

Lemma step_keeps_ids env σ σ' :
  distinct_calls env -> step env σ σ' ->
  ids_stamped env σ /\ ids_unique σ -> ids_stamped env σ' /\ ids_unique σ'.
Proof.
  intros Hd Hstep [(k & Hk & Hm & Hp) [Hum Hup]].
  assert (Hsame : ids_stamped env σ /\ ids_unique σ).
  { split; [exists k; auto | split; assumption]. }
  destruct Hstep as [b m σ | me g σ | σ | σ].
  - rewrite analyzeMealImage_eq.
    destruct (service env _) as [msg|[text|]]; [exact Hsame| |exact Hsame].
    destruct (parse (trim text)) as [t|]; [|exact Hsame].
    split.
    + exists (S k). cbn [snd clock_reads mockDb meals plans].
      split; [lia|]. split.
      * constructor.
        -- exists k. split; [lia|]. cbn [new_meal meal_id]. by rewrite Hk.
        -- eapply Forall_impl; [exact Hm|].
           intros x (i & Hi & Hx). exists i. split; [lia | exact Hx].
      * eapply Forall_impl; [exact Hp|].
        intros x (i & Hi & Hx). exists i. split; [lia | exact Hx].
    + split; cbn [snd mockDb meals plans map]; [|exact Hup].
      constructor; [|exact Hum].
      cbn [new_meal meal_id]. rewrite Hk. by apply fresh_id.
  - rewrite generatePersonalizedPlan_eq.
    destruct (service env _) as [msg|[text|]]; [exact Hsame| |exact Hsame].
    destruct (parse (trim text)) as [t|]; [|exact Hsame].
    split.
    + exists (S k). cbn [snd clock_reads mockDb meals plans].
      split; [lia|]. split.
      * eapply Forall_impl; [exact Hm|].
        intros x (i & Hi & Hx). exists i. split; [lia | exact Hx].
      * constructor.
        -- exists k. split; [lia|]. cbn [new_plan plan_id]. by rewrite Hk.
        -- eapply Forall_impl; [exact Hp|].
           intros x (i & Hi & Hx). exists i. split; [lia | exact Hx].
    + split; cbn [snd mockDb meals plans map]; [exact Hum|].
      constructor; [|exact Hup].
      cbn [new_plan plan_id]. rewrite Hk. by apply fresh_id.
  - rewrite getHistory_eq.
    destruct (history_json _ _) as [t|]; [|exact Hsame].
    destruct (parse (stringify t)) as [t'|]; exact Hsame.
  - rewrite clearHistory_eq. split.
    + exists k. split; [exact Hk|]. split; constructor.
    + split; constructor.
Qed.

(** X4: the ids of the stored records are pairwise different in every
    reachable state, in both histories, provided the clock readings the
    ids are made from (the first of the two readings of each successful
    call) differ from call to call. *)
Theorem ids_are_unique env σ :
  distinct_calls env -> reachable env σ ->
  NoDup (map meal_id (meals (mockDb σ))) /\
  NoDup (map plan_id (plans (mockDb σ))).
Proof.
  intros Hd Hreach.
  cut (ids_stamped env σ /\ ids_unique σ); [unfold ids_unique; tauto|].
  unfold reachable in Hreach. revert σ Hreach.
  apply (rtc_ind_r (fun σ => ids_stamped env σ /\ ids_unique σ)).
  - split.
    + exists 0%nat. split; [reflexivity|]. split; constructor.
    + split; constructor.
  - intros σ1 σ2 _ Hs IH. eapply step_keeps_ids; eassumption.
Qed.

Lemma ids_are_unique_witness :
  map meal_id (meals (mockDb two_of_each)) = [lit "meal-1002"; lit "meal-1000"] /\
  map plan_id (plans (mockDb two_of_each)) = [lit "plan-1006"; lit "plan-1004"] /\
  NoDup (map meal_id (meals (mockDb two_of_each))) /\
  NoDup (map plan_id (plans (mockDb two_of_each))).
Proof.
  split; [vm_compute; reflexivity|]. split; [vm_compute; reflexivity|].
  apply (ids_are_unique (answering (lit "{}")) two_of_each).
  - intros i j Hij. simpl. lia.
  - exact two_of_each_reachable.
Defined.

(** X5: ids are made from the clock alone: when two successful
    [analyzeMealImage] calls in a row take the same first reading, the
    two records they store have the same id. *)
Theorem same_reading_same_id env b m b' m' σ r σ1 r' σ2 :
  analyzeMealImage env b m σ = (Ok r, σ1) ->
  analyzeMealImage env b' m' σ1 = (Ok r', σ2) ->
  clock env (S (S (clock_reads σ))) = clock env (clock_reads σ) ->
  exists second first,
    meals (mockDb σ2) = second :: first :: meals (mockDb σ) /\
    nutritionalInfo first = r /\ nutritionalInfo second = r' /\
    meal_id second = meal_id first.
Proof.
  intros H1 H2 Hc.
  apply analyzeMealImage_Ok in H1 as (text & t & _ & _ & _ & ->).
  apply analyzeMealImage_Ok in H2 as (text' & t' & _ & _ & _ & ->).
  do 2 eexists. cbn [mockDb meals clock_reads].
  split; [reflexivity|]. split; [reflexivity|]. split; [reflexivity|].
  cbn [new_meal meal_id clock_reads]. by rewrite Hc.
Qed.

Lemma same_reading_same_id_witness :
  exists second first,
    meals (mockDb (snd (analyzeMealImage (frozen (lit "{}")) (lit "QUJD") (lit "image/png")
      (snd (analyzeMealImage (frozen (lit "{}")) (lit "QUJD") (lit "image/png") initial)))))
    = [second; first] /\
    meal_id second = meal_id first.
Proof.
  destruct (same_reading_same_id (frozen (lit "{}"))
              (lit "QUJD") (lit "image/png") (lit "QUJD") (lit "image/png")
              initial (VRef 0%nat)
              (snd (analyzeMealImage (frozen (lit "{}")) (lit "QUJD") (lit "image/png") initial))
              (VRef 1%nat)
              (snd (analyzeMealImage (frozen (lit "{}")) (lit "QUJD") (lit "image/png")
                 (snd (analyzeMealImage (frozen (lit "{}")) (lit "QUJD") (lit "image/png")
                         initial)))))
    as (second & first & Hm & _ & _ & Hid).
  - vm_compute. reflexivity.
  - vm_compute. reflexivity.
  - reflexivity.
  - exists second, first. split; [exact Hm | exact Hid].
Defined.

(** ** Values handed out earlier *)

Lemma step_preserves env σ σ' : step env σ σ' -> preserves (heap σ) (heap σ').
Proof.
  intros Hstep. destruct Hstep as [b m σ | me g σ | σ | σ].
  - rewrite analyzeMealImage_eq.
    destruct (service env _) as [msg|[text|]]; try apply preserves_refl.
    destruct (parse (trim text)) as [t|]; [|apply preserves_refl].
    apply alloc_json_preserves.
  - rewrite generatePersonalizedPlan_eq.
    destruct (service env _) as [msg|[text|]]; try apply preserves_refl.
    destruct (parse (trim text)) as [t|]; [|apply preserves_refl].
    apply alloc_json_preserves.
  - rewrite getHistory_eq.
    destruct (history_json _ _) as [t|]; [|apply preserves_refl].
    destruct (parse (stringify t)) as [t'|]; [|apply preserves_refl].
    apply alloc_json_preserves.
  - rewrite clearHistory_eq. apply preserves_refl.
Qed.

(** X6: no sequence of gateway operations changes an object that
    exists already: a value that a caller holds and that reads as the
    tree [t] still reads as [t] after any further calls, [clearHistory]
    included. *)
Theorem later_calls_keep_values env σ σ' v t :
  rtc (step env) σ σ' ->
  read (heap σ) v = Some t ->
  preserves (heap σ) (heap σ') /\ read (heap σ') v = Some t.
Proof.
  intros Hsteps Hread.
  assert (Hp : preserves (heap σ) (heap σ')).
  { induction Hsteps as [σ | σ σ1 σ2 Hs _ IH]; [apply preserves_refl|].
    eapply preserves_trans; [eapply step_preserves, Hs | apply IH].
    eapply read_preserved; [exact Hread | eapply step_preserves, Hs]. }
  split; [exact Hp|]. eapply read_preserved; eassumption.
Qed.

Lemma later_calls_keep_values_witness :
  read (heap (snd (clearHistory one_meal))) (VRef 2%nat)
  = read (heap one_meal) (VRef 2%nat).
Proof.
  destruct (later_calls_keep_values (answering example_analysis_text)
              one_meal (snd (clearHistory one_meal)) (VRef 2%nat)
              (JObj [(lit "foodItems", JArr [JStr (lit "rice"); JStr (lit "beans")]);
                     (lit "macros", JObj [(lit "calories", JNum (Number 4205 (-1)))]);
                     (lit "summary", JStr (lit "Balanced."))]))
    as [_ H].
  - apply rtc_once. constructor.
  - vm_compute. reflexivity.
  - rewrite H. vm_compute. reflexivity.
Defined.

(** ** Reading the history *)

(** X7: in every state the gateway reaches by its own operations,
    [getHistory] succeeds: it returns an object with a [meals] and a
    [plans] array that have one entry per stored record, and leaves the
    store as it was. *)
Theorem getHistory_succeeds_when_reachable env σ :
  reachable env σ ->
  exists r σ' ms ps,
    getHistory σ = (Ok r, σ') /\
    read (heap σ') r = Some (JObj [(lit "meals", JArr ms); (lit "plans", JArr ps)]) /\
    length ms = length (meals (mockDb σ)) /\
    length ps = length (plans (mockDb σ)) /\
    mockDb σ' = mockDb σ.
Proof.
  intros Hreach. destruct (reachable_serialisable env σ Hreach) as (t & Hwf & Ht).
  assert (Hw : wf_json t) by (eapply history_json_wf; eassumption).
  pose proof Ht as Hshape. apply history_json_Some in Hshape as (ms & ps & Hms & Hps & ->).
  rewrite getHistory_eq, Ht, (parse_stringify_jsonify _ Hw).
  do 2 eexists. exists (map jsonify ms), (map jsonify ps).
  split; [reflexivity|]. cbn [heap mockDb with_heap].
  split.
  { change (JObj [(lit "meals", JArr (map jsonify ms));
                  (lit "plans", JArr (map jsonify ps))])
      with (jsonify (JObj [(lit "meals", JArr ms); (lit "plans", JArr ps)])).
    apply read_alloc_json, preserves_refl. }
  apply length_mapM in Hms. apply length_mapM in Hps. rewrite !length_map.
  split; [by rewrite Hms|]. split; [by rewrite Hps | reflexivity].
Qed.

Lemma getHistory_succeeds_when_reachable_witness :
  exists r σ' ms ps,
    getHistory one_meal = (Ok r, σ') /\
    read (heap σ') r = Some (JObj [(lit "meals", JArr ms); (lit "plans", JArr ps)]) /\
    length ms = 1%nat /\ length ps = 0%nat.
Proof.
  destruct (getHistory_succeeds_when_reachable (answering example_analysis_text) one_meal)
    as (r & σ' & ms & ps & H1 & H2 & H3 & H4 & _).
  - unfold one_meal. apply rtc_once. constructor.
  - exists r, σ', ms, ps. split; [exact H1|]. split; [exact H2|].
    split; [exact H3 | exact H4].
Defined.

Lemma mapM_fails {A B} (f : A -> option B) (l : list A) (x : A) :
  x ∈ l -> f x = None -> mapM f l = None.
Proof.
  intros Hin Hx. induction Hin as [x l | x y l Hin IH]; cbn [mapM].
  - rewrite Hx. reflexivity.
  - rewrite (IH Hx). destruct (f y); reflexivity.
Qed.

Lemma reach_step h v l :
  reach h v l -> on_cycle h l ->
  exists l' w, v = VRef l' /\ holds h l' w /\ reach h w l.
Proof.
  intros Hr Hc. destruct Hr as [l | l vs w l' Hl Hin Hr | l fs k w l' Hl Hin Hr].
  - destruct Hc as (w & Hh & Hw). exists l, w. auto.
  - exists l, w. split; [reflexivity|]. split; [left; eauto | exact Hr].
  - exists l, w. split; [reflexivity|]. split; [right; eauto | exact Hr].
Qed.

Lemma read_val_cycle h l :
  on_cycle h l -> forall n v, reach h v l -> read_val n h v = None.
Proof.
  intros Hc n. induction n as [|n IH]; intros v Hr.
  - destruct Hr; reflexivity.
  - destruct (reach_step h v l Hr Hc) as (l' & w & -> & Hh & Hw).
    cbn [read_val]. destruct Hh as [(vs & -> & Hin) | (fs & k & -> & Hin)].
    + rewrite (mapM_fails _ vs w Hin (IH w Hw)). reflexivity.
    + rewrite (mapM_fails _ fs (k, w) Hin); [reflexivity|].
      cbn [snd]. rewrite (IH w Hw). reflexivity.
Qed.

(** X8: when a stored record refers, directly or through other
    objects, to an object that refers back to itself, [getHistory]
    throws a [TypeError] and changes nothing. *)
Theorem getHistory_cyclic_store σ l :
  stored σ l -> on_cycle (heap σ) l ->
  getHistory σ = (Throw TypeError, σ).
Proof.
  intros Hst Hc. rewrite getHistory_eq.
  assert (history_json (heap σ) (mockDb σ) = None) as ->; [|reflexivity].
  unfold history_json. destruct Hst as [Hm | Hp].
  - apply Exists_exists in Hm as (m & Hin & Hr).
    rewrite (mapM_fails (meal_json (heap σ)) _ m Hin); [reflexivity|].
    unfold meal_json, read. rewrite (read_val_cycle _ _ Hc _ _ Hr). reflexivity.
  - apply Exists_exists in Hp as (p & Hin & Hr).
    rewrite (mapM_fails (plan_json (heap σ)) _ p Hin).
    + destruct (mapM _ _); reflexivity.
    + unfold plan_json, read. rewrite (read_val_cycle _ _ Hc _ _ Hr). reflexivity.
Qed.

Lemma getHistory_cyclic_store_witness :
  getHistory self_referring = (Throw TypeError, self_referring).
Proof.
  apply (getHistory_cyclic_store self_referring 2%nat).
  - left. apply Exists_cons_hd. apply reach_here.
  - exists (VRef 2%nat). split; [|apply reach_here].
    right. exists [(lit "self", VRef 2%nat)], (lit "self").
    split; [reflexivity | apply list_elem_of_here].
Defined.

(** ** Calls of the service *)

(** X9: [analyzeMealImage] and [generatePersonalizedPlan] call the
    service exactly once per call, whatever the outcome, with the model
    [gemini-2.5-flash], the JSON mime type and their own schema;
    [getHistory] and [clearHistory] never call the service and never
    read the clock, and [clearHistory] never fails. *)
Theorem service_calls env σ :
  (forall b m,
      requests (snd (analyzeMealImage env b m σ)) = meal_request b m :: requests σ) /\
  (forall me g,
      requests (snd (generatePersonalizedPlan env me g σ))
      = plan_request me g :: requests σ) /\
  requests (snd (getHistory σ)) = requests σ /\
  clock_reads (snd (getHistory σ)) = clock_reads σ /\
  requests (snd (clearHistory σ)) = requests σ /\
  clock_reads (snd (clearHistory σ)) = clock_reads σ /\
  fst (clearHistory σ) = Ok tt.
Proof.
  split; [|split]; [| |split; [|split]].
  - intros b m. rewrite analyzeMealImage_eq.
    destruct (service env _) as [msg|[text|]]; try reflexivity.
    destruct (parse (trim text)); reflexivity.
  - intros me g. rewrite generatePersonalizedPlan_eq.
    destruct (service env _) as [msg|[text|]]; try reflexivity.
    destruct (parse (trim text)); reflexivity.
  - rewrite getHistory_eq. destruct (history_json _ _) as [t|]; [|reflexivity].
    destruct (parse (stringify t)); reflexivity.
  - rewrite getHistory_eq. destruct (history_json _ _) as [t|]; [|reflexivity].
    destruct (parse (stringify t)); reflexivity.
  - rewrite clearHistory_eq. split; [reflexivity|]. split; reflexivity.
Qed.

(** ** White space around the response text *)

Lemma trim_start_blank ws s : blank ws -> trim_start (ws ++ s) = trim_start s.
Proof.
  induction 1 as [|c ws Hc _ IH]; [reflexivity|].
  cbn [app trim_start]. by rewrite Hc.
Qed.

Lemma trim_start_of_blank ws : blank ws -> trim_start ws = [].
Proof.
  intros H. rewrite <- (app_nil_r ws). by rewrite trim_start_blank.
Qed.

Lemma trim_start_app s t : trim_start s <> [] -> trim_start (s ++ t) = trim_start s ++ t.
Proof.
  induction s as [|c s IH]; cbn [app trim_start]; [done|].
  destruct (is_white_space c); [exact IH | reflexivity].
Qed.

Lemma trim_start_all_blank s : trim_start s = [] -> blank s.
Proof.
  induction s as [|c s IH]; cbn [trim_start]; [constructor|].
  destruct (is_white_space c) eqn:E; [|discriminate].
  intros H. constructor; [exact E | exact (IH H)].
Qed.

Lemma trim_end_blank s ws : blank ws -> trim_end (s ++ ws) = trim_end s.
Proof.
  intros H. unfold trim_end. rewrite rev_app_distr, trim_start_blank; [reflexivity|].
  by apply List.Forall_rev.
Qed.

Lemma trim_padded ws1 s ws2 :
  blank ws1 -> blank ws2 -> trim (ws1 ++ s ++ ws2) = trim s.
Proof.
  intros H1 H2. unfold trim. rewrite trim_start_blank by exact H1.
  destruct (trim_start s) as [|c r] eqn:E.
  - apply trim_start_all_blank in E.
    rewrite trim_start_blank by exact E.
    by rewrite trim_start_of_blank.
  - rewrite trim_start_app by (rewrite E; discriminate).
    rewrite E. by apply trim_end_blank.
Qed.

(** X10: white space around the response text does not matter, also
    white space that JSON itself does not allow (a byte-order mark, a
    no-break space): both operations behave on the padded text exactly
    as on the bare text. *)
Theorem response_padding_is_ignored env σ text ws1 ws2 :
  blank ws1 -> blank ws2 ->
  service env (length (requests σ)) = Fulfilled (Some (ws1 ++ text ++ ws2)) ->
  (forall b m,
      analyzeMealImage env b m σ =
      analyzeMealImage (answer_at env (length (requests σ)) (Fulfilled (Some text)))
        b m σ) /\
  (forall me g,
      generatePersonalizedPlan env me g σ =
      generatePersonalizedPlan (answer_at env (length (requests σ)) (Fulfilled (Some text)))
        me g σ).
Proof.
  intros H1 H2 Hs. split.
  - intros b m. rewrite !analyzeMealImage_eq, Hs.
    cbn [service answer_at]. rewrite Nat.eqb_refl, trim_padded by assumption.
    destruct (parse (trim text)); reflexivity.
  - intros me g. rewrite !generatePersonalizedPlan_eq, Hs.
    cbn [service answer_at]. rewrite Nat.eqb_refl, trim_padded by assumption.
    destruct (parse (trim text)); reflexivity.
Qed.

Lemma response_padding_is_ignored_witness :
  analyzeMealImage (answering ([65279; 160] ++ lit "{}" ++ [10]))
    (lit "QUJD") (lit "image/png") initial =
  analyzeMealImage
    (answer_at (answering ([65279; 160] ++ lit "{}" ++ [10])) 0 (Fulfilled (Some (lit "{}"))))
    (lit "QUJD") (lit "image/png") initial.
Proof.
  apply (proj1 (response_padding_is_ignored
                  (answering ([65279; 160] ++ lit "{}" ++ [10])) initial (lit "{}")
                  [65279; 160] [10]
                  ltac:(repeat constructor) ltac:(repeat constructor) eq_refl)).
Defined.

(** ** The shape of a conforming analysis *)

Lemma conforms_inv_array items v :
  conforms (SArray items) v = true ->
  exists elems, v = JArr elems /\ Forall (fun e => conforms items e = true) elems.
Proof.
  destruct v as [ | | | |elems| ]; try discriminate. cbn [conforms].
  intros H. exists elems. split; [reflexivity|].
  apply Forall_forall. intros e He. rewrite forallb_forall in H.
  by apply H, list_elem_of_In.
Qed.

Lemma conforms_inv_number v : conforms SNumber v = true -> exists n, v = JNum n.
Proof. destruct v; try discriminate. eauto. Qed.

(** An object over a schema that requires every property it declares
    has exactly the required keys, each with a conforming value. *)
Lemma conforms_all_required properties required fields :
  NoDup (keys fields) -> NoDup required ->
  (forall k sk, assoc k properties = Some sk -> k ∈ required) ->
  conforms (SObject properties required) (JObj fields) = true ->
  keys fields ≡ₚ required /\
  forall k, k ∈ required ->
    exists v sk, assoc k fields = Some v /\ assoc k properties = Some sk /\
                 conforms sk v = true.
Proof.
  intros Hnd Hndr Hall Hc. apply conforms_object in Hc as [Hreq Hdecl]. split.
  - apply NoDup_Permutation; [exact Hnd | exact Hndr |].
    intros k. split.
    + intros Hin. unfold keys in Hin.
      apply list_elem_of_fmap in Hin as ([k' v] & -> & Hin).
      apply Hdecl in Hin as (sk & Ha & _). exact (Hall _ _ Ha).
    + intros Hin. by apply has_key_keys, Hreq.
  - intros k Hk. destruct (has_key_assoc k fields (Hreq k Hk)) as [v Hv].
    destruct (Hdecl _ _ (assoc_elem_of _ _ _ Hv)) as (sk & Hsk & Hcv).
    exists v, sk. auto.
Qed.

Lemma conforms_named_amount v :
  wf_json v -> conforms named_amount v = true -> is_named_amount v.
Proof.
  intros Hwf Hc. destruct (conforms_inv_object _ _ _ Hc) as [fs ->].
  apply conforms_all_required in Hc as [Hperm Hget].
  - destruct (Hget (lit "name")) as (vn & sn & Hn & Hsn & Hcn); [member|].
    destruct (Hget (lit "amount")) as (va & sa & Ha & Hsa & Hca); [member|].
    vm_compute in Hsn. injection Hsn as <-.
    vm_compute in Hsa. injection Hsa as <-.
    apply conforms_inv_string in Hcn as [n ->].
    apply conforms_inv_string in Hca as [a ->].
    exists fs, n, a. auto.
  - by inversion Hwf.
  - apply (bool_decide_unpack _). vm_compute. exact I.
  - intros k sk Ha. apply assoc_keys in Ha. exact Ha.
Qed.

Lemma conforms_macros v :
  wf_json v ->
  conforms (SObject [(lit "calories", SNumber); (lit "protein", SNumber);
                     (lit "carbohydrates", SNumber); (lit "fat", SNumber)]
                    [lit "calories"; lit "protein"; lit "carbohydrates"; lit "fat"]) v
  = true ->
  is_macros v.
Proof.
  intros Hwf Hc. destruct (conforms_inv_object _ _ _ Hc) as [fs ->].
  apply conforms_all_required in Hc as [Hperm Hget].
  - destruct (Hget (lit "calories")) as (v1 & s1 & H1 & Hs1 & Hc1); [member|].
    destruct (Hget (lit "protein")) as (v2 & s2 & H2 & Hs2 & Hc2); [member|].
    destruct (Hget (lit "carbohydrates")) as (v3 & s3 & H3 & Hs3 & Hc3); [member|].
    destruct (Hget (lit "fat")) as (v4 & s4 & H4 & Hs4 & Hc4); [member|].
    vm_compute in Hs1. injection Hs1 as <-.
    vm_compute in Hs2. injection Hs2 as <-.
    vm_compute in Hs3. injection Hs3 as <-.
    vm_compute in Hs4. injection Hs4 as <-.
    apply conforms_inv_number in Hc1 as [c ->].
    apply conforms_inv_number in Hc2 as [p ->].
    apply conforms_inv_number in Hc3 as [cb ->].
    apply conforms_inv_number in Hc4 as [f ->].
    exists fs, c, p, cb, f. auto 10.
  - by inversion Hwf.
  - apply (bool_decide_unpack _). vm_compute. exact I.
  - intros k sk Ha. apply assoc_keys in Ha. exact Ha.
Qed.

Lemma conforms_named_amounts v :
  wf_json v -> conforms (SArray named_amount) v = true ->
  exists elems, v = JArr elems /\ Forall is_named_amount elems.
Proof.
  intros Hwf Hc. apply conforms_inv_array in Hc as (elems & -> & Hall).
  exists elems. split; [reflexivity|].
  inversion Hwf as [ | | | |es Hwfs| ]; subst.
  rewrite Forall_forall in *. intros e He.
  apply conforms_named_amount; auto.
Qed.

Lemma conforms_analysis t :
  wf_json t -> conforms nutritionalInfoSchema t = true -> is_analysis t.
Proof.
  intros Hwf Hc. destruct (conforms_inv_object _ _ _ Hc) as [fields ->].
  apply conforms_all_required in Hc as [Hperm Hget].
  - destruct (Hget (lit "foodItems")) as (v1 & s1 & H1 & Hs1 & Hc1); [member|].
    destruct (Hget (lit "macros")) as (v2 & s2 & H2 & Hs2 & Hc2); [member|].
    destruct (Hget (lit "vitamins")) as (v3 & s3 & H3 & Hs3 & Hc3); [member|].
    destruct (Hget (lit "minerals")) as (v4 & s4 & H4 & Hs4 & Hc4); [member|].
    destruct (Hget (lit "summary")) as (v5 & s5 & H5 & Hs5 & Hc5); [member|].
    vm_compute in Hs1. injection Hs1 as <-.
    vm_compute in Hs2. injection Hs2 as <-.
    vm_compute in Hs3. injection Hs3 as <-.
    vm_compute in Hs4. injection Hs4 as <-.
    vm_compute in Hs5. injection Hs5 as <-.
    apply conforms_inv_array in Hc1 as (foodItems & -> & Hfood).
    apply conforms_macros in Hc2; [|eapply wf_json_assoc; eassumption].
    apply conforms_named_amounts in Hc3 as (vitamins & -> & Hvit);
      [|eapply wf_json_assoc; eassumption].
    apply conforms_named_amounts in Hc4 as (minerals & -> & Hmin);
      [|eapply wf_json_assoc; eassumption].
    apply conforms_inv_string in Hc5 as [summary ->].
    exists fields, foodItems, v2, vitamins, minerals, summary.
    split; [reflexivity|]. split; [exact H1|]. split.
    { eapply Forall_impl; [exact Hfood|]. intros e. apply conforms_inv_string. }
    split; [exact H2|]. split; [exact Hc2|]. split; [exact H3|]. split; [exact Hvit|].
    split; [exact H4|]. split; [exact Hmin|]. split; [exact H5 | exact Hperm].
  - by inversion Hwf.
  - apply (bool_decide_unpack _). vm_compute. exact I.
  - intros k sk Ha. apply assoc_keys in Ha. exact Ha.
Qed.

(** X11: [analyzeMealImage] sends [nutritionalInfoSchema] with its
    request.  Whenever the value of the response text conforms to that
    schema, the returned analysis has exactly the properties
    [foodItems] (strings), [macros] (the four numbers [calories],
    [protein], [carbohydrates], [fat] and nothing else), [vitamins] and
    [minerals] (objects with a [name] and an [amount] string and
    nothing else) and [summary] (a string). *)
Theorem conforming_analysis_shape env b m σ text t :
  service env (length (requests σ)) = Fulfilled (Some text) ->
  parse (trim text) = Some t ->
  conforms nutritionalInfoSchema t = true ->
  exists r σ',
    analyzeMealImage env b m σ = (Ok r, σ') /\
    (exists req, head (requests σ') = Some req /\
                 responseSchema req = nutritionalInfoSchema) /\
    read (heap σ') r = Some t /\
    is_analysis t.
Proof.
  intros Hs Hp Hc. rewrite analyzeMealImage_eq, Hs, Hp.
  do 2 eexists. split; [reflexivity|]. split; [|split].
  - exists (meal_request b m). split; reflexivity.
  - apply read_alloc_json, preserves_refl.
  - apply conforms_analysis; [|exact Hc]. eapply parse_wf, Hp.
Qed.

Lemma conforming_analysis_shape_witness :
  exists r σ',
    analyzeMealImage (answering (stringify example_analysis))
      (lit "QUJD") (lit "image/png") initial = (Ok r, σ') /\
    read (heap σ') r = Some example_analysis /\
    is_analysis example_analysis.
Proof.
  destruct (conforming_analysis_shape (answering (stringify example_analysis))
              (lit "QUJD") (lit "image/png") initial
              (stringify example_analysis) example_analysis)
    as (r & σ' & H1 & _ & H2 & H3).
  - reflexivity.
  - vm_compute. reflexivity.
  - vm_compute. reflexivity.
  - exists r, σ'. auto.
Defined.

(** ** The returned value and the stored record are one object *)

Lemma read_replaced (h : list obj) (l : loc) :
  (l < length h)%nat -> read (<[l := OObj []]> h) (VRef l) = Some (JObj []).
Proof.
  intros Hl. unfold read. cbn [read_val].
  by rewrite list_lookup_insert_eq by exact Hl.
Qed.

Lemma alloc_json_ref t h l :
  fst (alloc_json t h) = VRef l -> (l < length (snd (alloc_json t h)))%nat.
Proof.
  intros Hr. destruct (alloc_json_ok t h) as [_ _ _ Hfresh _].
  apply (Hfresh _ l (preserves_refl _)). rewrite Hr. apply reach_here.
Qed.

(** X25: the object a successful [analyzeMealImage] or
    [generatePersonalizedPlan] returns is the very object its stored
    record refers to, not a copy: once the caller empties the object it
    was handed, the stored record serialises with an empty analysis, or
    an empty plan. *)
Theorem returned_object_is_the_stored_one env σ :
  (forall b m l σ',
      analyzeMealImage env b m σ = (Ok (VRef l), σ') ->
      exists item,
        head (meals (mockDb σ')) = Some item /\
        nutritionalInfo item = VRef l /\
        meal_json (<[l := OObj []]> (heap σ')) item =
          Some (JObj [(lit "id", JStr (meal_id item));
                      (lit "timestamp", JNum (number_of_Z (meal_timestamp item)));
                      (lit "nutritionalInfo", JObj []);
                      (lit "imageDataUrl", JStr (imageDataUrl item))])) /\
  (forall me g l σ',
      generatePersonalizedPlan env me g σ = (Ok (VRef l), σ') ->
      exists item,
        head (plans (mockDb σ')) = Some item /\
        plan item = VRef l /\
        plan_json (<[l := OObj []]> (heap σ')) item =
          Some (JObj [(lit "id", JStr (plan_id item));
                      (lit "timestamp", JNum (number_of_Z (plan_timestamp item)));
                      (lit "plan", JObj []);
                      (lit "metrics", metrics_json me);
                      (lit "goal", JStr g)])).
Proof.
  split.
  - intros b m l σ' Hok.
    apply analyzeMealImage_Ok in Hok as (text & t & _ & _ & Hr & ->).
    exists (new_meal env σ b m (VRef l)). cbn [heap mockDb meals head].
    split; [reflexivity|]. split; [reflexivity|].
    unfold meal_json. cbn [nutritionalInfo new_meal].
    rewrite read_replaced; [reflexivity|]. by apply alloc_json_ref.
  - intros me g l σ' Hok.
    apply generatePersonalizedPlan_Ok in Hok as (text & t & _ & _ & Hr & ->).
    exists (new_plan env σ me g (VRef l)). cbn [heap mockDb plans head].
    split; [reflexivity|]. split; [reflexivity|].
    unfold plan_json. cbn [plan new_plan].
    rewrite read_replaced; [reflexivity|]. by apply alloc_json_ref.
Qed.

Lemma returned_object_is_the_stored_one_witness :
  exists item,
    head (meals (mockDb one_meal)) = Some item /\
    nutritionalInfo item = VRef 2%nat /\
    meal_json (<[2%nat := OObj []]> (heap one_meal)) item
    <> meal_json (heap one_meal) item.
Proof.
  destruct (proj1 (returned_object_is_the_stored_one
                     (answering example_analysis_text) initial)
              (lit "QUJD") (lit "image/png") 2%nat one_meal)
    as (item & H1 & H2 & _).
  - vm_compute. reflexivity.
  - exists item. split; [exact H1|]. split; [exact H2|].
    clear H2. vm_compute in H1. injection H1 as <-. vm_compute. discriminate.
Defined.

(* ===================================================================== *)
(** * Further properties of the login screen and the session *)
(* ===================================================================== *)

Lemma falsy_stringify v : falsy (stringify v) = false.
Proof. destruct (stringify_head v) as (c & r & -> & _). reflexivity. Qed.

Lemma getUserDb_eq (ls : Storage) (o : option jsstring) :
  ls !! lit "user_db" = o ->
  Auth.getUserDb ls =
  match o with
  | Some db =>
      if falsy db then Ok (JArr [])
      else match parse db with
           | Some v => Ok v
           | None => Throw SyntaxError
           end
  | None => Ok (JArr [])
  end.
Proof. intros <-. reflexivity. Qed.

(** X12: what [setUserDb] stores, [getUserDb] reads back as JSON text
    carries it: the list itself when it holds no infinity, as every
    list of users does, and otherwise the list with [null] in place of
    each infinity.  [setUserDb] writes under [user_db] only; and a
    storage with no list, or an empty string for it, reads as the empty
    list. *)
Theorem userDb_round_trip (ls : Storage) (db : json) :
  wf_json db ->
  Auth.getUserDb (Auth.setUserDb db ls) = Ok (jsonify db) /\
  (Auth.getUserDb (Auth.setUserDb db ls) = Ok db <-> finite db = true) /\
  (forall users,
      Auth.getUserDb (Auth.setUserDb (users_json users) ls) = Ok (users_json users)) /\
  (forall k : jsstring, k <> lit "user_db" -> Auth.setUserDb db ls !! k = ls !! k) /\
  (ls !! lit "user_db" = None \/ ls !! lit "user_db" = Some [] ->
     Auth.getUserDb ls = Ok (JArr [])).
Proof.
  intros Hwf.
  assert (Hback : forall v, wf_json v ->
            Auth.getUserDb (Auth.setUserDb v ls) = Ok (jsonify v)).
  { intros v Hv. unfold Auth.getUserDb, Auth.setUserDb. rewrite lookup_insert_eq.
    rewrite falsy_stringify. by rewrite parse_stringify_jsonify. }
  split; [by apply Hback|]. split; [|split; [|split]].
  - rewrite (Hback db Hwf). split.
    + intros [= Heq]. rewrite <- Heq. apply jsonify_finite.
    + intros Hfin. by rewrite (jsonify_of_finite db Hfin).
  - intros users. rewrite (Hback _ (users_json_wf users)).
    by rewrite (jsonify_of_finite _ (users_json_finite users)).
  - intros k Hk. unfold Auth.setUserDb. by rewrite lookup_insert_ne.
  - intros [H | H]; rewrite (getUserDb_eq ls _ H); reflexivity.
Qed.

Lemma userDb_round_trip_witness :
  Auth.getUserDb (Auth.setUserDb (users_json [alice]) ∅) = Ok (users_json [alice]) /\
  Auth.getUserDb (Auth.setUserDb (JArr [JNum (Number 1 400)]) ∅) = Ok (JArr [JNull]).
Proof.
  split.
  - apply (proj2 (proj1 (proj2 (userDb_round_trip ∅ (users_json [alice])
                                  (users_json_wf [alice]))))).
    vm_compute. reflexivity.
  - apply (proj1 (userDb_round_trip ∅ (JArr [JNum (Number 1 400)])
                    ltac:(repeat constructor))).
Defined.

(** ** The user list over time *)

Lemma getUserDb_delete_user (ls : Storage) :
  Auth.getUserDb (delete (lit "user") ls) = Auth.getUserDb ls.
Proof.
  unfold Auth.getUserDb. by rewrite lookup_delete_ne by discriminate.
Qed.

Lemma submit_login_any_name (app : App.AppState) (ls : Storage) n e p :
  App.submit {| Auth.isRegister := false; Auth.name := n;
                Auth.email := e; Auth.password := p |} app ls
  = App.submit (login_form e p) app ls.
Proof. reflexivity. Qed.

Lemma email_taken_elem users e :
  email_taken users e <-> e ∈ map Types.email users.
Proof.
  unfold email_taken. rewrite Exists_exists. split.
  - intros (u & Hin & <-). apply list_elem_of_fmap. eauto.
  - intros Hin. apply list_elem_of_fmap in Hin as (u & -> & Hin). eauto.
Qed.

Lemma unique_emails_snoc users u :
  unique_emails users -> ~ email_taken users (Types.email u) ->
  unique_emails (users ++ [u]).
Proof.
  unfold unique_emails. intros Hnd Hnew. rewrite map_app. apply NoDup_app.
  split; [exact Hnd|]. split; [|apply NoDup_singleton].
  intros e Hin Hin'. apply list_elem_of_singleton in Hin'. subst e.
  by apply Hnew, email_taken_elem.
Qed.

Lemma browser_step_user_list (ls ls' : Storage) users :
  browser_step ls ls' -> registered ls users -> unique_emails users ->
  exists users',
    registered ls' users' /\ users `prefix_of` users' /\ unique_emails users'.
Proof.
  unfold registered. intros Hstep Hdb Hnd.
  assert (Hsame : forall ls2 : Storage,
             Auth.getUserDb ls2 = Auth.getUserDb ls ->
             exists users',
               Auth.getUserDb ls2 = Ok (users_json users') /\
               users `prefix_of` users' /\ unique_emails users').
  { intros ls2 ->. exists users. split; [exact Hdb|]. split; [reflexivity | exact Hnd]. }
  destruct Hstep as [f app ls | app ls | app ls σ | app ls].
  - destruct f as [[|] n e p].
    + change {| Auth.isRegister := true; Auth.name := n;
                Auth.email := e; Auth.password := p |} with (register_form n e p).
      rewrite (submit_register_eq ls users app n e p Hdb).
      destruct (falsy n || falsy e || falsy p); [by apply Hsame|].
      destruct (bool_decide_reflect (email_taken users e)) as [Ht|Ht]; [by apply Hsame|].
      cbn [snd]. eexists. split; [apply getUserDb_stored|].
      split; [by apply prefix_app_r|]. by apply unique_emails_snoc.
    + rewrite submit_login_any_name, (submit_login_eq ls users app e p Hdb).
      destruct (falsy e || falsy p); [by apply Hsame|].
      destruct (first_with_email users e); [|by apply Hsame].
      cbn [snd]. apply Hsame, getUserDb_insert_user.
  - apply Hsame. unfold Session.googleLogin, Session.deliver, Auth.handleGoogleLogin,
      App.handleLogin. cbn [snd]. apply getUserDb_insert_user.
  - apply Hsame. unfold App.handleLogout. cbn [fst snd]. apply getUserDb_delete_user.
  - apply Hsame. rewrite (restoreSession_eq app ls _ eq_refl).
    destruct (ls !! lit "user") as [s|]; [|reflexivity].
    destruct (falsy s); [reflexivity|].
    destruct (parse s); [reflexivity|]. cbn [snd]. apply getUserDb_delete_user.
Qed.

(** X13: whatever the application does with the browser storage
    (submissions, the Google button, logouts, restarts), a user list
    that reads as users with pairwise different emails keeps doing so,
    and only ever grows at its end: no registered user is removed or
    changed. *)
Theorem user_list_only_grows (ls ls' : Storage) users :
  rtc browser_step ls ls' -> registered ls users -> unique_emails users ->
  exists users',
    registered ls' users' /\ users `prefix_of` users' /\ unique_emails users'.
Proof.
  intros Hsteps. revert users.
  induction Hsteps as [ls | ls ls1 ls2 Hs _ IH]; intros users Hdb Hnd.
  - exists users. split; [exact Hdb|]. split; [reflexivity | exact Hnd].
  - destruct (browser_step_user_list ls ls1 users Hs Hdb Hnd) as (users1 & Hdb1 & Hp1 & Hnd1).
    destruct (IH users1 Hdb1 Hnd1) as (users2 & Hdb2 & Hp2 & Hnd2).
    exists users2. split; [exact Hdb2|]. split; [|exact Hnd2].
    by transitivity users1.
Qed.

Lemma user_list_only_grows_witness :
  registered alice_registered [alice] /\
  registered bob_joined [alice; bob] /\
  exists users',
    registered bob_joined users' /\ [alice] `prefix_of` users' /\ unique_emails users'.
Proof.
  assert (Ha : registered alice_registered [alice]) by (vm_compute; reflexivity).
  split; [exact Ha|]. split; [vm_compute; reflexivity|].
  apply (user_list_only_grows alice_registered bob_joined [alice]).
  - unfold bob_joined.
    eapply rtc_r; [|apply browser_submit].
    eapply rtc_r; [|apply browser_logout].
    eapply rtc_r; [|apply browser_submit].
    apply rtc_once, browser_logout.
  - exact Ha.
  - apply NoDup_singleton.
Defined.

(** ** What a submission changes *)

(** X14: on any storage, readable or not, a submission that does not
    log in changes neither the session nor the storage; one that logs
    in makes the user the session user and stores its JSON text under
    [user]; a login never writes the user list; and no submission
    touches any other key of the storage. *)
Theorem submit_changes (f : Auth.Form) (app : App.AppState) (ls : Storage) :
  let '(o, app', ls') := App.submit f app ls in
  (forall k : jsstring, k <> lit "user" -> k <> lit "user_db" -> ls' !! k = ls !! k) /\
  (Auth.isRegister f = false -> ls' !! lit "user_db" = ls !! lit "user_db") /\
  match o with
  | Auth.OnLogin u => app' = App.setUser u app /\ ls' !! lit "user" = Some (stringify u)
  | _ => app' = app /\ ls' = ls
  end.
Proof.
  destruct f as [r n e p].
  unfold App.submit, Auth.handleSubmit, Auth.register, Auth.login, App.handleLogin,
    Auth.setUserDb.
  cbn [Auth.isRegister Auth.name Auth.email Auth.password].
  destruct r.
  - destruct (falsy n || falsy e || falsy p); [by auto|].
    destruct (Auth.getUserDb ls) as [db|err]; [|by auto].
    destruct (Auth.as_array db) as [users|err]; [|by auto].
    destruct (Auth.some_email e users) as [[|]|err]; [by auto| |by auto].
    split; [|split; [discriminate|split; [reflexivity|]]].
    + intros k Hu Hd. by rewrite !lookup_insert_ne.
    + by rewrite lookup_insert_eq.
  - destruct (falsy e || falsy p); [by auto|].
    destruct (Auth.getUserDb ls) as [db|err]; [|by auto].
    destruct (Auth.as_array db) as [users|err]; [|by auto].
    destruct (Auth.find_email e users) as [[u|]|err]; [|by auto|by auto].
    split; [|split; [|split; [reflexivity|]]].
    + intros k Hu Hd. by rewrite lookup_insert_ne.
    + intros _. by rewrite lookup_insert_ne.
    + by rewrite lookup_insert_eq.
Qed.

Lemma submit_changes_witness :
  snd (App.submit (login_form (lit "alice@x.com") (lit "pw")) App.initialApp alice_registered)
    !! lit "user_db"
  = alice_registered !! lit "user_db".
Proof.
  pose proof (submit_changes (login_form (lit "alice@x.com") (lit "pw"))
                App.initialApp alice_registered) as H.
  destruct (App.submit (login_form (lit "alice@x.com") (lit "pw"))
              App.initialApp alice_registered) as [[o app'] ls'].
  destruct H as (_ & H & _). apply H. reflexivity.
Defined.

(** ** A user list that cannot be used *)

Lemma some_email_null e users :
  null_before_match e users -> Auth.some_email e users = Throw TypeError.
Proof.
  intros (before & after & -> & Hall).
  induction Hall as [|u before Hu _ IH]; cbn [app Auth.some_email]; [reflexivity|].
  by rewrite Hu.
Qed.

Lemma find_email_null e users :
  null_before_match e users -> Auth.find_email e users = Throw TypeError.
Proof.
  intros (before & after & -> & Hall).
  induction Hall as [|u before Hu _ IH]; cbn [app Auth.find_email]; [reflexivity|].
  by rewrite Hu.
Qed.

(** X15: with the fields filled in, a submission ends in an uncaught
    exception, with neither a message nor a session and the storage
    unchanged, whenever the stored user list is not JSON
    ([SyntaxError]), is JSON but no array ([TypeError]), or is an array
    in which [null] comes before any user with the email
    ([TypeError]). *)
Theorem broken_user_list_is_uncaught (f : Auth.Form) (app : App.AppState) (ls : Storage) :
  Auth.email f <> [] -> Auth.password f <> [] ->
  (Auth.isRegister f = true -> Auth.name f <> []) ->
  (forall s, ls !! lit "user_db" = Some s -> s <> [] -> parse s = None ->
     App.submit f app ls = (Auth.Uncaught SyntaxError, app, ls)) /\
  (forall db, Auth.getUserDb ls = Ok db -> (forall users, db <> JArr users) ->
     App.submit f app ls = (Auth.Uncaught TypeError, app, ls)) /\
  (forall users, Auth.getUserDb ls = Ok (JArr users) ->
     null_before_match (Auth.email f) users ->
     App.submit f app ls = (Auth.Uncaught TypeError, app, ls)).
Proof.
  intros He Hp Hn. apply falsy_false in He, Hp.
  assert (Hfields : (if Auth.isRegister f
                     then falsy (Auth.name f) || falsy (Auth.email f)
                          || falsy (Auth.password f)
                     else falsy (Auth.email f) || falsy (Auth.password f)) = false).
  { rewrite He, Hp. destruct (Auth.isRegister f); [|reflexivity].
    specialize (Hn eq_refl). apply falsy_false in Hn. by rewrite Hn. }
  assert (Hsub : forall err,
             (Auth.getUserDb ls = Throw err \/
              exists db, Auth.getUserDb ls = Ok db /\
                (Auth.as_array db = Throw err \/
                 exists users, Auth.as_array db = Ok users /\
                   Auth.some_email (Auth.email f) users = Throw err /\
                   Auth.find_email (Auth.email f) users = Throw err)) ->
             App.submit f app ls = (Auth.Uncaught err, app, ls)).
  { intros err H. unfold App.submit, Auth.handleSubmit, Auth.register, Auth.login.
    destruct (Auth.isRegister f); rewrite Hfields;
      (destruct H as [H | (db & Hdb & [H | (users & Hu & Hs & Hf)])];
       [rewrite H | rewrite Hdb, H | rewrite Hdb, Hu, ?Hs, ?Hf]; reflexivity). }
  split; [|split].
  - intros s Hs Hne Hparse. apply Hsub. left.
    rewrite (getUserDb_eq ls _ Hs), Hparse.
    apply falsy_false in Hne. by rewrite Hne.
  - intros db Hdb Hnot. apply Hsub. right. exists db. split; [exact Hdb|]. left.
    destruct db; try reflexivity. by destruct (Hnot elems).
  - intros users Hdb Hnull. apply Hsub. right. eexists. split; [exact Hdb|]. right.
    exists users. split; [reflexivity|].
    split; [by apply some_email_null | by apply find_email_null].
Qed.

Lemma broken_user_list_is_uncaught_witness :
  App.submit (register_form (lit "Al") (lit "al@x.com") (lit "pw")) App.initialApp
    unreadable_user_list
  = (Auth.Uncaught SyntaxError, App.initialApp, unreadable_user_list) /\
  App.submit (login_form (lit "al@x.com") (lit "pw")) App.initialApp object_user_list
  = (Auth.Uncaught TypeError, App.initialApp, object_user_list) /\
  App.submit (login_form (lit "al@x.com") (lit "pw")) App.initialApp null_user_list
  = (Auth.Uncaught TypeError, App.initialApp, null_user_list).
Proof.
  split; [|split].
  - apply (proj1 (broken_user_list_is_uncaught
                    (register_form (lit "Al") (lit "al@x.com") (lit "pw"))
                    App.initialApp unreadable_user_list
                    ltac:(discriminate) ltac:(discriminate) ltac:(discriminate))
             (lit "[{name"));
      [reflexivity | discriminate | vm_compute; reflexivity].
  - apply (proj1 (proj2 (broken_user_list_is_uncaught
                    (login_form (lit "al@x.com") (lit "pw"))
                    App.initialApp object_user_list
                    ltac:(discriminate) ltac:(discriminate) ltac:(discriminate)))
             (JObj []));
      [vm_compute; reflexivity | discriminate].
  - apply (proj2 (proj2 (broken_user_list_is_uncaught
                    (login_form (lit "al@x.com") (lit "pw"))
                    App.initialApp null_user_list
                    ltac:(discriminate) ltac:(discriminate) ltac:(discriminate)))
             [JNull]);
      [vm_compute; reflexivity|].
    exists [], []. split; [reflexivity | constructor].
Defined.

(** ** Registering, leaving and coming back *)

Lemma first_with_email_snoc users u :
  ~ email_taken users (Types.email u) ->
  first_with_email (users ++ [u]) (Types.email u) = Some u.
Proof.
  unfold first_with_email, email_taken.
  induction users as [|x users IH]; intros Hnew; cbn [app List.find].
  - by rewrite bool_decide_eq_true_2.
  - rewrite Exists_cons in Hnew.
    rewrite bool_decide_eq_false_2 by tauto. apply IH. tauto.
Qed.

(** X16: a user who has registered can log out and log in again with
    the same email and any non-empty password: the session user is the
    one that was registered. *)
Theorem registered_user_can_return (ls : Storage) users app app' σ n e p p' :
  registered ls users ->
  n <> [] -> e <> [] -> p <> [] -> p' <> [] -> ~ email_taken users e ->
  let newUser := user_json {| Types.name := n; Types.email := e |} in
  let ls1 := snd (App.submit (register_form n e p) app ls) in
  let ls2 := snd (fst (App.handleLogout app' ls1 σ)) in
  App.submit (login_form e p') app' ls2 =
  (Auth.OnLogin newUser, App.setUser newUser app',
   <[lit "user" := stringify newUser]> ls2).
Proof.
  intros Hdb Hn He Hp Hp' Hnew newUser ls1 ls2.
  assert (Hdb2 : Auth.getUserDb ls2
                 = Ok (users_json (users ++ [{| Types.name := n; Types.email := e |}]))).
  { subst ls2 ls1. unfold App.handleLogout. cbn [fst snd].
    rewrite getUserDb_delete_user.
    rewrite (submit_register_eq ls users app n e p Hdb).
    apply falsy_false in Hn, He, Hp. rewrite Hn, He, Hp. cbn [orb].
    rewrite bool_decide_eq_false_2 by exact Hnew.
    cbn [snd]. apply getUserDb_stored. }
  rewrite (submit_login_eq ls2 _ app' e p' Hdb2).
  apply falsy_false in He, Hp'. rewrite He, Hp'. cbn [orb].
  pose proof (first_with_email_snoc users {| Types.name := n; Types.email := e |} Hnew)
    as Hfirst.
  cbn [Types.email] in Hfirst. by rewrite Hfirst.
Qed.

Lemma registered_user_can_return_witness :
  fst (App.submit (login_form (lit "alice@x.com") (lit "other")) App.initialApp
         (snd (fst (App.handleLogout App.initialApp alice_registered initial))))
  = (Auth.OnLogin (user_json alice), App.setUser (user_json alice) App.initialApp).
Proof.
  pose proof (registered_user_can_return ∅ [] App.initialApp App.initialApp initial
                (lit "Alice") (lit "alice@x.com") (lit "pw1") (lit "other")
                eq_refl ltac:(discriminate) ltac:(discriminate) ltac:(discriminate)
                ltac:(discriminate) ltac:(intros H; inversion H)) as H.
  cbv zeta in H. unfold alice_registered, alice. rewrite H. reflexivity.
Defined.

(** ** The session across restarts *)

Lemma find_email_elem e users u :
  Auth.find_email e users = Ok (Some u) -> u ∈ users.
Proof.
  induction users as [|x users IH]; cbn [Auth.find_email]; [discriminate|].
  destruct (Auth.email_is e x) as [[|]|err]; [| |discriminate].
  - intros [= ->]. apply list_elem_of_here.
  - intros H. apply list_elem_of_further, IH, H.
Qed.

Lemma getUserDb_wf (ls : Storage) db : Auth.getUserDb ls = Ok db -> wf_json db.
Proof.
  rewrite (getUserDb_eq ls _ eq_refl).
  destruct (ls !! lit "user_db") as [s|]; [|intros [= <-]; repeat constructor].
  destruct (falsy s); [intros [= <-]; repeat constructor|].
  destruct (parse s) eqn:E; [|discriminate]. intros [= <-]. eapply parse_wf, E.
Qed.

Lemma user_json_wf u : wf_json (user_json u).
Proof.
  constructor.
  - apply (bool_decide_unpack _). vm_compute. exact I.
  - repeat (apply Forall_cons; split; [constructor|]). constructor.
Qed.

Lemma restore_after_login (u : json) (app app' : App.AppState) (ls : Storage) :
  wf_json u ->
  App.restoreSession app' (snd (App.handleLogin u app ls))
  = (App.setUser (jsonify u) app', snd (App.handleLogin u app ls)).
Proof.
  intros Hwf. unfold App.handleLogin. cbn [snd].
  rewrite (restoreSession_eq _ _ (Some (stringify u))) by apply lookup_insert_eq.
  by rewrite falsy_stringify, parse_stringify_jsonify.
Qed.

Lemma find_email_object e users u :
  Auth.find_email e users = Ok (Some u) -> exists fields, u = JObj fields.
Proof.
  induction users as [|x users IH]; cbn [Auth.find_email]; [discriminate|].
  destruct (Auth.email_is e x) as [[|]|err] eqn:E; [|exact IH|discriminate].
  intros [= <-]. destruct x; try discriminate E. eauto.
Qed.

Lemma finite_elem (elems : list json) (v : json) :
  finite (JArr elems) = true -> v ∈ elems -> finite v = true.
Proof.
  cbn [finite]. rewrite forallb_forall. intros H Hin. by apply H, list_elem_of_In.
Qed.

(** X17: whoever is logged in when the application stops is logged in
    again when it restarts.  After a submission that logs a user in, on
    any storage, the start of the application leaves the storage as it
    is and makes the session user what JSON text carries of that user:
    the user itself when it holds no infinity, as every user of a list
    of users does, and otherwise the user with [null] in place of each
    infinity.  After the Google button it restores the demo user. *)
Theorem login_survives_restart (app app' : App.AppState) (ls : Storage) :
  (forall f u app1 ls1,
      App.submit f app ls = (Auth.OnLogin u, app1, ls1) ->
      App.user app1 = u /\
      App.restoreSession app' ls1 = (App.setUser (jsonify u) app', ls1) /\
      App.loggedOut (App.setUser (jsonify u) app') = false /\
      (finite u = true -> jsonify u = u) /\
      (forall users, registered ls users -> jsonify u = u)) /\
  App.user (fst (Session.googleLogin app ls)) = user_json demo_user /\
  App.restoreSession app' (snd (Session.googleLogin app ls))
  = (App.setUser (user_json demo_user) app', snd (Session.googleLogin app ls)).
Proof.
  split; [|split; [reflexivity | apply (restore_after_login (user_json demo_user)),
                                   user_json_wf]].
  intros f u app1 ls1.
  assert (Hgoal : forall (ls0 : Storage) u0, wf_json u0 ->
             (exists fields, u0 = JObj fields) ->
             (forall users, registered ls users -> finite u0 = true) ->
             (Auth.OnLogin u0, App.setUser u0 app,
              <[lit "user" := stringify u0]> ls0)
             = (Auth.OnLogin u, app1, ls1) ->
             App.user app1 = u /\
             App.restoreSession app' ls1 = (App.setUser (jsonify u) app', ls1) /\
             App.loggedOut (App.setUser (jsonify u) app') = false /\
             (finite u = true -> jsonify u = u) /\
             (forall users, registered ls users -> jsonify u = u)).
  { intros ls0 u0 Hwf [fields ->] Hreg [= <- <- <-]. split; [reflexivity|].
    split; [apply (restore_after_login (JObj fields) app app' ls0 Hwf)|].
    split; [reflexivity|]. split; [apply jsonify_of_finite|].
    intros users Hu. apply jsonify_of_finite, (Hreg users Hu). }
  destruct f as [r n e p].
  unfold App.submit, Auth.handleSubmit, Auth.register, Auth.login, App.handleLogin,
    Auth.setUserDb.
  cbn [Auth.isRegister Auth.name Auth.email Auth.password].
  destruct r.
  - destruct (falsy n || falsy e || falsy p); [discriminate|].
    destruct (Auth.getUserDb ls) as [db|err]; [|discriminate].
    destruct (Auth.as_array db) as [users|err]; [|discriminate].
    destruct (Auth.some_email e users) as [[|]|err]; [discriminate| |discriminate].
    apply Hgoal; [apply user_json_wf | unfold user_json; eauto | reflexivity].
  - destruct (falsy e || falsy p); [discriminate|].
    destruct (Auth.getUserDb ls) as [db|err] eqn:Edb; [|discriminate].
    destruct (Auth.as_array db) as [users|err] eqn:Ea; [|discriminate].
    destruct (Auth.find_email e users) as [[u0|]|err] eqn:Ef; [|discriminate|discriminate].
    destruct db; try discriminate Ea. injection Ea as ->.
    apply Hgoal.
    + apply getUserDb_wf in Edb. apply find_email_elem in Ef.
      inversion Edb as [ | | | |es Hall| ]; subst.
      rewrite Forall_forall in Hall. by apply Hall.
    + eapply find_email_object, Ef.
    + intros us Hus. unfold registered in Hus. rewrite Edb in Hus.
      injection Hus as Hus. apply find_email_elem in Ef.
      apply (finite_elem users); [|exact Ef].
      rewrite Hus. apply users_json_finite.
Qed.

Lemma login_survives_restart_witness :
  App.restoreSession App.initialApp
    (snd (App.submit (login_form (lit "alice@x.com") (lit "pw")) App.initialApp
            alice_registered))
  = (App.setUser (user_json alice) App.initialApp,
     snd (App.submit (login_form (lit "alice@x.com") (lit "pw")) App.initialApp
            alice_registered)).
Proof.
  destruct (proj1 (login_survives_restart App.initialApp App.initialApp alice_registered)
              (login_form (lit "alice@x.com") (lit "pw")) (user_json alice)
              (App.setUser (user_json alice) App.initialApp)
              (snd (App.submit (login_form (lit "alice@x.com") (lit "pw"))
                      App.initialApp alice_registered)))
    as (_ & H & _ & _ & Hreg).
  - vm_compute. reflexivity.
  - rewrite H. by rewrite (Hreg [alice] ltac:(vm_compute; reflexivity)).
Defined.

(** X18: a logout ends the session for good: the login screen is
    shown, on the Analyzer page; the stored user record is gone, so a
    restart stays logged out; every other key of the storage, the user
    list among them, is as before; and both histories are empty, while
    no object a caller holds is changed. *)
Theorem logout_ends_the_session (app app' : App.AppState) (ls : Storage) (σ : State) :
  let '(app1, ls1, σ1) := App.handleLogout app ls σ in
  App.loggedOut app1 = true /\
  App.currentPage app1 = App.Analyzer /\
  ls1 !! lit "user" = None /\
  (forall k : jsstring, k <> lit "user" -> ls1 !! k = ls !! k) /\
  Auth.getUserDb ls1 = Auth.getUserDb ls /\
  App.restoreSession app' ls1 = (app', ls1) /\
  mockDb σ1 = {| meals := []; plans := [] |} /\
  heap σ1 = heap σ.
Proof.
  unfold App.handleLogout.
  split; [reflexivity|]. split; [reflexivity|].
  split; [apply lookup_delete_eq|].
  split; [intros k Hk; by rewrite lookup_delete_ne|].
  split; [apply getUserDb_delete_user|].
  split; [|split; reflexivity].
  by rewrite (restoreSession_eq _ _ None) by apply lookup_delete_eq.
Qed.

(* ===================================================================== *)
(** * Further properties of the coach form *)
(* ===================================================================== *)

(** ** The button and the validation *)

Lemma trim_falsy s : falsy (trim s) = false -> falsy s = false.
Proof. destruct s; [discriminate | reflexivity]. Qed.

(** X19: the button is enabled for every form that [validateForm]
    accepts: whenever [validateForm] returns true, [isFormPopulated]
    does. *)
Theorem valid_form_is_populated (c : PersonalCoach.CoachState) :
  fst (PersonalCoach.validateForm c) = true ->
  PersonalCoach.isFormPopulated c = true.
Proof.
  unfold PersonalCoach.validateForm, PersonalCoach.isFormPopulated. cbn [fst].
  rewrite is_empty_true. unfold PersonalCoach.form_errors.
  cbn [PersonalCoach.age_error PersonalCoach.height_error PersonalCoach.weight_error
       PersonalCoach.gender_error PersonalCoach.activityLevel_error
       PersonalCoach.goal_error].
  unfold PersonalCoach.check_age, PersonalCoach.check_height, PersonalCoach.check_weight,
    PersonalCoach.check_gender, PersonalCoach.check_activityLevel,
    PersonalCoach.check_goal.
  intros (Ha & Hh & Hw & Hg & Hl & Ho).
  destruct (falsy (age (PersonalCoach.metrics c))); [discriminate Ha|].
  destruct (falsy (trim (height (PersonalCoach.metrics c)))) eqn:Eh; [discriminate Hh|].
  destruct (falsy (trim (weight (PersonalCoach.metrics c)))) eqn:Ew; [discriminate Hw|].
  destruct (falsy (gender_string (gender (PersonalCoach.metrics c)))); [discriminate Hg|].
  destruct (falsy (activity_string (activityLevel (PersonalCoach.metrics c))));
    [discriminate Hl|].
  destruct (falsy (trim (PersonalCoach.goal c))); [discriminate Ho|].
  by rewrite (trim_falsy _ Eh), (trim_falsy _ Ew).
Qed.

Lemma valid_form_is_populated_witness :
  PersonalCoach.isFormPopulated (coach example_metrics example_goal) = true.
Proof.
  apply (valid_form_is_populated (coach example_metrics example_goal)).
  vm_compute. reflexivity.
Defined.

(** ** A click on the button *)

(** X20: a click with a form that [validateForm] accepts ends with the
    loading flag off and either a plan or an error, never both.  On
    success the plan shown is the value the gateway returned, and the
    record at the front of the plans history holds that very value with
    the metrics and the goal of the form, the goal untrimmed; on
    failure no plan is shown, the error is the one the gateway threw,
    and the history is as before.  A click with a form that is not
    accepted keeps the plan shown before and shows no gateway error. *)
Theorem click_outcome env (c : PersonalCoach.CoachState) (σ : State) :
  let '(c', σ') := PersonalCoach.handleGeneratePlan env c σ in
  PersonalCoach.metrics c' = PersonalCoach.metrics c /\
  PersonalCoach.goal c' = PersonalCoach.goal c /\
  (fst (PersonalCoach.validateForm c) = true ->
     PersonalCoach.isLoading c' = false /\
     ((exists r item,
         PersonalCoach.plan c' = Some r /\ PersonalCoach.apiError c' = None /\
         plans (mockDb σ') = item :: plans (mockDb σ) /\
         plan item = r /\
         ApiService.metrics item = PersonalCoach.metrics c /\
         ApiService.goal item = PersonalCoach.goal c) \/
      (exists err,
         PersonalCoach.plan c' = None /\ PersonalCoach.apiError c' = Some err /\
         fst (generatePersonalizedPlan env (PersonalCoach.metrics c)
                (PersonalCoach.goal c) σ) = Throw err /\
         mockDb σ' = mockDb σ))) /\
  (fst (PersonalCoach.validateForm c) = false ->
     PersonalCoach.plan c' = PersonalCoach.plan c /\
     PersonalCoach.apiError c' = None /\
     PersonalCoach.isLoading c' = PersonalCoach.isLoading c /\
     σ' = σ).
Proof.
  rewrite handleGeneratePlan_eq. unfold PersonalCoach.validateForm. cbv zeta.
  cbn [fst PersonalCoach.metrics PersonalCoach.goal].
  destruct (PersonalCoach.is_empty _); cbn [negb].
  - destruct (generatePersonalizedPlan env (PersonalCoach.metrics c)
                (PersonalCoach.goal c) σ) as [[r|err] σ'] eqn:E.
    + split; [reflexivity|]. split; [reflexivity|]. split; [|discriminate].
      intros _. split; [reflexivity|]. left.
      apply generatePersonalizedPlan_Ok in E as (text & t & _ & _ & _ & ->).
      exists r, (new_plan env σ (PersonalCoach.metrics c) (PersonalCoach.goal c) r).
      cbn. auto 10.
    + split; [reflexivity|]. split; [reflexivity|]. split; [|discriminate].
      intros _. split; [reflexivity|]. right. exists err.
      split; [reflexivity|]. split; [reflexivity|]. split; [reflexivity|].
      revert E. rewrite generatePersonalizedPlan_eq.
      destruct (service env _) as [msg|[text|]]; try (by intros [= _ <-]).
      destruct (parse (trim text)); [discriminate | by intros [= _ <-]].
  - split; [reflexivity|]. split; [reflexivity|]. split; [discriminate|].
    intros _. cbn. auto.
Qed.

Lemma click_outcome_witness :
  exists r item,
    PersonalCoach.plan (fst (PersonalCoach.handleGeneratePlan (answering example_plan_text)
                               (coach example_metrics example_goal) initial)) = Some r /\
    plans (mockDb (snd (PersonalCoach.handleGeneratePlan (answering example_plan_text)
                          (coach example_metrics example_goal) initial))) = [item] /\
    plan item = r /\
    ApiService.goal item = example_goal.
Proof.
  pose proof (click_outcome (answering example_plan_text)
                (coach example_metrics example_goal) initial) as H.
  destruct (PersonalCoach.handleGeneratePlan (answering example_plan_text)
              (coach example_metrics example_goal) initial) as [c' σ'] eqn:E.
  destruct H as (_ & _ & H & _).
  destruct (H ltac:(vm_compute; reflexivity))
    as [_ [(r & item & H1 & _ & H2 & H3 & _ & H4) | (err & H1 & _)]].
  - exists r, item. cbn [fst snd]. auto.
  - exfalso. apply (f_equal (fun x => PersonalCoach.plan (fst x))) in E.
    cbn [fst] in E, H1. rewrite H1 in E. vm_compute in E. discriminate E.
Defined.

(** ** Editing the form *)

(** X21: an edit of a control sets the value of that control and of no
    other, removes the message under that control and under no other,
    and leaves the goal, the plan, the gateway error and the loading
    flag as they were; an edit of the goal does the same for the
    goal. *)
Theorem edit_changes_one_field (c : PersonalCoach.CoachState) :
  (forall e k,
      let c' := CoachForm.handleChange e c in
      value (control e) (PersonalCoach.metrics c') = new_value e /\
      (k <> control e ->
         value k (PersonalCoach.metrics c') = value k (PersonalCoach.metrics c)) /\
      CoachForm.truthy (message (control e) (PersonalCoach.validationErrors c')) = false /\
      (k <> control e ->
         message k (PersonalCoach.validationErrors c')
         = message k (PersonalCoach.validationErrors c)) /\
      PersonalCoach.goal_error (PersonalCoach.validationErrors c')
      = PersonalCoach.goal_error (PersonalCoach.validationErrors c) /\
      PersonalCoach.goal c' = PersonalCoach.goal c /\
      PersonalCoach.plan c' = PersonalCoach.plan c /\
      PersonalCoach.apiError c' = PersonalCoach.apiError c /\
      PersonalCoach.isLoading c' = PersonalCoach.isLoading c) /\
  (forall v k,
      let c' := CoachForm.handleGoalChange v c in
      PersonalCoach.goal c' = v /\
      PersonalCoach.metrics c' = PersonalCoach.metrics c /\
      CoachForm.truthy (PersonalCoach.goal_error (PersonalCoach.validationErrors c'))
      = false /\
      message k (PersonalCoach.validationErrors c')
      = message k (PersonalCoach.validationErrors c) /\
      PersonalCoach.plan c' = PersonalCoach.plan c /\
      PersonalCoach.apiError c' = PersonalCoach.apiError c /\
      PersonalCoach.isLoading c' = PersonalCoach.isLoading c).
Proof.
  split.
  - intros e k. cbv zeta. unfold CoachForm.handleChange.
    cbn [PersonalCoach.metrics PersonalCoach.goal PersonalCoach.plan
         PersonalCoach.apiError PersonalCoach.isLoading PersonalCoach.validationErrors].
    split; [|split; [|split; [|split; [|split]]]].
    + destruct e; reflexivity.
    + intros Hk. destruct e, k; try reflexivity; by destruct Hk.
    + destruct (CoachForm.truthy (CoachForm.error_of e _)) eqn:E;
        destruct e; try reflexivity; exact E.
    + intros Hk.
      destruct (CoachForm.truthy (CoachForm.error_of e _)); [|reflexivity].
      destruct e, k; try reflexivity; by destruct Hk.
    + destruct (CoachForm.truthy (CoachForm.error_of e _)); [|reflexivity].
      destruct e; reflexivity.
    + auto.
  - intros v k. cbv zeta. unfold CoachForm.handleGoalChange.
    cbn [PersonalCoach.metrics PersonalCoach.goal PersonalCoach.plan
         PersonalCoach.apiError PersonalCoach.isLoading PersonalCoach.validationErrors].
    split; [reflexivity|]. split; [reflexivity|]. split; [|split]; [| |auto].
    + destruct (CoachForm.truthy
                  (PersonalCoach.goal_error (PersonalCoach.validationErrors c))) eqn:E;
        [reflexivity | exact E].
    + destruct (CoachForm.truthy
                  (PersonalCoach.goal_error (PersonalCoach.validationErrors c)));
        [|reflexivity].
      destruct k; reflexivity.
Qed.

Lemma edit_changes_one_field_witness :
  message HeightInput
    (PersonalCoach.validationErrors
       (CoachForm.handleChange (CoachForm.Age (lit "30"))
          (snd (PersonalCoach.validateForm CoachForm.initialCoach))))
  = Some (lit "Height is required.") /\
  message AgeInput
    (PersonalCoach.validationErrors
       (CoachForm.handleChange (CoachForm.Age (lit "30"))
          (snd (PersonalCoach.validateForm CoachForm.initialCoach))))
  = None.
Proof.
  destruct (proj1 (edit_changes_one_field
                     (snd (PersonalCoach.validateForm CoachForm.initialCoach)))
              (CoachForm.Age (lit "30")) HeightInput) as (_ & _ & _ & H & _).
  split.
  - rewrite H by discriminate. reflexivity.
  - reflexivity.
Defined.

(** ** What the page shows over time *)

(** The settled run of a click is its start followed by its
    settlement. *)
Lemma handleGeneratePlan_steps env (c : PersonalCoach.CoachState) (σ : State) :
  PersonalCoach.handleGeneratePlan env c σ =
  match snd (PersonalCoach.startGeneratePlan c) with
  | None => (fst (PersonalCoach.startGeneratePlan c), σ)
  | Some (m, g) =>
      (PersonalCoach.settleGeneratePlan (fst (generatePersonalizedPlan env m g σ))
         (fst (PersonalCoach.startGeneratePlan c)),
       snd (generatePersonalizedPlan env m g σ))
  end.
Proof.
  unfold PersonalCoach.handleGeneratePlan.
  destruct (PersonalCoach.startGeneratePlan c) as [c1 [[m g]|]]; cbn [fst snd];
    [|reflexivity].
  by destruct (generatePersonalizedPlan env m g σ).
Qed.







(** ** Numbers in the form *)

Lemma digit_not_white_space c :
  c = 45 \/ is_digit c = true -> is_white_space c = false.
Proof.
  intros [-> | H]; [reflexivity|]. apply is_digit_range in H.
  unfold is_white_space.
  repeat match goal with
         | |- context [?a =? ?b] => destruct (N.eqb_spec a b); [lia|]
         end.
  destruct (N.leb_spec 8192 c); [lia | reflexivity].
Qed.

Lemma trim_start_decimal z rest : trim_start (decimal z ++ rest) = decimal z ++ rest.
Proof.
  destruct (decimal_head z) as (c & r & -> & Hc). cbn [app trim_start].
  by rewrite (digit_not_white_space c Hc).
Qed.

Lemma parseInt_decimal z rest :
  no_digit_ahead rest -> PersonalCoach.parseInt (decimal z ++ rest) = Some z.
Proof.
  intros Hrest. unfold PersonalCoach.parseInt. rewrite trim_start_decimal.
  destruct (decimal_shape z) as (neg & d & -> & Hnil & _ & <-).
  rewrite <- app_assoc, (strip_sign_decimal neg d rest Hnil).
  rewrite (read_digits_uint_chars d rest Hrest). by rewrite Hnil.
Qed.

(** X23: an age that starts with an integer literal is judged by that
    integer alone, whatever follows it (a fraction, a unit, any text
    that does not go on with a digit): it is accepted exactly when the
    integer is from 1 to 120.  In particular, an age written as a plain
    integer is accepted exactly when it is from 1 to 120. *)
Theorem age_is_judged_by_leading_integer (z : Z) (rest : jsstring) :
  no_digit_ahead rest ->
  (PersonalCoach.check_age (decimal z ++ rest) = None <-> (1 <= z <= 120)%Z) /\
  (PersonalCoach.check_age (decimal z) = None <-> (1 <= z <= 120)%Z).
Proof.
  intros Hrest.
  assert (H : forall r, no_digit_ahead r ->
            (PersonalCoach.check_age (decimal z ++ r) = None <-> (1 <= z <= 120)%Z)).
  { intros r Hr. rewrite check_age_None, (parseInt_decimal z r Hr). split.
    - by intros (z' & [= <-] & Hz).
    - intros Hz. exists z. by split. }
  split; [by apply H|]. rewrite <- (app_nil_r (decimal z)). by apply H.
Qed.

Lemma age_is_judged_by_leading_integer_witness :
  PersonalCoach.check_age (decimal 12 ++ lit ".5") = None /\
  PersonalCoach.check_age (decimal 121) <> None.
Proof.
  split.
  - apply (proj1 (age_is_judged_by_leading_integer 12 (lit ".5") eq_refl)). lia.
  - intros H.
    apply (proj2 (age_is_judged_by_leading_integer 121 [] I)) in H. lia.
Defined.

Lemma expect_Infinity_digit c r :
  is_digit c = true -> expect (lit "Infinity") (c :: r) = None.
Proof.
  intros H. apply is_digit_range in H.
  change (lit "Infinity") with (73 :: lit "nfinity"). cbn [expect].
  destruct (N.eqb_spec 73 c); [lia | reflexivity].
Qed.

Lemma parseFloat_whole p rest :
  unit_suffix rest ->
  PersonalCoach.parseFloat (decimal (Z.pos p) ++ rest)
  = PersonalCoach.Dec false (N.pos p) 0.
Proof.
  intros Hrest. unfold PersonalCoach.parseFloat. rewrite trim_start_decimal.
  change (decimal (Z.pos p)) with ([] ++ uint_chars (Pos.to_uint p)).
  destruct (to_uint_normal p) as [Hnil _].
  rewrite <- app_assoc.
  rewrite (strip_sign_decimal false (Pos.to_uint p) rest Hnil).
  destruct (uint_chars_head _ Hnil) as (c & r & E & Hc).
  rewrite E. cbn [app]. rewrite (expect_Infinity_digit c _ Hc).
  change (c :: r ++ rest) with ((c :: r) ++ rest). rewrite <- E.
  assert (Hnd : no_digit_ahead rest).
  { destruct rest as [|x rest]; [exact I | apply Hrest]. }
  rewrite (read_digits_uint_chars _ rest Hnd).
  assert (Hpoint : starts 46 rest = None).
  { destruct rest as [|x rest]; [reflexivity|]. cbn [starts].
    destruct Hrest as (_ & Hx & _). by destruct (N.eqb_spec x 46). }
  assert (Hexp : PersonalCoach.float_exponent rest = 0%Z).
  { destruct rest as [|x rest]; [reflexivity|]. cbn [PersonalCoach.float_exponent].
    destruct Hrest as (_ & _ & He & HE).
    destruct (N.eqb_spec x 101); [done|]. by destruct (N.eqb_spec x 69). }
  rewrite Hpoint, Hexp, Hnil. cbn [andb].
  rewrite DecimalFacts.app_nil_r.
  change (N.of_uint (Pos.to_uint p)) with (Pos.of_uint (Pos.to_uint p)).
  by rewrite DecimalPos.Unsigned.of_to.
Qed.

Lemma check_measure_whole p rest (required invalid : jsstring) :
  unit_suffix rest ->
  (if falsy (trim (decimal (Z.pos p) ++ rest)) then Some required
   else if negb (PersonalCoach.positive_number
                   (PersonalCoach.parseFloat (decimal (Z.pos p) ++ rest)))
        then Some invalid else None) = None.
Proof.
  intros Hrest. apply check_measure_None. split.
  - destruct (decimal_head (Z.pos p)) as (c & r & -> & _). discriminate.
  - by rewrite (parseFloat_whole p rest Hrest).
Qed.

(** X24: a height or a weight written as a positive whole number
    followed by a unit, or by any text that does not start with a
    digit, a point or an exponent mark, is accepted: only the leading
    number is read. *)
Theorem measure_with_unit_is_accepted (p : positive) (rest : jsstring) :
  unit_suffix rest ->
  PersonalCoach.check_height (decimal (Z.pos p) ++ rest) = None /\
  PersonalCoach.check_weight (decimal (Z.pos p) ++ rest) = None.
Proof.
  intros Hrest. split; by apply check_measure_whole.
Qed.

Lemma measure_with_unit_is_accepted_witness :
  PersonalCoach.check_height (lit "5ft 11in") = None /\
  PersonalCoach.check_weight (lit "5ft 11in") = None.
Proof.
  apply (measure_with_unit_is_accepted 5 (lit "ft 11in")).
  vm_compute. repeat split; discriminate.
Defined.
